(** * xmlexact: a shallow embedding of [src/xmlexact.js]

    The development follows the source file function by function:
    value coercion ([_convertFromXsdType]), the kind table ([_xsdTypeLookup]),
    the event-driven parser ([_fromXml]), definition inference from a sample
    object ([_generateDefinitionXml]), the XSD compiler
    ([_generateDefinitionXsd], [_elementToDefinition]) and sample generation
    ([_generateSample]).

    JavaScript values are an inductive type, objects are association lists in
    insertion order, exceptions are the [Throw] case of a result type, and the
    mutable variables that the parser callbacks share are the fields of one
    state record that every callback takes and returns. *)

From Stdlib Require Import String Ascii List ZArith Bool Lia Arith.
Import ListNotations.

Set Warnings "-register-all".
Set Warnings "-notation-for-abbreviation".

Local Open Scope list_scope.
Local Open Scope string_scope.

(** ** JavaScript values *)

(** Numbers.  The integers are kept exact ([NInt]); the two other numbers the
    source names are [Number.MAX_VALUE] and [NaN].  [NFloatOf s] stands for
    the binary64 that [parseFloat] reads from a literal [s] that is not a
    plain integer literal; it is kept symbolic, nothing below computes with
    it, and no Definition or schema holds one. *)
Inductive number : Type :=
| NInt (z : Z)
| NMaxValue
| NNaN
| NFloatOf (s : string).

Inductive encoding : Type := Base64 | Hex.

(** [VBuf enc s] is the byte buffer [Buffer.from(s, enc)]; its bytes are not
    decoded here.  An object lists its own properties in insertion order
    (the order [Object.keys] gives for keys that are not array indices). *)
Inductive value : Type :=
| VUndef
| VNull
| VBool (b : bool)
| VNum (n : number)
| VStr (s : string)
| VBuf (enc : encoding) (s : string)
| VArr (xs : list value)
| VObj (kvs : list (string * value)).

Definition obj : Type := list (string * value).

(** Exceptions: [new Error(msg)] thrown by the source, the [RangeError] of an
    exhausted call stack ([StackOverflow]), and the [TypeError]
    that the runtime raises on a property read of [undefined]/[null] or a
    call of something that is not a function. *)
Inductive error : Type :=
| Error (msg : string)
| TypeError (msg : string)
| StackOverflow.

Inductive result (A : Type) : Type :=
| Return (a : A)
| Throw (e : error).
Arguments Return {A} a.
Arguments Throw {A} e.

Definition bind {A B} (r : result A) (k : A -> result B) : result B :=
  match r with
  | Return a => k a
  | Throw e => Throw e
  end.

Declare Scope js_scope.
Delimit Scope js_scope with js.
Notation "x <- r ;; k" := (bind r (fun x => k))
  (at level 61, r at next level, right associativity) : js_scope.
Local Open Scope js_scope.

Definition returns {A} (r : result A) : bool :=
  match r with Return _ => true | Throw _ => false end.

(** ** Objects as association lists *)

Fixpoint lookup (k : string) (o : obj) : option value :=
  match o with
  | [] => None
  | (k', v) :: o' => if String.eqb k k' then Some v else lookup k o'
  end.

(** [o[k] = v]: overwrite in place, or append a new property. *)
Fixpoint set_prop (k : string) (v : value) (o : obj) : obj :=
  match o with
  | [] => [(k, v)]
  | (k', v') :: o' =>
      if String.eqb k k' then (k', v) :: o' else (k', v') :: set_prop k v o'
  end.

(** [delete o[k]] *)
Fixpoint delete_prop (k : string) (o : obj) : obj :=
  match o with
  | [] => []
  | (k', v') :: o' =>
      if String.eqb k k' then delete_prop k o' else (k', v') :: delete_prop k o'
  end.

Definition hasOwnProperty (o : obj) (k : string) : bool :=
  match lookup k o with Some _ => true | None => false end.

Definition keys (o : obj) : list string := map fst o.

(** [o[k]] on an object: [undefined] when the property is missing. *)
Definition get (o : obj) (k : string) : value :=
  match lookup k o with Some v => v | None => VUndef end.

(** [v[k]] for a receiver that is not [undefined]/[null]: a string and an
    array answer [length], every other read of a primitive is [undefined].
    (Array indices are read with [nth], see [_convertFromXsdType].) *)
Definition get_prop (v : value) (k : string) : value :=
  match v with
  | VObj o => get o k
  | VStr s => if String.eqb k "length" then VNum (NInt (Z.of_nat (String.length s))) else VUndef
  | VArr xs => if String.eqb k "length" then VNum (NInt (Z.of_nat (List.length xs))) else VUndef
  | _ => VUndef
  end.

(** [v.k] with the runtime's check of the receiver. *)
Definition read (v : value) (k : string) : result value :=
  match v with
  | VUndef | VNull => Throw (TypeError ("Cannot read properties of undefined or null: " ++ k))
  | _ => Return (get_prop v k)
  end.

Definition truthy (v : value) : bool :=
  match v with
  | VUndef | VNull => false
  | VBool b => b
  | VNum (NInt z) => negb (Z.eqb z 0)
  | VNum NNaN => false
  | VNum _ => true
  | VStr s => negb (String.eqb s EmptyString)
  | VBuf _ _ | VArr _ | VObj _ => true
  end.

(** [a || b] *)
Definition or_else (a b : value) : value := if truthy a then a else b.

Definition isArray (v : value) : bool :=
  match v with VArr _ => true | _ => false end.

(** [typeof v === 'object'] *)
Definition typeof_object (v : value) : bool :=
  match v with
  | VNull | VBuf _ _ | VArr _ | VObj _ => true
  | _ => false
  end.

(** [a === s] for a string [s]. *)
Definition strict_eq_str (a : value) (s : string) : bool :=
  match a with VStr t => String.eqb t s | _ => false end.

(** [list.indexOf(v) > -1] and [list.includes(v)] for a list of string
    literals. *)
Definition in_strings (v : value) (l : list string) : bool :=
  existsb (strict_eq_str v) l.

(** ** Strings *)

Definition is_digit (c : ascii) : bool :=
  let n := nat_of_ascii c in (48 <=? n)%nat && (n <=? 57)%nat.

(** The ASCII part of the regular expression class [\s] (and of the white
    space that [trim], [parseInt] and [parseFloat] skip). *)
Definition is_space (c : ascii) : bool :=
  let n := nat_of_ascii c in
  ((9 <=? n)%nat && (n <=? 13)%nat) || (n =? 32)%nat.

Fixpoint string_forall (p : ascii -> bool) (s : string) : bool :=
  match s with
  | EmptyString => true
  | String c s' => p c && string_forall p s'
  end.

(** [value.match(/^\s*$/)], also [value.trim() == ''] *)
Definition all_whitespace (s : string) : bool := string_forall is_space s.

Fixpoint skip_spaces (s : string) : string :=
  match s with
  | String c s' => if is_space c then skip_spaces s' else s
  | EmptyString => EmptyString
  end.

Definition starts_with (p s : string) : bool := String.prefix p s.

Fixpoint ends_with_char (c : ascii) (s : string) : bool :=
  match s with
  | EmptyString => false
  | String d EmptyString => Ascii.eqb c d
  | String _ s' => ends_with_char c s'
  end.

(** [s.slice(0, -1)] *)
Fixpoint drop_last (s : string) : string :=
  match s with
  | EmptyString => EmptyString
  | String _ EmptyString => EmptyString
  | String c s' => String c (drop_last s')
  end.

(** [s.endsWith(suffix)] *)
Definition ends_with (suffix s : string) : bool :=
  let n := String.length s in
  let m := String.length suffix in
  (m <=? n)%nat && String.eqb (String.substring (n - m) m s) suffix.

(** [s.indexOf(c)] as an option *)
Fixpoint index_of_char (c : ascii) (s : string) : option nat :=
  match s with
  | EmptyString => None
  | String d s' =>
      if Ascii.eqb c d then Some O
      else match index_of_char c s' with Some n => Some (S n) | None => None end
  end.

(** [s.split(sep)] for a one-character separator: the pieces between the
    separators, at least one piece. *)
Fixpoint split_at (sep : ascii) (s : string) : list string :=
  match s with
  | EmptyString => [EmptyString]
  | String c s' =>
      if Ascii.eqb c sep then EmptyString :: split_at sep s'
      else match split_at sep s' with
           | p :: ps => String c p :: ps
           | [] => [String c EmptyString]
           end
  end.

Definition colon : ascii := ":"%char.
Definition dollar : ascii := "$"%char.

Definition is_line_terminator (c : ascii) : bool :=
  let n := nat_of_ascii c in (n =? 10)%nat || (n =? 13)%nat.

(** [key.match(/^xmlns:(.+)$/)]: the captured alias, when the key is
    [xmlns:] followed by at least one character and no line terminator
    (which [.] does not match). *)
Definition match_xmlns (key : string) : option string :=
  if starts_with "xmlns:" key then
    let rest := String.substring 6 (String.length key - 6) key in
    if negb (String.eqb rest EmptyString) && string_forall (fun c => negb (is_line_terminator c)) rest
    then Some rest else None
  else None.

(** ** Numbers and their text *)

Definition digit_value (c : ascii) : Z := Z.of_nat (nat_of_ascii c - 48).

Definition digit_char (d : Z) : ascii := ascii_of_nat (Z.to_nat d + 48).

(** The longest prefix of digits, and what follows it. *)
Fixpoint span_digits (s : string) : string * string :=
  match s with
  | String c s' =>
      if is_digit c then let (ds, r) := span_digits s' in (String c ds, r)
      else (EmptyString, s)
  | EmptyString => (EmptyString, EmptyString)
  end.

Fixpoint digits_value (acc : Z) (ds : string) : Z :=
  match ds with
  | EmptyString => acc
  | String c ds' => digits_value (10 * acc + digit_value c) ds'
  end.

(** An optional sign: whether it is [-], and what follows it. *)
Definition read_sign (s : string) : bool * string :=
  match s with
  | String "-"%char s' => (true, s')
  | String "+"%char s' => (false, s')
  | _ => (false, s)
  end.

(** [parseInt(s, 10)] on a string: leading white space, an optional sign,
    the longest run of decimal digits; [NaN] without a digit.  (The result
    is the exact integer; the runtime rounds it to a binary64 above 2^53 and
    keeps the sign of a negative zero.) *)
Definition parseInt_string (s : string) : number :=
  let (neg, r) := read_sign (skip_spaces s) in
  let (ds, _) := span_digits r in
  match ds with
  | EmptyString => NNaN
  | _ => let n := digits_value 0 ds in NInt (if neg then (- n)%Z else n)
  end.

Definition starts_with_digit (s : string) : bool :=
  match s with String c _ => is_digit c | EmptyString => false end.

(** Whether a decimal literal goes on after its integer digits: a fraction
    point, or an exponent mark that a digit (or a sign and a digit) follows. *)
Definition continues_literal (rest : string) : bool :=
  match rest with
  | String "."%char _ => true
  | String c r =>
      if Ascii.eqb c "e"%char || Ascii.eqb c "E"%char then
        starts_with_digit r || starts_with_digit (snd (read_sign r)) && negb (String.eqb (snd (read_sign r)) r)
      else false
  | EmptyString => false
  end.

(** [parseFloat(s)]: exact on a plain integer literal; any other decimal
    literal (a fraction, an exponent, [Infinity]) stays symbolic, see
    [NFloatOf]; [NaN] when no literal starts the text. *)
Definition parseFloat (s : string) : number :=
  let t := skip_spaces s in
  let (neg, r) := read_sign t in
  let (ds, rest) := span_digits r in
  match ds with
  | EmptyString =>
      match rest with
      | String "."%char r' => if starts_with_digit r' then NFloatOf t else NNaN
      | _ => if starts_with "Infinity" rest then NFloatOf t else NNaN
      end
  | _ =>
      if continues_literal rest then NFloatOf t
      else let n := digits_value 0 ds in NInt (if neg then (- n)%Z else n)
  end.

(** Decimal digits of a non-negative integer, most significant first; the
    fuel bounds the number of digits. *)
Fixpoint digits_of (fuel : nat) (n : Z) (acc : string) : string :=
  match fuel with
  | O => acc
  | S f =>
      let acc' := String (digit_char (n mod 10)) acc in
      if (n <? 10)%Z then acc' else digits_of f (n / 10) acc'
  end.

Definition Z_to_string (z : Z) : string :=
  if (z <? 0)%Z then String "-"%char (digits_of (S (Z.to_nat (Z.log2 (- z)))) (- z) EmptyString)
  else digits_of (S (Z.to_nat (Z.log2 z))) z EmptyString.

(** [String(n)] for a number.  An integer below 10^21 in magnitude prints
    in plain decimal; [Number.MAX_VALUE] prints in exponent notation.  (The
    runtime switches to exponent notation from 10^21 on; such integers are
    printed in plain decimal here and are kept out of the statements.) *)
Definition number_to_string (n : number) : string :=
  match n with
  | NInt z => Z_to_string z
  | NMaxValue => "1.7976931348623157e+308"
  | NNaN => "NaN"
  | NFloatOf s => s
  end.

(** [String(v)], as [parseInt] and property keys apply it.  An array joins
    its elements with commas, [undefined] and [null] elements printing as
    nothing. *)
Fixpoint to_string (v : value) : string :=
  match v with
  | VUndef => "undefined"
  | VNull => "null"
  | VBool true => "true"
  | VBool false => "false"
  | VNum n => number_to_string n
  | VStr s => s
  | VBuf _ s => s
  | VArr xs =>
      (fix join (l : list value) : string :=
         match l with
         | [] => EmptyString
         | [x] => match x with VUndef | VNull => EmptyString | _ => to_string x end
         | x :: l' =>
             (match x with VUndef | VNull => EmptyString | _ => to_string x end) ++ "," ++ join l'
         end) xs
  | VObj _ => "[object Object]"
  end.

(** [parseInt(v, 10)] *)
Definition parseInt (v : value) : number := parseInt_string (to_string v).

(** [a > 1] for a number: false on [NaN]. *)
Definition greater_than (n : number) (k : Z) : bool :=
  match n with
  | NInt z => (k <? z)%Z
  | NMaxValue => true
  | NNaN => false
  | NFloatOf _ => false
  end.

Notation "' pat <- r ;; k" :=
  (bind r (fun x => match x with pat => k end))
  (at level 61, pat pattern, r at next level, right associativity) : js_scope.

(** ** Value coercion: [_convertFromXsdType] *)

Definition float_types : list string := ["decimal"; "double"; "float"].

Definition integer_types : list string :=
  ["byte"; "int"; "integer"; "long"; "negativeInteger"; "nonNegativeInteger";
   "nonPositiveInteger"; "short"; "unsignedByte"; "unsignedInt";
   "unsignedLong"; "unsignedShort"].

(** The chain of comparisons that ends the function, for a type that went
    through the array and nullable steps. *)
Definition convert_dispatch (type : value) (text : string) : value :=
  if strict_eq_str type "boolean" then VBool (String.eqb text "true")
  else if in_strings type float_types then VNum (parseFloat text)
  else if in_strings type integer_types then VNum (parseInt_string text)
  else if strict_eq_str type "base64Binary" then VBuf Base64 text
  else if strict_eq_str type "hexBinary" then VBuf Hex text
  else VStr text.

(** [_convertFromXsdType(type, value)].  An array type stands for its first
    element; a trailing [?] marks a nullable type; [type.endsWith] is a call
    on whatever truthy value [type] is, so it raises on anything but a
    string. *)
Definition _convertFromXsdType (type : value) (text : string) : result value :=
  let type := match type with VArr xs => nth 0 xs VUndef | _ => type end in
  if truthy type then
    match type with
    | VStr t =>
        if ends_with "?" t then
          if all_whitespace text then Return VNull
          else Return (convert_dispatch (VStr (drop_last t)) text)
        else Return (convert_dispatch type text)
    | _ => Throw (TypeError "type.endsWith is not a function")
    end
  else Return (convert_dispatch type text).

(** ** The kind table: [_xsdTypeLookup] *)

Definition string_kinds : list string :=
  ["base64Binary"; "hexBinary"; "anyURI"; "language"; "normalizedString";
   "string"; "token"].

Definition number_kinds : list string :=
  ["byte"; "decimal"; "double"; "float"; "int"; "integer"; "long";
   "negativeInteger"; "nonNegativeInteger"; "nonPositiveInteger"; "short";
   "unsignedByte"; "unsignedInt"; "unsignedLong"; "unsignedShort"].

Definition _xsdTypeLookup (type : value) : result string :=
  if strict_eq_str type "boolean" then Return "boolean"
  else if in_strings type string_kinds then Return "string"
  else if in_strings type number_kinds then Return "number"
  else if strict_eq_str type "empty" then Return "empty"
  else if strict_eq_str type "any" then Return "any"
  else Throw (Error ("Unknown XSD type '" ++ to_string type ++ "'")).

(** The type names of the table. *)
Definition known_types : list string :=
  "boolean" :: string_kinds ++ number_kinds ++ ["empty"; "any"].

(** ** Sample generation: [_generateXsdTypeSample], [_generateSample] *)

Fixpoint spaces (n : nat) : string :=
  match n with O => EmptyString | S m => String " "%char (spaces m) end.

(** [ToNumber] on what a Definition holds as a length or a count: numbers,
    [undefined], [null], booleans and strings of decimal digits.  Any other
    value is taken as [NaN]. *)
Definition to_number (v : value) : number :=
  match v with
  | VNum n => n
  | VNull => NInt 0
  | VBool b => NInt (if b then 1 else 0)
  | VStr s =>
      if all_whitespace s then NInt 0
      else if string_forall is_digit s then NInt (digits_value 0 s)
      else NNaN
  | _ => NNaN
  end.

(** [' '.repeat(length)] *)
Definition repeat_space (length : value) : result value :=
  match to_number length with
  | NInt z =>
      if (z <? 0)%Z then Throw (Error "RangeError: Invalid count value")
      else Return (VStr (spaces (Z.to_nat z)))
  | NNaN => Return (VStr EmptyString)
  | _ => Throw (Error "RangeError: Invalid count value")
  end.

Definition blank_types : list string :=
  ["base64Binary"; "hexBinary"; "normalizedString"; "string"; "token"].

Definition zero_types : list string :=
  ["byte"; "decimal"; "double"; "float"; "int"; "integer"; "long"; "short";
   "unsignedByte"; "unsignedInt"; "unsignedLong"; "unsignedShort"].

Definition _generateXsdTypeSample (type : value) (length : value) : result value :=
  if strict_eq_str type "boolean" then Return (VBool true)
  else if in_strings type blank_types then repeat_space length
  else if strict_eq_str type "anyURI" then Return (VStr "http://sample.com")
  else if strict_eq_str type "language" then Return (VStr "en")
  else if in_strings type zero_types then Return (VNum (NInt 0))
  else if strict_eq_str type "negativeInteger" then Return (VNum (NInt (-1)))
  else if strict_eq_str type "nonNegativeInteger" then Return (VNum (NInt 1))
  else if strict_eq_str type "nonPositiveInteger" then Return (VNum (NInt (-1)))
  else if strict_eq_str type "empty" then Return (VStr EmptyString)
  else if strict_eq_str type "any" then Return (VObj [])
  else Throw (Error ("Unknown XSD type '" ++ to_string type ++ "'")).

(** [v[i]] for an index [i]. *)
Definition index (v : value) (i : nat) : value :=
  match v with
  | VArr xs => nth i xs VUndef
  | VStr s => match String.get i s with Some c => VStr (String c EmptyString) | None => VUndef end
  | VObj o => get o (Z_to_string (Z.of_nat i))
  | _ => VUndef
  end.

(** [new Array(n).fill(v)]: a number is a length (and must be one), any
    other argument is the only element of the new array. *)
Definition new_array_fill (n : value) (v : value) : result value :=
  match n with
  | VNum (NInt z) =>
      if ((0 <=? z) && (z <? 4294967296))%Z then Return (VArr (repeat v (Z.to_nat z)))
      else Throw (Error "RangeError: Invalid array length")
  | VNum _ => Throw (Error "RangeError: Invalid array length")
  | _ => Return (VArr [v])
  end.

(** [key.replace(/\$type$/, '')] for a key that ends with [$type]. *)
Definition strip_type_suffix (key : string) : string :=
  String.substring 0 (String.length key - 5) key.

(** The callback of [_generateSample] at a key that ends with [$type]. *)
Definition sample_typed (definition : value) (key : string) (result0 : obj) : result obj :=
  let keyName := strip_type_suffix key in
  let length := or_else (get_prop definition (keyName ++ "$length"))
                        (VArr [VNum (NInt 1); VNum (NInt 1)]) in
  let t := get_prop definition key in
  if isArray t then
    value <- _generateXsdTypeSample (index t 0) (index length 1) ;;
    arr <- new_array_fill (index t 2) value ;;
    Return (set_prop keyName arr result0)
  else
    value <- _generateXsdTypeSample t (index length 1) ;;
    Return (set_prop keyName value result0).

Definition no_dollar (key : string) : bool :=
  match index_of_char dollar key with None => true | Some _ => false end.

(** [_generateSample(definition)].  [Object.keys] raises on [undefined] and
    [null]; an object gives its keys, an array its indices; a string gives
    its indices too, none of which the callback acts on, and a number or a
    boolean has no keys. *)
Fixpoint _generateSample (definition : value) : result value :=
  match definition with
  | VUndef | VNull => Throw (TypeError "Cannot convert undefined or null to object")
  | VObj kvs =>
      (fix each (l : list (string * value)) (result0 : obj) : result value :=
         match l with
         | [] => Return (VObj result0)
         | (key, v) :: l' =>
             if ends_with "$type" key then
               r <- sample_typed definition key result0 ;; each l' r
             else if no_dollar key && typeof_object v then
               r <- _generateSample v ;; each l' (set_prop key r result0)
             else each l' result0
         end) kvs []
  | VArr xs =>
      (fix each (i : nat) (l : list value) (result0 : obj) : result value :=
         match l with
         | [] => Return (VObj result0)
         | v :: l' =>
             if typeof_object v then
               r <- _generateSample v ;;
               each (S i) l' (set_prop (Z_to_string (Z.of_nat i)) r result0)
             else each (S i) l' result0
         end) O xs []
  | _ => Return (VObj [])
  end.

(** [generateSample(rootName, definition)] *)
Definition generateSample (rootName : string) (definition : value) : result value :=
  sub <- read definition rootName ;;
  r <- _generateSample sub ;;
  Return (VObj [(rootName, r)]).

(** ** Definition inference from a sample object: [_generateDefinitionXml] *)

Definition is_hex_digit (c : ascii) : bool :=
  let n := nat_of_ascii c in
  is_digit c || ((65 <=? n)%nat && (n <=? 70)%nat) || ((97 <=? n)%nat && (n <=? 102)%nat).

Definition is_base64_char (c : ascii) : bool :=
  let n := nat_of_ascii c in
  is_digit c || ((65 <=? n)%nat && (n <=? 90)%nat) || ((97 <=? n)%nat && (n <=? 122)%nat)
  || (n =? 43)%nat || (n =? 47)%nat.

(** [/^\d+$/] *)
Definition all_digits (s : string) : bool :=
  negb (String.eqb s EmptyString) && string_forall is_digit s.

(** [/^\d+\.\d+$/] *)
Definition digits_dot_digits (s : string) : bool :=
  let (a, r) := span_digits s in
  match r with
  | String "."%char b => negb (String.eqb a EmptyString) && all_digits b
  | _ => false
  end.

(** [/^[0-9A-Fa-f]{8,}$/] *)
Definition looks_hex (s : string) : bool :=
  (8 <=? String.length s)%nat && string_forall is_hex_digit s.

(** The last group of the base64 pattern: four characters, of which the
    last or the last two may be [=]. *)
Definition base64_tail (s : string) : bool :=
  match s with
  | String a (String b (String c (String d EmptyString))) =>
      is_base64_char a && is_base64_char b &&
      ((is_base64_char c && is_base64_char d)
       || (is_base64_char c && Ascii.eqb d "="%char)
       || (Ascii.eqb c "="%char && Ascii.eqb d "="%char))
  | _ => false
  end.

(** [/^([A-Za-z0-9+/]{4})*([A-Za-z0-9+/]{4}|[A-Za-z0-9+/]{3}=|[A-Za-z0-9+/]{2}==)$/] *)
Definition looks_base64 (s : string) : bool :=
  let n := String.length s in
  (4 <=? n)%nat && (n mod 4 =? 0)%nat
  && string_forall is_base64_char (String.substring 0 (n - 4) s)
  && base64_tail (String.substring (n - 4) 4 s).

(** The type guessed for a non-empty string leaf. *)
Definition guess_type (guessBase64Binary : bool) (value : string) : string :=
  if String.eqb value "true" || String.eqb value "false" then "boolean"
  else if all_digits value then "int"
  else if digits_dot_digits value then "float"
  else if guessBase64Binary && looks_hex value then "hexBinary"
  else if guessBase64Binary && looks_base64 value then "base64Binary"
  else "string".

(** The callback of [_generateDefinitionXml] at one key, whose value is [v].
    It takes the definition built so far and gives it back extended, with
    what becomes of the property in the object inferred from: [None] when
    [delete obj[key]] removed it, [Some v'] when it stays, [v'] being its
    value after the nested calls mutated it in place.

    The source calls itself on the one-key wrapper [{[key]: obj[key][0]}] for
    an array; that call is this callback at the wrapper's only key, started
    from an empty definition.  A deletion there removes the wrapper's
    property, not the array's element. *)
Fixpoint infer_key (guessBase64Binary : bool) (key : string) (v : value)
    (definition : obj) {struct v} : result (obj * option value) :=
  match index_of_char dollar key with
  | Some (S _) => Return (set_prop key v definition, Some v)
  | _ =>
      match v with
      | VArr xs =>
          let definition := set_prop (key ++ "$type") (VArr []) definition in
          match xs with
          | [] => Return (definition, Some v)
          | e0 :: rest =>
              ' (subDefinition, e0') <- infer_key guessBase64Binary key e0 [] ;;
              let xs' := match e0' with Some e => e :: rest | None => xs end in
              let definition :=
                if truthy (get subDefinition (key ++ "$type")) then
                  set_prop (key ++ "$type") (VArr [get subDefinition (key ++ "$type")]) definition
                else if truthy (get subDefinition key) then
                  set_prop key (get subDefinition key) definition
                else definition in
              Return (definition, Some (VArr xs'))
          end
      | VObj kvs =>
          ' (sub, kvs') <-
            (fix each (l : list (string * value)) (d : obj) : result (obj * obj) :=
               match l with
               | [] => Return (d, [])
               | (k, x) :: l' =>
                   ' (d', x') <- infer_key guessBase64Binary k x d ;;
                   ' (d'', l'') <- each l' d' ;;
                   Return (d'', match x' with Some y => (k, y) :: l'' | None => l'' end)
               end) kvs [] ;;
          Return (set_prop key (VObj sub) definition, Some (VObj kvs'))
      | VNull => Throw (TypeError "Cannot convert undefined or null to object")
      | VBuf _ s =>
          if String.eqb s EmptyString then Return (set_prop key (VObj []) definition, Some v)
          else Throw (TypeError "value.match is not a function")
      | VUndef => Return (definition, None)
      | VStr s =>
          if String.eqb s EmptyString then Return (definition, None)
          else Return (set_prop (key ++ "$type") (VStr (guess_type guessBase64Binary s)) definition, None)
      | VBool _ | VNum _ => Throw (TypeError "value.match is not a function")
      end
  end.

(** The [forEach] over the keys of an object: the definition, and the
    properties that are left. *)
Fixpoint infer_keys (guessBase64Binary : bool) (l : obj) (d : obj) : result (obj * obj) :=
  match l with
  | [] => Return (d, [])
  | (k, x) :: l' =>
      ' (d', x') <- infer_key guessBase64Binary k x d ;;
      ' (d'', l'') <- infer_keys guessBase64Binary l' d' ;;
      Return (d'', match x' with Some y => (k, y) :: l'' | None => l'' end)
  end.

(** The same over the indices of an array; a deleted element leaves a hole,
    which reads as [undefined]. *)
Fixpoint infer_indices (guessBase64Binary : bool) (i : nat) (l : list value) (d : obj)
    : result (obj * list value) :=
  match l with
  | [] => Return (d, [])
  | x :: l' =>
      ' (d', x') <- infer_key guessBase64Binary (Z_to_string (Z.of_nat i)) x d ;;
      ' (d'', l'') <- infer_indices guessBase64Binary (S i) l' d' ;;
      Return (d'', match x' with Some y => y | None => VUndef end :: l'')
  end.

(** [_generateDefinitionXml(obj, options)]: the definition, and [obj] as the
    call leaves it.  A string has its characters as properties, and deleting
    one raises in strict mode. *)
Definition _generateDefinitionXml (o : value) (guessBase64Binary : bool)
    : result (value * value) :=
  match o with
  | VObj kvs =>
      ' (d, kvs') <- infer_keys guessBase64Binary kvs [] ;;
      Return (VObj d, VObj kvs')
  | VArr xs =>
      ' (d, xs') <- infer_indices guessBase64Binary O xs [] ;;
      Return (VObj d, VArr xs')
  | VUndef | VNull => Throw (TypeError "Cannot convert undefined or null to object")
  | VStr s =>
      if String.eqb s EmptyString then Return (VObj [], o)
      else Throw (TypeError "Cannot delete property of a string")
  | VBuf _ s =>
      if String.eqb s EmptyString then Return (VObj [], o)
      else Throw (TypeError "value.match is not a function")
  | VBool _ | VNum _ => Return (VObj [], o)
  end.

(** ** Comparisons *)

Definition number_eqb (a b : number) : bool :=
  match a, b with
  | NInt x, NInt y => Z.eqb x y
  | NMaxValue, NMaxValue => true
  | NFloatOf s, NFloatOf t => String.eqb s t
  | _, _ => false
  end.

(** [a === b].  Two objects are strictly equal when they are the same
    object; the values compared below come from different places (a
    Definition and the parser's own arrays), so an object, an array or a
    buffer is equal to nothing. *)
Definition strict_eq (a b : value) : bool :=
  match a, b with
  | VUndef, VUndef => true
  | VNull, VNull => true
  | VBool x, VBool y => Bool.eqb x y
  | VNum x, VNum y => number_eqb x y
  | VStr s, VStr t => String.eqb s t
  | _, _ => false
  end.

Definition is_nullish (v : value) : bool :=
  match v with VUndef | VNull => true | _ => false end.

Definition is_primitive (v : value) : bool :=
  match v with VArr _ | VObj _ | VBuf _ _ => false | _ => true end.

(** [a == b]: [undefined] and [null] equal each other and nothing else;
    values of one type compare strictly; a string, a number and a boolean
    compare as numbers (through [to_number]); an object against a primitive
    compares through its text. *)
Definition loose_eq (a b : value) : bool :=
  if is_nullish a || is_nullish b then is_nullish a && is_nullish b
  else match a, b with
       | VStr s, VStr t => String.eqb s t
       | VNum x, VNum y => number_eqb x y
       | VBool x, VBool y => Bool.eqb x y
       | _, _ =>
           if is_primitive a && is_primitive b then number_eqb (to_number a) (to_number b)
           else if is_primitive a then
             match a with
             | VStr s => String.eqb s (to_string b)
             | _ => number_eqb (to_number a) (to_number (VStr (to_string b)))
             end
           else if is_primitive b then
             match b with
             | VStr s => String.eqb (to_string a) s
             | _ => number_eqb (to_number (VStr (to_string a))) (to_number b)
             end
           else false
       end.

(** The number of iterations of [for (i = 0; i < v; i++)]. *)
Definition loop_bound (v : value) : nat :=
  match to_number v with
  | NInt z => Z.to_nat z
  | _ => O
  end.

(** [_compareArray(array1, array2)] *)
Definition _compareArray (array1 array2 : value) : bool :=
  if negb (truthy array1) || negb (truthy array2) then false
  else if negb (loose_eq (get_prop array1 "length") (get_prop array2 "length")) then false
  else forallb (fun i => strict_eq (index array1 i) (index array2 i))
               (seq 0 (loop_bound (get_prop array1 "length"))).

(** ** The parser: [_fromXml] *)

(** A document as the tokenizer delivers it: a tree of elements and text
    chunks, attributes in document order.  The tokenizer rejects anything
    that is not well formed, so the events the callbacks see are the events
    of such a tree. *)
Inductive node : Type :=
| Text (data : string)
| Element (name : string) (attributes : list (string * string)) (children : list node).

Inductive event : Type :=
| StartElement (name : string) (attributes : list (string * string))
| TextData (data : string)
| EndElement (name : string).

Fixpoint events_of (n : node) : list event :=
  match n with
  | Text data => [TextData data]
  | Element name attributes children =>
      StartElement name attributes
        :: (fix all (l : list node) : list event :=
              match l with
              | [] => [EndElement name]
              | c :: l' => (events_of c ++ all l')%list
              end) children
  end.

(** The variables that the three callbacks of [_fromXml] share.  The arrays
    used as stacks ([definitions], [objects], [names], [orders]) are lists
    whose head is the top, that is, the last element of the array.

    [objects] holds the enclosing objects.  The source stores the object of
    an element in its parent when the element starts and goes on filling it
    through the alias [currentObject]; here the parent keeps the object as it
    was stored, and [endElement] puts the filled object in its place
    ([write_back]) when the parent becomes current again, before anything
    reads it. *)
Record state : Type := mkState {
  definitions : list value;
  currentValue : string;
  currentObject : obj;
  currentType : value;
  objects : list obj;
  names : list string;
  orders : list (list string);
  namespaces : obj;
  definitionNamespaces : obj;
  definitionNamespaceUrls : obj
}.

(** [name.split(':')], then the local name and the alias: the second and
    the first piece when there is more than one piece. *)
Definition split_name (name : string) : string * option string :=
  match split_at colon name with
  | alias :: local :: _ => (local, Some alias)
  | _ => (name, None)
  end.

(** The property key that a value used as a key stands for. *)
Definition key_of_alias (nsAlias : option string) : string :=
  match nsAlias with Some a => a | None => "undefined" end.

(** [Object.keys(v)] for a value that is not [undefined] or [null]. *)
Definition own_keys (v : value) : list string :=
  match v with
  | VObj o => keys o
  | VArr xs => map (fun i => Z_to_string (Z.of_nat i)) (seq 0 (List.length xs))
  | VStr s => map (fun i => Z_to_string (Z.of_nat i)) (seq 0 (String.length s))
  | _ => []
  end.

(** The first loop of [startElement]: namespaces declared on the wire. *)
Fixpoint extract_namespaces (attributes : list (string * string)) (namespaces : obj) : obj :=
  match attributes with
  | [] => namespaces
  | (key, v) :: rest =>
      match match_xmlns key with
      | Some alias => extract_namespaces rest (set_prop alias (VStr v) namespaces)
      | None => extract_namespaces rest namespaces
      end
  end.

(** The second loop: namespaces declared by the definition's attributes,
    in both directions: ([definitionNamespaces], [definitionNamespaceUrls]). *)
Fixpoint extract_definition_namespaces (definitionAttributes : value) (ks : list string)
    (maps : obj * obj) : obj * obj :=
  match ks with
  | [] => maps
  | key :: rest =>
      match match_xmlns key with
      | Some alias =>
          let url := get_prop definitionAttributes key in
          extract_definition_namespaces definitionAttributes rest
            (set_prop alias url (fst maps), set_prop (to_string url) (VStr alias) (snd maps))
      | None => extract_definition_namespaces definitionAttributes rest maps
      end
  end.

(** [definitionValue] of the attribute filter: the value an attribute is
    compared with. *)
Definition definition_value (definitionAttributes : value)
    (namespaces definitionNamespaceUrls : obj) (key text : string) : value :=
  match split_at colon key with
  | p0 :: p1 :: _ =>
      if String.eqb p0 "xmlns" then
        if truthy (get definitionNamespaceUrls text) then VStr text else VStr EmptyString
      else
        let nsUrl := get namespaces p0 in
        let definitionNsAlias := get definitionNamespaceUrls (to_string nsUrl) in
        if truthy definitionNsAlias then
          get_prop definitionAttributes (to_string definitionNsAlias ++ ":" ++ p1)
        else VStr EmptyString
  | _ => get_prop definitionAttributes key
  end.

(** The third loop: attributes that equal the definition's value are
    deleted, the others are converted when the definition types them. *)
Fixpoint filter_attributes (definitionAttributes : value)
    (namespaces definitionNamespaceUrls : obj)
    (attributes : list (string * string)) : result obj :=
  match attributes with
  | [] => Return []
  | (key, text) :: rest =>
      let definitionValue :=
        definition_value definitionAttributes namespaces definitionNamespaceUrls key text in
      if strict_eq (VStr text) definitionValue then
        filter_attributes definitionAttributes namespaces definitionNamespaceUrls rest
      else
        let attributeType := get_prop definitionAttributes (key ++ "$type") in
        v <- (if truthy attributeType then _convertFromXsdType attributeType text
              else Return (VStr text)) ;;
        kept <- filter_attributes definitionAttributes namespaces definitionNamespaceUrls rest ;;
        Return ((key, v) :: kept)
  end.

(** [nextObject['$' + key] = attributes[key]] for every attribute left. *)
Fixpoint inline_attributes (attributes : obj) (nextObject : obj) : obj :=
  match attributes with
  | [] => nextObject
  | (key, v) :: rest => inline_attributes rest (set_prop ("$" ++ key) v nextObject)
  end.

(** [array.push(v)] on a property that holds an array, the two-element
    array when it holds something else, and for a new property the
    one-element array or the value itself, as the declared type says. *)
Definition attach (currentObject : obj) (key : string) (currentType : value) (v : value) : obj :=
  if hasOwnProperty currentObject key then
    match get currentObject key with
    | VArr xs => set_prop key (VArr (xs ++ [v])%list) currentObject
    | old => set_prop key (VArr [old; v]) currentObject
    end
  else if isArray currentType then set_prop key (VArr [v]) currentObject
  else set_prop key v currentObject.

(** [orders[i].push(name)] for the array index [i], in a stack held head
    first. *)
Fixpoint push_at (i : nat) (name : string) (ordersFromBottom : list (list string))
    : list (list string) :=
  match ordersFromBottom, i with
  | [], _ => []
  | o :: rest, O => (o ++ [name])%list :: rest
  | o :: rest, S j => o :: push_at j name rest
  end.

Definition save_order (orders : list (list string)) (names : list string)
    (currentObject : obj) (name : string) : list (list string) :=
  if (List.length orders <=? List.length names)%nat then [name] :: orders
  else if negb (isArray (get currentObject name)) then
    rev (push_at (List.length names) name (rev orders))
  else orders.

Definition top (definitions : list value) : value :=
  match definitions with d :: _ => d | [] => VUndef end.

Section Callbacks.

Variable inlineAttributes convertTypes : bool.

(** [nsAlias && nsUrl != definitionNsUrl]: the element is in a namespace
    that is not the one the definition expects for it. *)
Definition foreign_namespace (nsAlias : option string) (nsUrl definitionNsUrl : value) : bool :=
  match nsAlias with
  | Some alias => negb (String.eqb alias EmptyString) && negb (loose_eq nsUrl definitionNsUrl)
  | None => false
  end.

(** [nextObject] when [startElement] is done with it: empty, with the
    namespace marker and the attributes that are left when they are kept
    inline. *)
Definition next_object (nsAlias : option string) (foreign : bool) (attributes : obj) : obj :=
  let nextObject :=
    if foreign && inlineAttributes then [("namespace$", VStr (key_of_alias nsAlias))]
    else [] in
  match attributes with
  | [] => nextObject
  | _ => if inlineAttributes then inline_attributes attributes nextObject else nextObject
  end.

(** The enclosing object when [startElement] is done with it: the namespace
    marker and the attributes when they are not kept inline ("Handle
    attributes"), then the new object under its name ("Handle tag"). *)
Definition enclosing_object (currentObject : obj) (name : string) (nsAlias : option string)
    (foreign : bool) (currentType : value) (attributes : obj) (nextObject : obj) : obj :=
  let currentObject :=
    if foreign && negb inlineAttributes
    then set_prop (name ++ "$namespace") (VStr (key_of_alias nsAlias)) currentObject
    else currentObject in
  let currentObject :=
    match attributes with
    | [] => currentObject
    | _ => if inlineAttributes then currentObject
           else attach currentObject (name ++ "$attributes") currentType (VObj attributes)
    end in
  attach currentObject name currentType (VObj nextObject).

(** [parser.on('startElement', ...)] *)
Definition startElement (name : string) (attributes : list (string * string))
    (s : state) : result state :=
  let (name, nsAlias) := split_name name in
  let definition := top (definitions s) in
  a <- read definition (name ++ "$attributes") ;;
  let definitionAttributes := or_else a (VObj []) in
  currentType <- read definition (name ++ "$type") ;;
  let namespaces := extract_namespaces attributes (namespaces s) in
  let definitionMaps :=
    extract_definition_namespaces definitionAttributes (own_keys definitionAttributes)
      (definitionNamespaces s, definitionNamespaceUrls s) in
  let nsUrl := get namespaces (key_of_alias nsAlias) in
  let definitionNsUrl :=
    get (fst definitionMaps) (to_string (get_prop definition (name ++ "$namespace"))) in
  let foreign := foreign_namespace nsAlias nsUrl definitionNsUrl in
  attributes <- filter_attributes definitionAttributes namespaces (snd definitionMaps) attributes ;;
  let nextObject := next_object nsAlias foreign attributes in
  let currentObject :=
    enclosing_object (currentObject s) name nsAlias foreign currentType attributes nextObject in
  Return {|
    definitions := or_else (get_prop definition name) (VObj []) :: definitions s;
    currentValue := EmptyString;
    currentObject := nextObject;
    currentType := currentType;
    objects := currentObject :: objects s;
    names := name :: names s;
    orders := save_order (orders s) (names s) currentObject name;
    namespaces := namespaces;
    definitionNamespaces := fst definitionMaps;
    definitionNamespaceUrls := snd definitionMaps
  |}.

(** [parser.on('text', ...)] *)
Definition text (data : string) (s : state) : state :=
  {|
    definitions := definitions s;
    currentValue := currentValue s ++ data;
    currentObject := currentObject s;
    currentType := currentType s;
    objects := objects s;
    names := names s;
    orders := orders s;
    namespaces := namespaces s;
    definitionNamespaces := definitionNamespaces s;
    definitionNamespaceUrls := definitionNamespaceUrls s
  |}.

(** The alias made explicit: the object of the element that ends is put
    where [startElement] stored it in [parent], as the last element of the
    array or as the property itself. *)
Definition write_back (parent : obj) (name : string) (child : obj) : obj :=
  match lookup name parent with
  | Some (VArr xs) =>
      match xs with
      | [] => parent
      | _ => set_prop name (VArr (removelast xs ++ [VObj child])%list) parent
      end
  | Some _ => set_prop name (VObj child) parent
  | None => parent
  end.

(** [Object.getOwnPropertyNames(v).length]: a string and an array own their
    indices and [length]. *)
Definition own_property_count (v : value) : result nat :=
  match v with
  | VUndef | VNull => Throw (TypeError "Cannot convert undefined or null to object")
  | VObj o => Return (List.length o)
  | VStr s => Return (S (String.length s))
  | VArr xs => Return (S (List.length xs))
  | VBuf _ s => Return (String.length s)
  | VBool _ | VNum _ => Return O
  end.

(** [v.$ = text]: a new property of an object; strict mode refuses it on a
    primitive.  (After [write_back] the receiver is the object of the
    element that ends; an array or a buffer does not come up.) *)
Definition assign_text (v : value) (converted : value) : result value :=
  match v with
  | VObj o => Return (VObj (set_prop "$" converted o))
  | _ => Throw (TypeError "Cannot create property '$'")
  end.

Definition converted_value (type : value) (text : string) : result value :=
  if convertTypes then _convertFromXsdType type text else Return (VStr text).

(** The end of [endElement]: the value of the element that ends. *)
Definition assign_value (currentObject : obj) (name : string) (type : value)
    (text : string) : result obj :=
  match get currentObject name with
  | VArr xs =>
      convertedValue <- converted_value type text ;;
      n <- own_property_count (last xs VUndef) ;;
      match n with
      | O => Return (set_prop name (VArr (removelast xs ++ [convertedValue])%list) currentObject)
      | S _ =>
          l <- assign_text (last xs VUndef) convertedValue ;;
          Return (set_prop name (VArr (removelast xs ++ [l])%list) currentObject)
      end
  | v =>
      if typeof_object v then
        n <- own_property_count v ;;
        match n with
        | O =>
            convertedValue <- converted_value type text ;;
            Return (set_prop name convertedValue currentObject)
        | S _ =>
            if negb (all_whitespace text) then
              convertedValue <- converted_value type text ;;
              v' <- assign_text v convertedValue ;;
              Return (set_prop name v' currentObject)
            else Return currentObject
        end
      else Return currentObject
  end.

(** The observed order of the children, attached when it has more than one
    entry and is not the declared one. *)
Definition attach_order (definitions : list value) (currentObject : obj) (name : string)
    (order : list string) : result obj :=
  if (1 <? List.length order)%nat then
    definedOrder <- read (top definitions) (name ++ "$order") ;;
    if negb (_compareArray definedOrder (VArr (map VStr order)))
    then Return (set_prop (name ++ "$order") (VArr (map VStr order)) currentObject)
    else Return currentObject
  else Return currentObject.

(** [parser.on('endElement', ...)] *)
Definition endElement (name : string) (s : state) : result state :=
  let name := fst (split_name name) in
  match objects s with
  | parent :: objects' =>
      let currentObject := write_back parent name (currentObject s) in
      let definitions := tl (definitions s) in
      ' (orders, currentObject) <-
        (if (List.length (names s) <? List.length (orders s))%nat then
           match orders s with
           | order :: orders' =>
               o <- attach_order definitions currentObject name order ;;
               Return (orders', o)
           | [] => Return ([], currentObject)
           end
         else Return (orders s, currentObject)) ;;
      currentObject <- assign_value currentObject name (currentType s) (currentValue s) ;;
      Return {|
        definitions := definitions;
        currentValue := EmptyString;
        currentObject := currentObject;
        currentType := currentType s;
        objects := objects';
        names := tl (names s);
        orders := orders;
        namespaces := namespaces s;
        definitionNamespaces := definitionNamespaces s;
        definitionNamespaceUrls := definitionNamespaceUrls s
      |}
  | [] =>
      Return {|
        definitions := definitions s;
        currentValue := EmptyString;
        currentObject := currentObject s;
        currentType := currentType s;
        objects := objects s;
        names := names s;
        orders := orders s;
        namespaces := namespaces s;
        definitionNamespaces := definitionNamespaces s;
        definitionNamespaceUrls := definitionNamespaceUrls s
      |}
  end.

Definition step (e : event) (s : state) : result state :=
  match e with
  | StartElement name attributes => startElement name attributes s
  | TextData data => Return (text data s)
  | EndElement name => endElement name s
  end.

(** [parser.parse(xml)]: the callbacks in document order. *)
Fixpoint run (es : list event) (s : state) : result state :=
  match es with
  | [] => Return s
  | e :: es' => s' <- step e s ;; run es' s'
  end.

End Callbacks.

Definition initial_state (objectDefinition : value) : state :=
  {|
    definitions := [or_else objectDefinition (VObj [])];
    currentValue := EmptyString;
    currentObject := [];
    currentType := VStr EmptyString;
    objects := [];
    names := [];
    orders := [];
    namespaces := [];
    definitionNamespaces := [];
    definitionNamespaceUrls := []
  |}.

(** [_fromXml(xml, objectDefinition, inlineAttributes, convertTypes)] on a
    document, given by its root element.  [result] is the object that is
    current when the root has ended. *)
Definition _fromXml (xml : node) (objectDefinition : value)
    (inlineAttributes convertTypes : bool) : result value :=
  match xml with
  | Text _ => Throw (Error "There are errors in your xml file: ")
  | Element _ _ _ =>
      s <- run inlineAttributes convertTypes (events_of xml) (initial_state objectDefinition) ;;
      Return (VObj (currentObject s))
  end.

(** [fromXml(xml, definition, options)], the options merged with their
    defaults. *)
Definition fromXml (xml : node) (definition : value)
    (inlineAttributes convertTypes : bool) : result value :=
  _fromXml xml (match definition with VUndef => VObj [] | d => d end)
    inlineAttributes convertTypes.

(** ** The XSD compiler: [_generateDefinitionXsd], [_elementToDefinition] *)

Definition XMLSchema : string := "http://www.w3.org/2001/XMLSchema".

(** [key.match(/^\$(xmlns:.+)$/)] *)
Definition match_dollar_xmlns (key : string) : option string :=
  match key with
  | String "$"%char rest =>
      match match_xmlns rest with Some _ => Some rest | None => None end
  | _ => None
  end.

(** [_extractAndAddNamespaces(element, originalNamespaces)] *)
Definition _extractAndAddNamespaces (element : value) (originalNamespaces : obj)
    : result obj :=
  match element with
  | VUndef | VNull => Throw (TypeError "Cannot convert undefined or null to object")
  | _ =>
      Return (fold_left
                (fun namespaces key =>
                   match match_dollar_xmlns key with
                   | Some k => set_prop k (get_prop element key) namespaces
                   | None => namespaces
                   end)
                (own_keys element) originalNamespaces)
  end.

(** [_namespaceLookup(name, namespaces)]: the local name and the namespace
    URL of a qualified name. *)
Definition _namespaceLookup (name : value) (namespaces : obj) : result (string * value) :=
  match name with
  | VStr n =>
      match split_at colon n with
      | p0 :: p1 :: _ =>
          if hasOwnProperty namespaces ("xmlns:" ++ p0)
          then Return (p1, get namespaces ("xmlns:" ++ p0))
          else Throw (Error ("Could not find namespace alias '" ++ n ++ "'"))
      | _ => Return (n, VStr EmptyString)
      end
  | _ => Throw (TypeError "name.split is not a function")
  end.

(** [s.replace(/^xmlns:/, '')] on the alias found for a namespace;
    [undefined] has no [replace]. *)
Definition strip_xmlns (alias : value) : result value :=
  match alias with
  | VStr a =>
      if starts_with "xmlns:" a then Return (VStr (String.substring 6 (String.length a - 6) a))
      else Return alias
  | _ => Throw (TypeError "Cannot read properties of undefined (reading 'replace')")
  end.

(** The reverse map [namespaceToAlias] that [_elementToDefinition] builds. *)
Definition reverse_namespaces (elementNamespaces : obj) : obj :=
  fold_left (fun m kv => set_prop (to_string (snd kv)) (VStr (fst kv)) m) elementNamespaces [].

Definition is_hex_prefix (s : string) : bool :=
  starts_with "0x" s || starts_with "0X" s.

Definition hex_value (c : ascii) : Z :=
  let n := nat_of_ascii c in
  if is_digit c then Z.of_nat (n - 48)
  else if (97 <=? n)%nat then Z.of_nat (n - 87) else Z.of_nat (n - 55).

Fixpoint span_hex (s : string) : string :=
  match s with
  | String c s' => if is_hex_digit c then String c (span_hex s') else EmptyString
  | EmptyString => EmptyString
  end.

Fixpoint hex_digits_value (acc : Z) (ds : string) : Z :=
  match ds with
  | EmptyString => acc
  | String c ds' => hex_digits_value (16 * acc + hex_value c) ds'
  end.

(** [parseInt(v)] without a radix: a [0x] prefix selects base 16. *)
Definition parseInt_auto (v : value) : number :=
  let (neg, r) := read_sign (skip_spaces (to_string v)) in
  if is_hex_prefix r then
    match span_hex (String.substring 2 (String.length r - 2) r) with
    | EmptyString => NNaN
    | ds => let n := hex_digits_value 0 ds in NInt (if neg then (- n)%Z else n)
    end
  else parseInt_string (to_string v).

(** The length facets of a restriction, as the two places that read them
    parse them: without a radix (and [minLength] parsed on its own) for an
    inline [simpleType], with radix 10 (and [minLength = maxLength]) for a
    referenced one. *)
Definition restriction_lengths (inline : bool) (restriction : value)
    (lengths : number * number) : result (number * number) :=
  let parse := if inline then parseInt_auto else parseInt in
  let len := get_prop restriction "length" in
  if truthy len then
    v <- read len "$value" ;;
    Return (parse v, parse v)
  else
    let maxL := get_prop restriction "maxLength" in
    let minL := get_prop restriction "minLength" in
    maxLength <- (if truthy maxL then v <- read maxL "$value" ;; Return (parse v)
                  else Return (fst lengths)) ;;
    minLength <- (if truthy minL then v <- read minL "$value" ;; Return (parse v)
                  else Return (snd lengths)) ;;
    Return (maxLength, minLength).

(** What the loop over the type references leaves behind: [result],
    [subResult] and the two lengths. *)
Record resolved : Type := mkResolved {
  res_result : obj;
  res_subResult : value;
  res_lengths : number * number
}.

Section TypeReferences.

(** The recursive call of [_elementToDefinition], with every argument but
    the first two fixed. *)
Variable recurse : string -> value -> obj -> result value.
Variable typeLookupMap : obj.
Variable elementNamespaces : obj.
Variable nameKey : string.

(** [for (let i = 0; i <= 3; i++)]: [remaining] is [3 - i], so the loop
    starts at 3 and raises when it reaches 0. *)
Fixpoint resolve_type (remaining : nat) (type : value) (lengths : number * number)
    (result0 : obj) : result resolved :=
  match remaining with
  | O => Throw (Error "Type reference nested more than 3 levels")
  | S remaining' =>
      ' (name, ns) <- _namespaceLookup type elementNamespaces ;;
      if strict_eq_str ns XMLSchema then
        Return (mkResolved (set_prop (nameKey ++ "$type") (VStr name) result0) VUndef lengths)
      else
        let subElement := get typeLookupMap ("#xmlns:" ++ to_string type) in
        let subXsdType := get typeLookupMap ("#xmlns:" ++ to_string type ++ "$xsdType") in
        if truthy subElement then
          if strict_eq_str subXsdType "complexType" || strict_eq_str subXsdType "element" then
            subResult <- recurse (to_string subXsdType) subElement elementNamespaces ;;
            Return (mkResolved result0 subResult lengths)
          else if strict_eq_str subXsdType "simpleType" then
            let restriction := get_prop subElement "restriction" in
            let list := get_prop subElement "list" in
            if truthy restriction then
              lengths' <- restriction_lengths false restriction lengths ;;
              resolve_type remaining' (get_prop restriction "$base") lengths' result0
            else if truthy list then
              resolve_type remaining' (get_prop list "$itemType") lengths result0
            else Throw (Error "Unknown simpleType structure")
          else Throw (Error ("Unknown XSD type '" ++ to_string subXsdType))
        else Throw (Error ("Could not find type '" ++ name ++ "' in namespace '"
                           ++ to_string ns ++ "'"))
  end.

End TypeReferences.

(** The copy of [subResult] into [result]: keys that start with [$] become
    decorated keys of the element, the others go under the element. *)
Fixpoint copy_subResult (nameKey : string) (subResult : obj) (result0 : obj) : obj :=
  match subResult with
  | [] => result0
  | (key, v) :: rest =>
      copy_subResult nameKey rest
        (if starts_with "$" key then set_prop (nameKey ++ key) v result0
         else match get result0 nameKey with
              | VObj inner => set_prop nameKey (VObj (set_prop key v inner)) result0
              | _ => result0
              end)
  end.

(** [maxOccurs] and [minOccurs] as the source computes them. *)
Definition maxOccurs_of (element : value) : number :=
  parseInt (if strict_eq_str (get_prop element "$maxOccurs") "unbounded"
            then VNum NMaxValue
            else or_else (get_prop element "$maxOccurs") (VNum (NInt 0))).

Definition minOccurs_of (element : value) : number :=
  parseInt (or_else (get_prop element "$minOccurs") (VNum (NInt 0))).

(** The end of the [element] branch: the copy of [subResult], the
    namespace, the cardinality and the length. *)
Definition finish_element (element : value) (targetNamespace : value)
    (elementFormQualified : bool) (elementNamespaces : obj) (r : resolved) : result value :=
  let nameKey := to_string (get_prop element "$name") in
  let result0 := res_result r in
  let result0 :=
    if truthy (res_subResult r) then
      if truthy (get_prop (res_subResult r) "$type")
      then set_prop (nameKey ++ "$type") (get_prop (res_subResult r) "$type") result0
      else match res_subResult r with
           | VObj sub => copy_subResult nameKey sub (set_prop nameKey (VObj []) result0)
           | _ => set_prop nameKey (VObj []) result0
           end
    else result0 in
  result0 <-
    (if elementFormQualified then
       a <- strip_xmlns (get (reverse_namespaces elementNamespaces) (to_string targetNamespace)) ;;
       Return (set_prop (nameKey ++ "$namespace") a result0)
     else Return result0) ;;
  let maxOccurs := maxOccurs_of element in
  let minOccurs := minOccurs_of element in
  let result0 :=
    if greater_than maxOccurs 1
    then set_prop (nameKey ++ "$type")
           (VArr [get result0 (nameKey ++ "$type"); VNum minOccurs; VNum maxOccurs]) result0
    else result0 in
  let result0 :=
    if greater_than (fst (res_lengths r)) 0
    then set_prop (nameKey ++ "$length")
           (VArr [VNum (snd (res_lengths r)); VNum (fst (res_lengths r))]) result0
    else result0 in
  Return (VObj result0).

Definition value_elements (elements : value) : list value :=
  match elements with VArr xs => xs | v => [v] end.

(** [_elementToDefinition(xsdType, element, targetNamespace,
    elementFormQualified, attributeFormQualified, typeLookupMap, namespaces)].
    The function calls itself on the children of a complex type and on the
    declarations that type references name, which may name each other; the
    fuel bounds the depth of the calls, and running out of it is the
    runtime's stack overflow. *)
Fixpoint _elementToDefinition (fuel : nat) (xsdType : string) (element : value)
    (targetNamespace : value) (elementFormQualified attributeFormQualified : bool)
    (typeLookupMap : obj) (namespaces : obj) : result value :=
  match fuel with
  | O => Throw StackOverflow
  | S fuel' =>
      let recurse := fun xsdType' element' namespaces' =>
        _elementToDefinition fuel' xsdType' element' targetNamespace
          elementFormQualified attributeFormQualified typeLookupMap namespaces' in
      elementNamespaces <- _extractAndAddNamespaces element namespaces ;;
      if String.eqb xsdType "element" then
        let nameKey := to_string (get_prop element "$name") in
        let zero := (NInt 0, NInt 0) in
        r <-
          (if truthy (get_prop element "$type") then
             Return (get_prop element "$type", mkResolved [] VUndef zero)
           else if truthy (get_prop element "simpleType") then
             let simpleType := get_prop element "simpleType" in
             if truthy (get_prop simpleType "restriction") then
               lengths <- restriction_lengths true (get_prop simpleType "restriction") zero ;;
               Return (get_prop (get_prop simpleType "restriction") "$base",
                       mkResolved [] VUndef lengths)
             else if truthy (get_prop simpleType "list") then
               Return (get_prop (get_prop simpleType "list") "$itemType",
                       mkResolved [] VUndef zero)
             else Throw (Error "Unknown simpleType structure")
           else if truthy (get_prop element "complexType")
                   && (truthy (get_prop (get_prop element "complexType") "all")
                       || truthy (get_prop (get_prop element "complexType") "sequence")) then
             subResult <- recurse "complexType" (get_prop element "complexType") elementNamespaces ;;
             Return (VStr "object", mkResolved [] subResult zero)
           else if match element with VObj o => hasOwnProperty o "complexType" | _ => false end then
             Return (VStr "object",
                     mkResolved (set_prop (nameKey ++ "$type") (VStr "empty") []) VUndef zero)
           else if (List.length (own_keys element) =? 0)%nat then
             Return (VStr "object",
                     mkResolved (set_prop (nameKey ++ "$type") (VStr "any") []) VUndef zero)
           else Throw (Error "Unknown element structure")) ;;
        let (type, r0) := r in
        r1 <-
          (if negb (in_strings type ["object"; "any"; "empty"]) then
             resolve_type recurse typeLookupMap elementNamespaces nameKey 3 type
               (res_lengths r0) (res_result r0)
           else Return r0) ;;
        finish_element element targetNamespace elementFormQualified elementNamespaces r1
      else if String.eqb xsdType "complexType" then
        let all := get_prop element "all" in
        let sequence := get_prop element "sequence" in
        if truthy all || truthy sequence then
          start <-
            (if truthy all then Return (get_prop all "element", ([] : obj))
             else if truthy (get_prop sequence "element") then
               Return (get_prop sequence "element", [("$order", VArr [])])
             else if match sequence with VObj o => hasOwnProperty o "any" | _ => false end then
               Return (VArr [], [("$type", VStr "any"); ("$order", VArr [])])
             else Throw (Error "Unknown complexType sequence structure")) ;;
          let (elements, result0) := start in
          r <- (fix each (l : list value) (result0 : obj) : result obj :=
                  match l with
                  | [] => Return result0
                  | subElement :: l' =>
                      subResult <- recurse "element" subElement namespaces ;;
                      let result1 :=
                        fold_left (fun acc key => set_prop key (get_prop subResult key) acc)
                                  (own_keys subResult) result0 in
                      let result2 :=
                        if hasOwnProperty result1 "$order" then
                          match get result1 "$order" with
                          | VArr order =>
                              set_prop "$order"
                                (VArr (order ++ [get_prop subElement "$name"])%list) result1
                          | _ => result1
                          end
                        else result1 in
                      each l' result2
                  end) (value_elements elements) result0 ;;
          Return (VObj r)
        else Return VUndef
      else Return (VObj [])
  end.

(** The registration of the top-level declarations of one kind in
    [typeLookupMap]. *)
Definition register_types (xsdType : string) (targetNamespaceAlias : value)
    (types : list value) (typeLookupMap : obj) : result obj :=
  fold_left
    (fun acc type =>
       m <- acc ;;
       name <- read type "$name" ;;
       let key := (if String.eqb xsdType "element" then EmptyString else "#")
                  ++ to_string targetNamespaceAlias ++ ":" ++ to_string name in
       Return (set_prop (key ++ "$xsdType") (VStr xsdType) (set_prop key type m)))
    types (Return typeLookupMap).

(** [(schema[xsdType] || []).forEach]: only an array has [forEach]. *)
Definition for_each_list (v : value) : result (list value) :=
  match v with
  | VArr xs => Return xs
  | _ => Throw (TypeError "forEach is not a function")
  end.

Definition skipped_aliases : list string := ["xmlns:tns"; "xmlns:soap"; "xmlns:xs"].

(** The callback of [schema.element.forEach] in [_generateDefinitionXsd]. *)
Definition compile_top_element (fuel : nat) (schema : value) (schemaNamespaces : obj)
    (namespaceToAlias : obj) (targetNamespace : value)
    (elementFormQualified attributeFormQualified : bool)
    (typeLookupMap : obj) (element : value) (result0 : obj) : result obj :=
  elementNamespaces <- _extractAndAddNamespaces schema schemaNamespaces ;;
  name <- read element "$name" ;;
  let attributesKey := to_string name ++ "$attributes" in
  let saved := filter (fun kv => negb (in_strings (VStr (fst kv)) skipped_aliases))
                      elementNamespaces in
  let result1 :=
    match saved with
    | [] => delete_prop attributesKey (set_prop attributesKey (VObj []) result0)
    | _ => set_prop attributesKey
             (VObj (fold_left (fun acc kv => set_prop (fst kv) (snd kv) acc) saved [])) result0
    end in
  definition <- _elementToDefinition fuel "element" element targetNamespace
                  elementFormQualified attributeFormQualified typeLookupMap elementNamespaces ;;
  fold_left
    (fun acc key =>
       r <- acc ;;
       let r := set_prop key (get_prop definition key) r in
       if negb elementFormQualified then
         a <- strip_xmlns (get namespaceToAlias (to_string targetNamespace)) ;;
         Return (set_prop (key ++ "$namespace") a r)
       else Return r)
    (own_keys definition) (Return result1).

(** [_generateDefinitionXsd(schema, namespaces)] *)
Definition _generateDefinitionXsd (fuel : nat) (schema : value) (namespaces : obj)
    : result value :=
  let namespaceToAlias :=
    fold_left (fun m kv => set_prop (to_string (snd kv)) (VStr (fst kv)) m) namespaces
              [(XMLSchema, VStr "xmlns:xsd")] in
  t <- read schema "$targetNamespace" ;;
  let targetNamespace := if truthy t then t else VStr XMLSchema in
  let targetNamespaceAlias := get namespaceToAlias (to_string targetNamespace) in
  if negb (truthy targetNamespaceAlias) then
    Throw (Error ("Unable to find alias for target namespace: '"
                  ++ to_string targetNamespace ++ "'"))
  else
    typeLookupMap <-
      fold_left
        (fun acc xsdType =>
           m <- acc ;;
           types <- for_each_list (or_else (get_prop schema xsdType) (VArr [])) ;;
           register_types xsdType targetNamespaceAlias types m)
        ["simpleType"; "complexType"; "element"] (Return []) ;;
    let elementFormQualified := strict_eq_str (get_prop schema "$elementFormDefault") "qualified" in
    let attributeFormQualified :=
      strict_eq_str (get_prop schema "attributeFormDefault") "qualified" in
    schemaNamespaces <- _extractAndAddNamespaces schema namespaces ;;
    elements <- (e <- read schema "element" ;;
                 match e with
                 | VArr xs => Return xs
                 | VUndef | VNull =>
                     Throw (TypeError "Cannot read properties of undefined (reading 'forEach')")
                 | _ => Throw (TypeError "forEach is not a function")
                 end) ;;
    r <- fold_left
           (fun acc element =>
              r <- acc ;;
              compile_top_element fuel schema schemaNamespaces namespaceToAlias targetNamespace
                elementFormQualified attributeFormQualified typeLookupMap element r)
           elements (Return []) ;;
    Return (VObj r).

(** ** The entry point [generateDefinition] *)

(** The first argument: the text of a document (given as the document the
    tokenizer reads from it) or an object. *)
Inductive source : Type :=
| SourceXml (xml : node)
| SourceObject (o : value).

Definition schema_definition : value :=
  VObj [("schema", VObj [("element$type", VArr []); ("simpleType$type", VArr []);
                         ("complexType$type", VArr [])])].

(** [generateDefinition(xmlOrObj, type, namespaces, options)]: the
    definition, and for an object argument the object as the call leaves
    it. *)
Definition generateDefinition (fuel : nat) (xmlOrObj : source) (type : string)
    (namespaces : obj) (guessBase64Binary : bool) : result (value * option value) :=
  if String.eqb type "xml" then
    match xmlOrObj with
    | SourceXml xml =>
        o <- _fromXml xml VNull false false ;;
        ' (d, _) <- _generateDefinitionXml o guessBase64Binary ;;
        Return (d, None)
    | SourceObject o =>
        ' (d, o') <- _generateDefinitionXml o guessBase64Binary ;;
        Return (d, Some o')
    end
  else if String.eqb type "xsd" then
    match xmlOrObj with
    | SourceXml xml =>
        parsed <- _fromXml xml schema_definition true false ;;
        schema <- read parsed "schema" ;;
        d <- _generateDefinitionXsd fuel schema namespaces ;;
        Return (d, None)
    | SourceObject o =>
        d <- _generateDefinitionXsd fuel o namespaces ;;
        Return (d, Some o)
    end
  else Throw (Error ("Unknown type '" ++ type ++ "'")).

(** ** Chains of type references *)

(** The type that a type reference leads to through a [simpleType]
    declaration: the reference resolves to a namespace other than XML
    Schema's, the lookup table holds a simple type under it, and that type
    restricts a base or lists an item type.  [None] for any other
    reference. *)
Definition simple_type_target (typeLookupMap elementNamespaces : obj) (type : value)
    : option value :=
  match _namespaceLookup type elementNamespaces with
  | Return (_, ns) =>
      let subElement := get typeLookupMap ("#xmlns:" ++ to_string type) in
      let subXsdType := get typeLookupMap ("#xmlns:" ++ to_string type ++ "$xsdType") in
      if negb (strict_eq_str ns XMLSchema) && truthy subElement
         && strict_eq_str subXsdType "simpleType" then
        if truthy (get_prop subElement "restriction")
        then Some (get_prop (get_prop subElement "restriction") "$base")
        else if truthy (get_prop subElement "list")
        then Some (get_prop (get_prop subElement "list") "$itemType")
        else None
      else None
  | Throw _ => None
  end.

(** The type reached after [n] simple types. *)
Fixpoint after_simple_types (typeLookupMap elementNamespaces : obj) (n : nat) (type : value)
    : option value :=
  match n with
  | O => Some type
  | S m =>
      match simple_type_target typeLookupMap elementNamespaces type with
      | Some t => after_simple_types typeLookupMap elementNamespaces m t
      | None => None
      end
  end.

(** A reference to a complex type (or an element) of the lookup table. *)
Definition complex_target (typeLookupMap elementNamespaces : obj) (type : value)
    : option (string * value) :=
  match _namespaceLookup type elementNamespaces with
  | Return (_, ns) =>
      let subElement := get typeLookupMap ("#xmlns:" ++ to_string type) in
      let subXsdType := get typeLookupMap ("#xmlns:" ++ to_string type ++ "$xsdType") in
      if negb (strict_eq_str ns XMLSchema) && truthy subElement
         && (strict_eq_str subXsdType "complexType" || strict_eq_str subXsdType "element")
      then Some (to_string subXsdType, subElement)
      else None
  | Throw _ => None
  end.

(** A reference to a primitive type of XML Schema, and its local name. *)
Definition primitive_target (elementNamespaces : obj) (type : value) : option string :=
  match _namespaceLookup type elementNamespaces with
  | Return (name, ns) => if strict_eq_str ns XMLSchema then Some name else None
  | Throw _ => None
  end.

(** ** Sample documents *)

(** [<xs:schema xmlns:xs="http://www.w3.org/2001/XMLSchema">
       <xs:element name="age" minOccurs="0" maxOccurs="unbounded">
         <xs:simpleType><xs:restriction base="xs:int"/></xs:simpleType>
       </xs:element>
     </xs:schema>] *)
Definition age_schema : node :=
  Element "xs:schema" [("xmlns:xs", XMLSchema)]
    [Element "xs:element" [("name", "age"); ("minOccurs", "0"); ("maxOccurs", "unbounded")]
       [Element "xs:simpleType" []
          [Element "xs:restriction" [("base", "xs:int")] []]]].

(** The [age] element with [maxOccurs="5"]. *)
Definition age_schema_5 : node :=
  Element "xs:schema" [("xmlns:xs", XMLSchema)]
    [Element "xs:element" [("name", "age"); ("minOccurs", "0"); ("maxOccurs", "5")]
       [Element "xs:simpleType" []
          [Element "xs:restriction" [("base", "xs:int")] []]]].

Definition simple_type_decl (name base : string) : node :=
  Element "xs:simpleType" [("name", name)] [Element "xs:restriction" [("base", base)] []].

(** A schema of target namespace [urn:t] whose element [e] is of type
    [tns:T0], with the simple types given. *)
Definition chain_schema (types : list node) : node :=
  Element "xs:schema"
    [("xmlns:xs", XMLSchema); ("xmlns:tns", "urn:t"); ("targetNamespace", "urn:t")]
    (types ++ [Element "xs:element" [("name", "e"); ("type", "tns:T0")] []])%list.

Definition chain_namespaces : obj := [("xmlns:tns", VStr "urn:t")].

(** [T0 -> xs:int]: two type references. *)
Definition chain2 : node := chain_schema [simple_type_decl "T0" "xs:int"].

(** [T0 -> T1 -> xs:int]: three type references. *)
Definition chain3 : node :=
  chain_schema [simple_type_decl "T0" "tns:T1"; simple_type_decl "T1" "xs:int"].

(** [T0 -> T1 -> T2 -> xs:int]: four type references. *)
Definition chain4 : node :=
  chain_schema [simple_type_decl "T0" "tns:T1"; simple_type_decl "T1" "tns:T2";
                simple_type_decl "T2" "xs:int"].

(** ** What inference leaves of the object it reads *)

(** A key with a [$] after its first character: [key.indexOf('$') > 0]. *)
Definition decorated (key : string) : bool :=
  match index_of_char dollar key with
  | Some (S _) => true
  | _ => false
  end.

(** The object that [_generateDefinitionXml] leaves behind, written down
    from the behaviour to be proved rather than from the source: under a key
    that is not decorated, a string or [undefined] goes away, an object stays
    without its own such leaves, and an array stays with its first element
    treated alike when that is an object or an array; a decorated key keeps
    its value.  [None] stands for a deleted property. *)
Fixpoint remaining_value (v : value) : option value :=
  match v with
  | VStr _ | VUndef => None
  | VObj kvs =>
      Some (VObj
        ((fix each (l : list (string * value)) : list (string * value) :=
            match l with
            | [] => []
            | (k, x) :: l' =>
                if decorated k then (k, x) :: each l'
                else match remaining_value x with
                     | Some y => (k, y) :: each l'
                     | None => each l'
                     end
            end) kvs))
  | VArr [] => Some v
  | VArr (e0 :: rest) =>
      Some (VArr (match remaining_value e0 with Some e => e | None => e0 end :: rest))
  | _ => Some v
  end.

Fixpoint remaining_properties (o : obj) : obj :=
  match o with
  | [] => []
  | (k, x) :: l' =>
      if decorated k then (k, x) :: remaining_properties l'
      else match remaining_value x with
           | Some y => (k, y) :: remaining_properties l'
           | None => remaining_properties l'
           end
  end.

(** The trees that an untyped parse produces, and on which inference
    returns: strings, objects and arrays (and [undefined]) under the keys
    that are not decorated and at the head of the arrays; anything under a
    decorated key and in the rest of an array. *)
Fixpoint string_tree (v : value) : bool :=
  match v with
  | VStr _ | VUndef => true
  | VObj kvs =>
      (fix each (l : list (string * value)) : bool :=
         match l with
         | [] => true
         | (k, x) :: l' => (decorated k || string_tree x) && each l'
         end) kvs
  | VArr [] => true
  | VArr (e0 :: _) => string_tree e0
  | _ => false
  end.

Fixpoint string_properties (o : obj) : bool :=
  match o with
  | [] => true
  | (k, x) :: l' => (decorated k || string_tree x) && string_properties l'
  end.

(** ** Definitions as the data model has them *)

Definition is_object (v : value) : bool :=
  match v with VObj _ => true | _ => false end.

(** Every key of the definition that carries no [$] holds a nested
    definition, that is, an object. *)
Definition plain_keys_hold_objects (definition : obj) : bool :=
  forallb (fun kv => negb (no_dollar (fst kv)) || is_object (snd kv)) definition.

(** ** Documents as event lists *)

(** The events of the children of an element. *)
Fixpoint children_events (l : list node) : list event :=
  match l with
  | [] => []
  | c :: l' => (events_of c ++ children_events l')%list
  end.

(** Event lists in which every element that starts also ends: the content
    of an element. *)
Inductive balanced : list event -> Prop :=
| balanced_nil : balanced []
| balanced_text data es : balanced es -> balanced (TextData data :: es)
| balanced_element name attributes body es :
    balanced body -> balanced es ->
    balanced (StartElement name attributes :: body ++ EndElement name :: es)%list.

(** The two stacks that record the order of the children go together: the
    array [orders] has as many entries as [names], or one more once a child
    of the current element has ended. *)
Definition orders_fit (s : state) : Prop :=
  (List.length (names s) <= List.length (orders s) <= S (List.length (names s)))%nat.

(** The entries of [orders] for the elements that are open: the bottom of
    the stack, as deep as [names]. *)
Definition open_orders (s : state) : list (list string) :=
  skipn (List.length (orders s) - List.length (names s)) (orders s).

(** A name without a colon and without a dollar sign, as the local names of
    XML are. *)
Definition plain_name (name : string) : bool :=
  string_forall (fun c => negb (Ascii.eqb c colon) && negb (Ascii.eqb c dollar)) name.

(** The value under a path of keys. *)
Fixpoint at_path (v : value) (path : list string) : value :=
  match path with
  | [] => v
  | k :: path' => at_path (get_prop v k) path'
  end.

(** The content of an element with two child elements, and text chunks
    before, between and after them. *)
Definition two_children (t0 : list string) (first : node) (t1 : list string)
    (second : node) (t2 : list string) : list node :=
  (map Text t0 ++ first :: map Text t1 ++ second :: map Text t2)%list.

(** An element with text only. *)
Definition text_element (name : string) (texts : list string) : node :=
  Element name [] (map Text texts).

(** The state with another stack of enclosing objects. *)
Definition with_objects (enclosing : list obj) (s : state) : state :=
  {|
    definitions := definitions s;
    currentValue := currentValue s;
    currentObject := currentObject s;
    currentType := currentType s;
    objects := enclosing;
    names := names s;
    orders := orders s;
    namespaces := namespaces s;
    definitionNamespaces := definitionNamespaces s;
    definitionNamespaceUrls := definitionNamespaceUrls s
  |}.

(** [currentValue] when the content of an element has been read: the text
    callback appends to it, and every child element resets it. *)
Definition text_after (before : string) (content : list node) : string :=
  fold_left (fun acc n => match n with
                          | Text data => acc ++ data
                          | Element _ _ _ => EmptyString
                          end) content before.

Definition closing_text (content : list node) : string := text_after EmptyString content.

(** An element without attributes and without child elements. *)
Definition is_leaf (n : node) : bool :=
  match n with
  | Element _ [] content =>
      forallb (fun c => match c with Text _ => true | Element _ _ _ => false end) content
  | _ => false
  end.

(** ** Sample definitions and documents for the parser *)

(** [{E$order: ['a', 'b']}], and the same with [a] typed as an array under
    [E]. *)
Definition order_definition : obj := [("E$order", VArr [VStr "a"; VStr "b"])].

Definition order_definition_array : obj :=
  [("E$order", VArr [VStr "a"; VStr "b"]); ("E", VObj [("a$type", VArr [VStr "string"])])].

(** [<E><a>1</a><b>2</b></E>] and [<E><b>1</b><a>2</a></E>] *)
Definition a_then_b : node :=
  Element "E" [] (two_children [] (text_element "a" ["1"]) [] (text_element "b" ["2"]) []).

Definition b_then_a : node :=
  Element "E" [] (two_children [] (text_element "b" ["1"]) [] (text_element "a" ["2"]) []).

(** A definition that declares [b] in the namespace [alias], bound to
    [url] by the namespace attribute of [a]. *)
Definition namespace_definition (alias url : string) : value :=
  VObj [("a$attributes", VObj [("xmlns:" ++ alias, VStr url)]);
        ("a", VObj [("b$namespace", VStr alias)])].

(** [<a xmlns:ns="urn:x"><ns:b/></a>] *)
Definition namespace_document : node :=
  Element "a" [("xmlns:ns", "urn:x")] [Element "ns:b" [] []].

Definition chain_element : value := VObj [("$name", VStr "e"); ("$type", VStr "tns:T0")].

Definition chain_aliases : obj := [("xmlns:tns", VStr "urn:t"); ("xmlns:xs", VStr XMLSchema)].

Definition simple_type_value (base : string) : value :=
  VObj [("restriction", VObj [("$base", VStr base)])].

Definition lookup_map (types : list (string * string)) : obj :=
  fold_left (fun m nb =>
               set_prop ("#xmlns:tns:" ++ fst nb ++ "$xsdType") (VStr "simpleType")
                 (set_prop ("#xmlns:tns:" ++ fst nb) (simple_type_value (snd nb)) m))
            types [].

Definition person_definition : obj :=
  [("person", VObj [("name$type", VStr "string"); ("age$type", VStr "int")])].

Definition sample_object : obj :=
  [("a", VStr EmptyString); ("b$c", VStr "x"); ("d", VStr "12");
   ("e", VArr [VObj [("f", VStr "1")]; VObj [("g", VStr "2")]]);
   ("h", VArr [VStr "q"])].

Definition text_types : list string :=
  ["anyURI"; "language"; "normalizedString"; "string"; "token"; "empty"; "any"].

Definition binary_encoding (t : string) : encoding :=
  if String.eqb t "base64Binary" then Base64 else Hex.

(** ** The rest of the interface *)

(** [typeof v] *)
Definition typeof (v : value) : string :=
  match v with
  | VUndef => "undefined"
  | VBool _ => "boolean"
  | VNum _ => "number"
  | VStr _ => "string"
  | VNull | VBuf _ _ | VArr _ | VObj _ => "object"
  end.

(** One option of [fromXml]: [Object.assign({}, defaultFromXmlOptions,
    options)] takes the own properties of [options], so that an option which
    is present replaces the default, [true], whatever its value; [_fromXml]
    then tests the value for truth. *)
Definition option_flag (options : value) (name : string) : bool :=
  match options with
  | VObj o => match lookup name o with Some v => truthy v | None => true end
  | _ => true
  end.

(** [fromXml(xml, definition, options)] with the options as an object. *)
Definition fromXml_with (xml : node) (definition options : value) : result value :=
  fromXml xml definition (option_flag options "inlineAttributes")
    (option_flag options "convertTypes").

(** [class Parser]: the constructor keeps the definition and the options,
    [{}] for options that are not given. *)
Record Parser : Type := mkParser {
  _definition : value;
  _options : value
}.

Definition new_Parser (definition options : value) : Parser :=
  mkParser definition (match options with VUndef => VObj [] | o => o end).

(** [Parser.prototype.fromXml(xml)] *)
Definition Parser_fromXml (p : Parser) (xml : node) : result value :=
  fromXml_with xml (_definition p) (_options p).

(** [Parser.prototype.generateSample(rootName)]: the body calls
    [generateSample(this._definition, this._options)], so the definition is
    the root name, as the property key it stands for, and the options are
    the definition. *)
Definition Parser_generateSample (p : Parser) (rootName : value) : result value :=
  generateSample (to_string (_definition p)) (_options p).

(** [Parser.prototype.generateDefinition(xml, type, namespaces)]: the options
    are not passed on, so [guessBase64Binary] is off. *)
Definition Parser_generateDefinition (fuel : nat) (p : Parser) (xml : source) (type : string)
    (namespaces : obj) : result (value * option value) :=
  generateDefinition fuel xml type namespaces false.

(** ** Shapes of data that the statements speak of *)

(** The names that every object inherits.  A read of one of them on an
    object that has no such property of its own gives the inherited member
    and not [undefined], and an element called [hasOwnProperty] or
    [__proto__] gets in the way of the parser's own use of these two.  A
    key that writes an integer is kept by an object before its other keys,
    in the order of the numbers and not in the order of the writes.  The
    association lists model neither, so the statements that let a caller
    choose the names keep to ordinary ones: no inherited name and, as for
    every name of XML, no digit in front. *)
Definition inherited_names : list string :=
  ["constructor"; "hasOwnProperty"; "isPrototypeOf"; "propertyIsEnumerable";
   "toLocaleString"; "toString"; "valueOf"; "__defineGetter__"; "__defineSetter__";
   "__lookupGetter__"; "__lookupSetter__"; "__proto__"].

Definition ordinary_key (k : string) : bool :=
  negb (existsb (String.eqb k) inherited_names) && negb (starts_with_digit k).

(** A document in which the alias and the local name of every element are
    ordinary. *)
Fixpoint ordinary_node (n : node) : bool :=
  match n with
  | Text _ => true
  | Element name _ children =>
      forallb ordinary_key (split_at colon name)
      && (fix all (l : list node) : bool :=
            match l with
            | [] => true
            | c :: l' => ordinary_node c && all l'
            end) children
  end.

(** The three signs a number can be written with. *)
Definition sign_text (s : string) : bool :=
  String.eqb s EmptyString || String.eqb s "+" || String.eqb s "-".

(** An object whose properties are all non-empty strings under keys
    without a dollar sign: the flat record that an untyped parse gives for
    an element with text children only. *)
Definition flat_strings (o : obj) : bool :=
  forallb (fun kv => no_dollar (fst kv)
                     && match snd kv with
                        | VStr s => negb (String.eqb s EmptyString)
                        | _ => false
                        end) o.

(** An [xs:element] declaration with a [type] attribute, as the parse of a
    schema gives it: the attributes under their names with a dollar sign,
    [minOccurs] and [maxOccurs] written in decimal when they are there. *)
Definition occurs_attribute (key : string) (count : option Z) : obj :=
  match count with
  | Some z => [(key, VStr (Z_to_string z))]
  | None => []
  end.

(** A count that a number holds exactly. *)
Definition exact_count (count : option Z) : bool :=
  match count with
  | Some z => (Z.abs z <=? 2 ^ 53)%Z
  | None => true
  end.

Definition typed_element (name type : string) (minOccurs maxOccurs : option Z) : value :=
  VObj (("$name", VStr name) :: ("$type", VStr type)
        :: (occurs_attribute "$minOccurs" minOccurs
            ++ occurs_attribute "$maxOccurs" maxOccurs)%list).

(** The type that an element of primitive type [T] compiles to. *)
Definition occurs_type (T : string) (minOccurs maxOccurs : option Z) : value :=
  match maxOccurs with
  | Some m =>
      if (1 <? m)%Z
      then VArr [VStr T;
                 VNum (NInt (match minOccurs with Some k => k | None => 0%Z end));
                 VNum (NInt m)]
      else VStr T
  | None => VStr T
  end.

(** A child declaration of a sequence: its name, the local name of its
    primitive type, and its cardinality. *)
Record field_declaration : Type := mkField {
  fd_name : string;
  fd_type : string;
  fd_min : option Z;
  fd_max : option Z
}.

Definition declared_field (alias : string) (f : field_declaration) : value :=
  typed_element (fd_name f) (alias ++ ":" ++ fd_type f) (fd_min f) (fd_max f).

(** [<xs:element name="..."><xs:complexType><xs:sequence> fields
    </xs:sequence></xs:complexType></xs:element>] as the parse of a schema
    gives it. *)
Definition sequence_element (name alias : string) (fields : list field_declaration) : value :=
  VObj [("$name", VStr name);
        ("complexType",
         VObj [("sequence", VObj [("element", VArr (map (declared_field alias) fields))])])].

Definition compiled_fields (fields : list field_declaration) : obj :=
  map (fun f => (fd_name f ++ "$type", occurs_type (fd_type f) (fd_min f) (fd_max f))) fields.

Definition field_names (fields : list field_declaration) : list value :=
  map (fun f => VStr (fd_name f)) fields.

Definition well_named (f : field_declaration) : Prop :=
  index_of_char colon (fd_type f) = None /\ plain_name (fd_name f) = true
  /\ fd_name f <> EmptyString
  /\ exact_count (fd_min f) = true /\ exact_count (fd_max f) = true.

(** The loop of [_elementToDefinition] over the children of an [all] or a
    [sequence], under a name: [recurse] is the call for one child. *)
Definition sequence_each (recurse : string -> value -> obj -> result value) (namespaces : obj)
    : list value -> obj -> result obj :=
  fix each (l : list value) (result0 : obj) : result obj :=
    match l with
    | [] => Return result0
    | subElement :: l' =>
        subResult <- recurse "element" subElement namespaces ;;
        let result1 :=
          fold_left (fun acc key => set_prop key (get_prop subResult key) acc)
                    (own_keys subResult) result0 in
        let result2 :=
          if hasOwnProperty result1 "$order" then
            match get result1 "$order" with
            | VArr order =>
                set_prop "$order"
                  (VArr (order ++ [get_prop subElement "$name"])%list) result1
            | _ => result1
            end
          else result1 in
        each l' result2
    end.

(** The namespace table of the wire after a node: every element adds what
    its attributes declare, in document order, and nothing is ever taken
    out. *)
Fixpoint declared_namespaces (n : node) (table : obj) : obj :=
  match n with
  | Text _ => table
  | Element _ attributes children =>
      (fix all (l : list node) (t : obj) : obj :=
         match l with
         | [] => t
         | c :: l' => all l' (declared_namespaces c t)
         end) children (extract_namespaces attributes table)
  end.

Fixpoint declared_by_all (l : list node) (table : obj) : obj :=
  match l with
  | [] => table
  | c :: l' => declared_by_all l' (declared_namespaces c table)
  end.

(** The state of a parse without a definition when the root [<p>] has
    started. *)
Definition open_parent : state :=
  {|
    definitions := [VObj []; VObj []];
    currentValue := EmptyString;
    currentObject := [];
    currentType := VUndef;
    objects := [[("p", VObj [])]];
    names := ["p"];
    orders := [["p"]];
    namespaces := [];
    definitionNamespaces := [];
    definitionNamespaceUrls := []
  |}.


(** The definition that types every property of a flat record by the guess
    for its text. *)
Definition inferred_flat (guessBase64Binary : bool) (o : obj) : obj :=
  map (fun kv => (fst kv ++ "$type",
                  VStr (guess_type guessBase64Binary (to_string (snd kv))))) o.

(** A record: an element whose children are elements with text only, one
    for each field, with the same white space before each of them and
    before the end tag. *)
Definition record_children (sep : string) (fields : list (string * string)) : list node :=
  (flat_map (fun kv => [Text sep; text_element (fst kv) [snd kv]]) fields ++ [Text sep])%list.

Definition record_document (root sep : string) (fields : list (string * string)) : node :=
  Element root [] (record_children sep fields).

(** The object that stands for the fields. *)
Definition record_object (fields : list (string * string)) : obj :=
  map (fun kv => (fst kv, VStr (snd kv))) fields.

(** The state of a parse without a definition inside the root of a record,
    between two fields: [seen] are the names of the fields read so far. *)
Definition record_orders (root : string) (seen : list string) : list (list string) :=
  match seen with
  | [] => [[root]]
  | _ => [seen; [root]]
  end.

Definition record_state (root : string) (current : obj) (seen : list string)
    (text : string) : state :=
  {|
    definitions := [VObj []; VObj []];
    currentValue := text;
    currentObject := current;
    currentType := VUndef;
    objects := [[(root, VObj [])]];
    names := [root];
    orders := record_orders root seen;
    namespaces := [];
    definitionNamespaces := [];
    definitionNamespaceUrls := []
  |}.

(** No definition at all on the stack of definitions. *)
Definition no_definitions (s : state) : Prop :=
  Forall (fun d => d = VObj []) (definitions s) /\ definitions s <> []
  /\ (currentType s = VUndef \/ currentType s = VStr EmptyString).

(** ** What the statements keep to *)

(** Characters of ASCII.  On them the white space of the host (the class
    [\s], [trim], the white space that [parseInt] and [parseFloat] skip) is
    [is_space]; the host also counts characters outside ASCII as white
    space (the no-break space is one), so a statement that depends on a
    text being blank, or not, speaks of its ASCII characters. *)
Definition is_ascii (c : ascii) : bool := (nat_of_ascii c <? 128)%nat.

Definition ascii_text (s : string) : bool := string_forall is_ascii s.

(** A text that holds a character of ASCII which is no white space: it is
    not blank, whatever its other characters are. *)
Fixpoint inked (s : string) : bool :=
  match s with
  | EmptyString => false
  | String c s' => (is_ascii c && negb (is_space c)) || inked s'
  end.

(** A name that every object inherits. *)
Definition inherited (k : string) : bool := existsb (String.eqb k) inherited_names.

(** An integer that is a number of the host, a binary64: one of at most 53
    significant bits. *)
Definition binary64_integer (z : Z) : bool :=
  let a := Z.abs z in
  (a <=? 2 ^ 53)%Z || (a mod 2 ^ (Z.log2 a - 52) =? 0)%Z.

(** The text of a number that the host does not print as a plain integer:
    digits, then a fraction, an exponent or both, with a minus sign or none
    in front.  [NFloatOf s] stands for the number that such a text writes,
    and [number_to_string] gives the text back. *)
Definition printed_exponent (e : string) : bool :=
  match e with
  | String "e"%char (String sign ds) =>
      (Ascii.eqb sign "+" || Ascii.eqb sign "-")
      && negb (String.eqb ds EmptyString) && string_forall is_digit ds
  | _ => false
  end.

Definition printed_literal (s : string) : bool :=
  let r := match s with String "-"%char r => r | _ => s end in
  let (ds, rest) := span_digits r in
  negb (String.eqb ds EmptyString)
  && match rest with
     | String "."%char r1 =>
         let (fs, rest1) := span_digits r1 in
         negb (String.eqb fs EmptyString)
         && (String.eqb rest1 EmptyString || printed_exponent rest1)
     | _ => printed_exponent rest
     end.

(** The numbers whose text [number_to_string] gives as the host prints
    it. *)
Definition printed_number (v : number) : bool :=
  match v with
  | NInt z => binary64_integer z && (Z.abs z <? 10 ^ 21)%Z
  | NMaxValue => true
  | NNaN => false
  | NFloatOf s => printed_literal s
  end.

(** The type reference that the loop over the type references of an
    element starts with: the [type] attribute, or else the base (or the item
    type) of the simple type that the element declares inline. *)
Definition starting_reference (element : value) : option value :=
  if truthy (get_prop element "$type") then Some (get_prop element "$type")
  else
    let simpleType := get_prop element "simpleType" in
    if truthy simpleType then
      if truthy (get_prop simpleType "restriction")
      then Some (get_prop (get_prop simpleType "restriction") "$base")
      else if truthy (get_prop simpleType "list")
           then Some (get_prop (get_prop simpleType "list") "$itemType")
           else None
    else None.

(** An element with an inline simple type that restricts [base]. *)
Definition inline_element (name base : string) : value :=
  VObj [("$name", VStr name); ("simpleType", simple_type_value base)].

(** An attribute whose alias and local name are ordinary and whose text is
    no inherited name (the parser looks the text of a namespace declaration
    up in a table). *)
Definition ordinary_attribute (kv : string * string) : bool :=
  forallb ordinary_key (split_at colon (fst kv)) && negb (inherited (snd kv)).

(** A document in which the names of the elements and of the attributes
    are ordinary. *)
Fixpoint ordinary_tree (n : node) : bool :=
  match n with
  | Text _ => true
  | Element name attributes children =>
      forallb ordinary_key (split_at colon name)
      && forallb ordinary_attribute attributes
      && (fix all (l : list node) : bool :=
            match l with
            | [] => true
            | c :: l' => ordinary_tree c && all l'
            end) children
  end.

(** A document whose text and attribute values are ASCII. *)
Fixpoint ascii_tree (n : node) : bool :=
  match n with
  | Text data => ascii_text data
  | Element _ attributes children =>
      forallb (fun kv => ascii_text (snd kv)) attributes
      && (fix all (l : list node) : bool :=
            match l with
            | [] => true
            | c :: l' => ascii_tree c && all l'
            end) children
  end.

(** An object on which the parser can call [hasOwnProperty]: it has no
    property of that name, and none called [__proto__], which an assignment
    never creates. *)
Definition ordinary_object (o : obj) : bool :=
  forallb (fun k => negb (String.eqb k "hasOwnProperty") && negb (String.eqb k "__proto__"))
          (keys o).


(** The namespace table of a state holds no URL that is an inherited
    name. *)
Definition ordinary_urls (table : obj) : bool :=
  forallb (fun kv => negb (inherited (to_string (snd kv)))) table.

(** * Properties *)

(** ** Strings, digits and association lists *)

Lemma eqb_refl_string (s : string) : String.eqb s s = true.
Proof. apply String.eqb_refl. Qed.

Lemma lookup_set_same k v o : lookup k (set_prop k v o) = Some v.
Proof.
  induction o as [|[k' v'] o IH]; simpl.
  - now rewrite String.eqb_refl.
  - destruct (String.eqb k k') eqn:E; simpl; rewrite E; auto.
Qed.

Lemma lookup_set_other k k' v o :
  k <> k' -> lookup k (set_prop k' v o) = lookup k o.
Proof.
  intros Hne. induction o as [|[k0 v0] o IH]; simpl.
  - destruct (String.eqb k k') eqn:E; auto.
    apply String.eqb_eq in E. contradiction.
  - destruct (String.eqb k' k0) eqn:E; simpl.
    + apply String.eqb_eq in E. subst k0.
      destruct (String.eqb k k') eqn:E'; auto.
      apply String.eqb_eq in E'. contradiction.
    + destruct (String.eqb k k0); auto.
Qed.

Lemma get_set_same k v o : get (set_prop k v o) k = v.
Proof. unfold get. now rewrite lookup_set_same. Qed.

Lemma get_set_other k k' v o : k <> k' -> get (set_prop k' v o) k = get o k.
Proof. intros. unfold get. now rewrite lookup_set_other. Qed.

Lemma hasOwnProperty_set_same k v o : hasOwnProperty (set_prop k v o) k = true.
Proof. unfold hasOwnProperty. now rewrite lookup_set_same. Qed.


Lemma lookup_delete_same k o : lookup k (delete_prop k o) = None.
Proof.
  induction o as [|[k' v'] o IH]; simpl; auto.
  destruct (String.eqb k k') eqn:E; simpl; auto. now rewrite E.
Qed.

Lemma is_digit_bounds c :
  is_digit c = true <-> (48 <= nat_of_ascii c <= 57)%nat.
Proof.
  unfold is_digit. rewrite andb_true_iff, !Nat.leb_le. tauto.
Qed.

Lemma digit_not_space c : is_digit c = true -> is_space c = false.
Proof.
  rewrite is_digit_bounds. unfold is_space. intros [H1 H2].
  apply orb_false_iff; split.
  - apply andb_false_iff. right. apply Nat.leb_gt. lia.
  - apply Nat.eqb_neq. lia.
Qed.

Lemma read_sign_digit c s :
  is_digit c = true -> read_sign (String c s) = (false, String c s).
Proof.
  destruct c as [[] [] [] [] [] [] [] []]; intros H; try reflexivity;
    vm_compute in H; discriminate.
Qed.

Lemma digit_char_is_digit d :
  (0 <= d < 10)%Z -> is_digit (digit_char d) = true /\ digit_value (digit_char d) = d.
Proof.
  intros H.
  assert (E : (d = 0 \/ d = 1 \/ d = 2 \/ d = 3 \/ d = 4 \/ d = 5 \/ d = 6
               \/ d = 7 \/ d = 8 \/ d = 9)%Z) by lia.
  repeat (destruct E as [-> | E]; [split; reflexivity|]). subst. split; reflexivity.
Qed.

Lemma string_forall_app p a b :
  string_forall p (a ++ b) = string_forall p a && string_forall p b.
Proof.
  induction a as [|c a IH]; simpl; auto. now rewrite IH, andb_assoc.
Qed.

Lemma digits_value_app acc a b :
  digits_value acc (a ++ b) = digits_value (digits_value acc a) b.
Proof. revert acc. induction a as [|c a IH]; simpl; auto. Qed.

Lemma append_assoc_string (a b c : string) : (a ++ b) ++ c = a ++ (b ++ c).
Proof. induction a as [|x a IH]; simpl; auto. now rewrite IH. Qed.

(** The digits that [digits_of] puts before its accumulator are digits, at
    least one, and read back as the number. *)
Lemma digits_of_spec f : forall n acc,
  (0 <= n < 2 ^ Z.of_nat (S f))%Z ->
  exists ds, digits_of (S f) n acc = ds ++ acc
             /\ string_forall is_digit ds = true
             /\ ds <> EmptyString
             /\ digits_value 0 ds = n.
Proof.
  induction f as [|f IH]; intros n acc Hn.
  - assert (Hlt : (n < 10)%Z) by (change (2 ^ Z.of_nat 1)%Z with 2%Z in Hn; lia).
    simpl. apply Z.ltb_lt in Hlt. rewrite Hlt. apply Z.ltb_lt in Hlt.
    exists (String (digit_char (n mod 10)) EmptyString).
    destruct (digit_char_is_digit (n mod 10)) as [D1 D2].
    { apply Z.mod_pos_bound. lia. }
    simpl. rewrite D1, D2. repeat split; try discriminate.
    rewrite Z.mod_small; lia.
  - change (digits_of (S (S f)) n acc)
      with (let acc' := String (digit_char (n mod 10)) acc in
            if (n <? 10)%Z then acc' else digits_of (S f) (n / 10) acc').
    cbv zeta.
    destruct (digit_char_is_digit (n mod 10)) as [D1 D2].
    { apply Z.mod_pos_bound. lia. }
    destruct (n <? 10)%Z eqn:Hlt.
    + apply Z.ltb_lt in Hlt.
      exists (String (digit_char (n mod 10)) EmptyString).
      simpl. rewrite D1, D2. repeat split; try discriminate.
      rewrite Z.mod_small; lia.
    + apply Z.ltb_ge in Hlt.
      destruct (IH (n / 10)%Z (String (digit_char (n mod 10)) acc)) as (ds & E & F & N & V).
      { split. apply Z.div_pos; lia.
        apply Z.div_lt_upper_bound; [lia|].
        replace (Z.of_nat (S (S f))) with (Z.succ (Z.of_nat (S f))) in Hn by lia.
        rewrite Z.pow_succ_r in Hn by lia.
        pose proof (Z.pow_pos_nonneg 2 (Z.of_nat (S f))). lia. }
      exists (ds ++ String (digit_char (n mod 10)) EmptyString).
      rewrite E, append_assoc_string. simpl.
      rewrite string_forall_app, F. simpl. rewrite D1.
      repeat split.
      * destruct ds; simpl; discriminate.
      * rewrite digits_value_app, V. cbn [digits_value]. rewrite D2.
        pose proof (Z.div_mod n 10). lia.
Qed.

Lemma span_digits_all ds :
  string_forall is_digit ds = true -> span_digits ds = (ds, EmptyString).
Proof.
  induction ds as [|c ds IH]; simpl; auto.
  intros H. apply andb_true_iff in H. destruct H as [H1 H2].
  rewrite H1, (IH H2). reflexivity.
Qed.

Lemma log2_fuel n : (0 <= n)%Z -> (n < 2 ^ Z.of_nat (S (Z.to_nat (Z.log2 n))))%Z.
Proof.
  intros H. rewrite Nat2Z.inj_succ, Z2Nat.id by apply Z.log2_nonneg.
  destruct (Z.eq_dec n 0) as [->|Hz]; [reflexivity|].
  apply Z.log2_spec. lia.
Qed.

(** What [String] prints for an integer: an optional minus sign and digits
    that read back as its magnitude. *)
Lemma Z_to_string_spec z :
  exists ds, string_forall is_digit ds = true /\ ds <> EmptyString
             /\ digits_value 0 ds = Z.abs z
             /\ Z_to_string z = if (z <? 0)%Z then String "-"%char ds else ds.
Proof.
  unfold Z_to_string. destruct (z <? 0)%Z eqn:Hneg.
  - apply Z.ltb_lt in Hneg.
    destruct (digits_of_spec (Z.to_nat (Z.log2 (- z))) (- z) EmptyString) as (ds & E & F & N & V).
    { split; [lia|]. apply log2_fuel. lia. }
    exists ds. rewrite E. repeat split; auto.
    + rewrite V. lia.
    + f_equal. clear. induction ds; simpl; congruence.
  - apply Z.ltb_ge in Hneg.
    destruct (digits_of_spec (Z.to_nat (Z.log2 z)) z EmptyString) as (ds & E & F & N & V).
    { split; [lia|]. now apply log2_fuel. }
    exists ds. rewrite E. repeat split; auto.
    + rewrite V. lia.
    + clear. induction ds; simpl; congruence.
Qed.

Lemma parseInt_string_Z_to_string z : parseInt_string (Z_to_string z) = NInt z.
Proof.
  destruct (Z_to_string_spec z) as (ds & F & N & V & E). rewrite E.
  destruct ds as [|c ds]; [contradiction|].
  pose proof F as F'. simpl in F'. apply andb_true_iff in F'. destruct F' as [Fc _].
  unfold parseInt_string. destruct (z <? 0)%Z eqn:Hneg.
  - change (skip_spaces (String "-"%char (String c ds))) with (String "-"%char (String c ds)).
    change (read_sign (String "-"%char (String c ds))) with (true, String c ds).
    cbv beta iota. rewrite (span_digits_all _ F). cbv beta iota.
    rewrite V. apply Z.ltb_lt in Hneg. f_equal. lia.
  - simpl skip_spaces. rewrite (digit_not_space _ Fc), (read_sign_digit _ _ Fc).
    cbv beta iota. rewrite (span_digits_all _ F). cbv beta iota.
    rewrite V. apply Z.ltb_ge in Hneg. f_equal. lia.
Qed.

Lemma parseFloat_Z_to_string z : parseFloat (Z_to_string z) = NInt z.
Proof.
  destruct (Z_to_string_spec z) as (ds & F & N & V & E). rewrite E.
  destruct ds as [|c ds]; [contradiction|].
  pose proof F as F'. simpl in F'. apply andb_true_iff in F'. destruct F' as [Fc _].
  unfold parseFloat. destruct (z <? 0)%Z eqn:Hneg.
  - change (skip_spaces (String "-"%char (String c ds))) with (String "-"%char (String c ds)).
    change (read_sign (String "-"%char (String c ds))) with (true, String c ds).
    cbv beta iota zeta. rewrite (span_digits_all _ F). cbv beta iota.
    change (continues_literal EmptyString) with false. cbv beta iota zeta.
    rewrite V. apply Z.ltb_lt in Hneg. f_equal. lia.
  - simpl skip_spaces. rewrite (digit_not_space _ Fc), (read_sign_digit _ _ Fc).
    cbv beta iota zeta. rewrite (span_digits_all _ F). cbv beta iota.
    change (continues_literal EmptyString) with false. cbv beta iota zeta.
    rewrite V. apply Z.ltb_ge in Hneg. f_equal. lia.
Qed.

(** ** Value coercion *)

(** A type name outside a list of literals is different from each of them. *)
Ltac split_orb H :=
  repeat match type of H with
         | (_ || _) = false => apply orb_false_iff in H; destruct H as [? H]
         end.

Lemma unknown_dispatch t text :
  in_strings (VStr t) known_types = false ->
  convert_dispatch (VStr t) text = VStr text.
Proof.
  intros H. unfold in_strings, known_types in H. simpl in H. split_orb H.
  unfold convert_dispatch, in_strings, float_types, integer_types, strict_eq_str. simpl.
  repeat match goal with
         | E : String.eqb t ?l = false |- context [String.eqb t ?l] => rewrite E
         end.
  reflexivity.
Qed.

(** C1 (counterexample): the undeclared type name "frobnicate" is in none
    of the lists of the type table, the kind lookup rejects it, and yet the
    coercion returns the text instead of raising. *)
Lemma convert_frobnicate_returns :
  in_strings (VStr "frobnicate") known_types = false
  /\ returns (_xsdTypeLookup (VStr "frobnicate")) = false
  /\ _convertFromXsdType (VStr "frobnicate") "x" = Return (VStr "x").
Proof. repeat split; reflexivity. Qed.

Lemma inked_not_blank s : inked s = true -> all_whitespace s = false.
Proof.
  unfold all_whitespace. induction s as [|c s IH]; [discriminate|].
  cbn [inked string_forall]. intros H. apply orb_true_iff in H. destruct H as [H | H].
  - apply andb_true_iff in H. destruct H as [_ H]. apply negb_true_iff in H. now rewrite H.
  - rewrite (IH H). apply andb_false_r.
Qed.

(** C1 (amended): for a type name that matches none of the known XSD
    primitive types, the coercion never raises, whatever the text.  A name
    without the nullable mark [?] gives the text back unchanged.  A name
    with the mark gives null on blank text, and on text that is not blank
    what the coercion gives under the name without the mark, which is the
    text itself when that name is unknown too.  Blank is text of ASCII
    white space only, not blank is text with an ASCII character that is no
    white space. *)
Theorem convert_unknown_type_returns_text (t text : string) :
  in_strings (VStr t) known_types = false ->
  returns (_convertFromXsdType (VStr t) text) = true
  /\ (ends_with "?" t = false -> _convertFromXsdType (VStr t) text = Return (VStr text))
  /\ (ends_with "?" t = true -> all_whitespace text = true ->
      _convertFromXsdType (VStr t) text = Return VNull)
  /\ (ends_with "?" t = true -> inked text = true ->
      (ends_with "?" (drop_last t) = false ->
       _convertFromXsdType (VStr t) text = _convertFromXsdType (VStr (drop_last t)) text)
      /\ (in_strings (VStr (drop_last t)) known_types = false ->
          _convertFromXsdType (VStr t) text = Return (VStr text))).
Proof.
  intros H.
  assert (E : _convertFromXsdType (VStr t) text
              = if ends_with "?" t
                then (if all_whitespace text then Return VNull
                      else Return (convert_dispatch (VStr (drop_last t)) text))
                else Return (VStr text)).
  { unfold _convertFromXsdType. destruct (truthy (VStr t)) eqn:T.
    - destruct (ends_with "?" t); auto. now rewrite unknown_dispatch.
    - simpl in T. apply negb_false_iff, String.eqb_eq in T. subst t.
      simpl. now rewrite unknown_dispatch. }
  rewrite E. refine (conj _ (conj _ (conj _ _))).
  - destruct (ends_with "?" t); [destruct (all_whitespace text)|]; reflexivity.
  - now intros ->.
  - now intros -> ->.
  - intros -> K. rewrite (inked_not_blank _ K). split.
    + intros Q. unfold _convertFromXsdType. rewrite Q.
      destruct (truthy (VStr (drop_last t))); reflexivity.
    + intros U. now rewrite (unknown_dispatch _ _ U).
Qed.

Lemma convert_unknown_type_returns_text_witness :
  _convertFromXsdType (VStr "frobnicate") "12" = Return (VStr "12")
  /\ _convertFromXsdType (VStr "frobnicate?") "  " = Return VNull
  /\ _convertFromXsdType (VStr "frobnicate?") " 12" = Return (VStr " 12").
Proof.
  destruct (convert_unknown_type_returns_text "frobnicate" "12" eq_refl) as (_ & P & _).
  destruct (convert_unknown_type_returns_text "frobnicate?" "  " eq_refl) as (_ & _ & B & _).
  destruct (convert_unknown_type_returns_text "frobnicate?" " 12" eq_refl) as (_ & _ & _ & K).
  exact (conj (P eq_refl) (conj (B eq_refl eq_refl) (proj2 (K eq_refl eq_refl) eq_refl))).
Defined.

(** C8 (counterexample): [hexBinary] is of kind [string] in the type table,
    and coercion turns its text into a byte buffer rather than giving the
    text back; and the integer [Number.MAX_VALUE] of the host type prints in
    exponent notation and coerces back to 1. *)
Lemma convert_roundtrip_fails :
  _xsdTypeLookup (VStr "hexBinary") = Return "string"
  /\ _convertFromXsdType (VStr "hexBinary") "00ff" = Return (VBuf Hex "00ff")
  /\ _convertFromXsdType (VStr "hexBinary") "00ff" <> Return (VStr "00ff")
  /\ _convertFromXsdType (VStr "integer") (to_string (VNum NMaxValue)) = Return (VNum (NInt 1)).
Proof. repeat split; try reflexivity. discriminate. Qed.

Ltac each_type H :=
  simpl in H;
  repeat (destruct H as [<- | H]; [try reflexivity|]); try contradiction.

Lemma string_cons_neq c (s : string) : String c s <> s.
Proof.
  intros E. apply (f_equal String.length) in E. cbn [String.length] in E. lia.
Qed.

Lemma strip_minus_spec s :
  match s with String "-"%char r => r | _ => s end
  = match s with
    | String c r => if Ascii.eqb c "-" then r else s
    | EmptyString => s
    end.
Proof.
  destruct s as [|c r]; [reflexivity|].
  destruct c as [[] [] [] [] [] [] [] []]; reflexivity.
Qed.

Lemma span_digits_first s ds rest :
  span_digits s = (ds, rest) -> ds <> EmptyString ->
  exists c s', s = String c s' /\ is_digit c = true.
Proof.
  destruct s as [|c s']; cbn [span_digits].
  - intros [= <- <-]. congruence.
  - destruct (is_digit c) eqn:D.
    + intros _ _. now exists c, s'.
    + intros [= <- <-]. congruence.
Qed.

Lemma printed_exponent_continues e :
  printed_exponent e = true -> continues_literal e = true.
Proof.
  destruct e as [|c r]; [discriminate|].
  destruct c as [[] [] [] [] [] [] [] []]; try discriminate.
  destruct r as [|sign ds]; [discriminate|]. cbn [printed_exponent].
  intros H. apply andb_true_iff in H. destruct H as [H D].
  apply andb_true_iff in H. destruct H as [S N].
  destruct ds as [|d ds]; [discriminate|].
  cbn [string_forall] in D. apply andb_true_iff in D. destruct D as [Dd _].
  assert (R : read_sign (String sign (String d ds)) = (negb (Ascii.eqb sign "+"), String d ds)).
  { apply orb_true_iff in S. destruct S as [S | S]; apply Ascii.eqb_eq in S; subst sign;
      reflexivity. }
  unfold continues_literal. change (Ascii.eqb "e" "e") with true. cbn [orb].
  rewrite R. cbn [snd starts_with_digit]. rewrite Dd. cbn [andb].
  destruct (String.eqb (String d ds) (String sign (String d ds))) eqn:E.
  - apply String.eqb_eq in E. symmetry in E. now apply string_cons_neq in E.
  - apply orb_true_r.
Qed.

Lemma printed_tail_continues rest :
  match rest with
  | String "."%char r1 =>
      let (fs, rest1) := span_digits r1 in
      negb (String.eqb fs EmptyString)
      && (String.eqb rest1 EmptyString || printed_exponent rest1)
  | _ => printed_exponent rest
  end = true ->
  continues_literal rest = true.
Proof.
  destruct rest as [|c r]; [discriminate|].
  destruct c as [[] [] [] [] [] [] [] []];
    try (intros _; reflexivity); apply printed_exponent_continues.
Qed.

(** [parseFloat] reads the whole of a text that writes a number with a
    fraction or an exponent. *)
Lemma parseFloat_printed s : printed_literal s = true -> parseFloat s = NFloatOf s.
Proof.
  unfold printed_literal. rewrite strip_minus_spec.
  destruct s as [|c r]; [discriminate|].
  destruct (Ascii.eqb c "-") eqn:M.
  - apply Ascii.eqb_eq in M. subst c.
    destruct (span_digits r) as [ds rest] eqn:S. intros H.
    apply andb_true_iff in H. destruct H as [N T].
    unfold parseFloat.
    change (skip_spaces (String "-" r)) with (String "-"%char r).
    change (read_sign (String "-" r)) with (true, r).
    cbv beta iota. rewrite S. cbv beta iota.
    rewrite (printed_tail_continues _ T).
    destruct ds; [discriminate N | reflexivity].
  - destruct (span_digits (String c r)) as [ds rest] eqn:S. intros H.
    apply andb_true_iff in H. destruct H as [N T].
    assert (Nd : ds <> EmptyString) by (intros ->; discriminate N).
    destruct (span_digits_first _ _ _ S Nd) as (c' & r' & [= <- <-] & D).
    unfold parseFloat. cbn [skip_spaces]. rewrite (digit_not_space _ D).
    rewrite (read_sign_digit _ _ D). cbv beta iota. rewrite S. cbv beta iota.
    rewrite (printed_tail_continues _ T).
    destruct ds; [discriminate N | reflexivity].
Qed.

(** C8 (amended): coercing the text of a value gives the value back for a
    boolean; under the float types for every number (an integer the host
    holds and prints in plain decimal, that is below 10^21, and a number
    that prints with a fraction or an exponent, [Number.MAX_VALUE] among
    them); under the integer types for every integer the host holds below
    10^21 in magnitude.  Coercion is the identity on the text of the string
    types other than the two binary ones, which decode into a buffer. *)
Theorem convert_roundtrip (T : string) :
  (T = "boolean" ->
     forall b, _convertFromXsdType (VStr T) (to_string (VBool b)) = Return (VBool b))
  /\ (In T float_types ->
     forall v, printed_number v = true ->
       exists w, _convertFromXsdType (VStr T) (to_string (VNum v)) = Return (VNum w)
                 /\ number_to_string w = number_to_string v
                 /\ (v <> NMaxValue -> w = v))
  /\ (In T integer_types ->
     forall z, binary64_integer z = true -> (Z.abs z < 10 ^ 21)%Z ->
       _convertFromXsdType (VStr T) (to_string (VNum (NInt z))) = Return (VNum (NInt z)))
  /\ (In T text_types ->
     forall s, _convertFromXsdType (VStr T) s = Return (VStr s))
  /\ (T = "base64Binary" \/ T = "hexBinary" ->
     forall s, _convertFromXsdType (VStr T) s = Return (VBuf (binary_encoding T) s)).
Proof.
  repeat split.
  - intros -> []; reflexivity.
  - intros H v P.
    assert (E : forall text,
               _convertFromXsdType (VStr T) text = Return (VNum (parseFloat text)))
      by (intros text; each_type H).
    rewrite E. cbn [to_string]. destruct v as [z| | |s]; cbn [number_to_string].
    + exists (NInt z). now rewrite parseFloat_Z_to_string.
    + exists (NFloatOf "1.7976931348623157e+308"). repeat split. congruence.
    + discriminate P.
    + exists (NFloatOf s). cbn [printed_number] in P. now rewrite (parseFloat_printed _ P).
  - intros H z _ _; simpl to_string.
    each_type H;
      (unfold _convertFromXsdType, convert_dispatch; simpl;
       now rewrite parseInt_string_Z_to_string).
  - intros H s. each_type H.
  - intros [-> | ->] s; reflexivity.
Qed.

Lemma convert_roundtrip_witness :
  _convertFromXsdType (VStr "long") (to_string (VNum (NInt (-42)))) = Return (VNum (NInt (-42)))
  /\ (exists w, _convertFromXsdType (VStr "double") (to_string (VNum (NFloatOf "-12.5e+30")))
                = Return (VNum w)
                /\ number_to_string w = "-12.5e+30")
  /\ _convertFromXsdType (VStr "boolean") (to_string (VBool false)) = Return (VBool false)
  /\ _convertFromXsdType (VStr "token") "a b" = Return (VStr "a b")
  /\ _convertFromXsdType (VStr "hexBinary") "00ff" = Return (VBuf Hex "00ff").
Proof.
  destruct (convert_roundtrip "long") as (_ & _ & I & _ & _).
  destruct (convert_roundtrip "double") as (_ & F & _ & _ & _).
  destruct (convert_roundtrip "boolean") as (B & _ & _ & _ & _).
  destruct (convert_roundtrip "token") as (_ & _ & _ & S & _).
  destruct (convert_roundtrip "hexBinary") as (_ & _ & _ & _ & X).
  refine (conj _ (conj _ (conj _ (conj _ _)))).
  - apply I; [simpl; tauto | reflexivity | reflexivity].
  - destruct (F ltac:(simpl; tauto) (NFloatOf "-12.5e+30") eq_refl) as (w & R & P & _).
    exists w. split; [exact R | exact P].
  - apply B. reflexivity.
  - apply S. simpl. tauto.
  - apply (X (or_intror eq_refl)).
Defined.

(** ** The XSD compiler *)

(** C2 (the code at the failing input): [parseInt] prints its argument
    before it reads it, so [Number.MAX_VALUE] is read back as 1; the [age]
    element with [maxOccurs="unbounded"] is therefore compiled like an
    element that occurs once, with no array type, while [maxOccurs="5"]
    gives the array type. *)
Theorem unbounded_maxOccurs_is_one :
  to_string (VNum NMaxValue) = "1.7976931348623157e+308"
  /\ maxOccurs_of (VObj [("$name", VStr "age"); ("$maxOccurs", VStr "unbounded")]) = NInt 1
  /\ generateDefinition 5 (SourceXml age_schema) "xsd" [] false
     = Return (VObj [("age$type", VStr "int"); ("age$type$namespace", VStr "xsd")], None)
  /\ generateDefinition 5 (SourceXml age_schema_5) "xsd" [] false
     = Return (VObj [("age$type", VArr [VStr "int"; VNum (NInt 0); VNum (NInt 5)]);
                     ("age$type$namespace", VStr "xsd")], None).
Proof. repeat split; vm_compute; reflexivity. Qed.

Lemma read_truthy v k : truthy v = true -> read v k = Return (get_prop v k).
Proof. destruct v; simpl; intros; congruence. Qed.

Lemma restriction_lengths_returns inline restriction lengths :
  exists l, restriction_lengths inline restriction lengths = Return l.
Proof.
  unfold restriction_lengths.
  destruct (truthy (get_prop restriction "length")) eqn:L.
  - rewrite (read_truthy _ _ L). simpl. eauto.
  - destruct (truthy (get_prop restriction "maxLength")) eqn:A;
      destruct (truthy (get_prop restriction "minLength")) eqn:B;
      rewrite ?(read_truthy _ _ A), ?(read_truthy _ _ B); simpl; eauto.
Qed.

Section Chains.

Variable recurse : string -> value -> obj -> result value.
Variable typeLookupMap elementNamespaces : obj.
Variable nameKey : string.

Let resolve := resolve_type recurse typeLookupMap elementNamespaces nameKey.
Let target := simple_type_target typeLookupMap elementNamespaces.

(** One simple type uses up one turn of the loop. *)
Lemma resolve_through_simple_type remaining type t lengths result0 :
  target type = Some t ->
  exists lengths',
    resolve (S remaining) type lengths result0 = resolve remaining t lengths' result0.
Proof.
  unfold target, simple_type_target, resolve. cbn [resolve_type].
  remember (get typeLookupMap ("#xmlns:" ++ to_string type)) as sub.
  remember (get typeLookupMap ("#xmlns:" ++ to_string type ++ "$xsdType")) as kind.
  destruct (_namespaceLookup type elementNamespaces) as [[name ns]|e]; [|discriminate].
  cbn [bind].
  destruct (strict_eq_str ns XMLSchema); [discriminate|].
  destruct (truthy sub); [|discriminate].
  destruct (strict_eq_str kind "simpleType") eqn:S1; [|discriminate].
  assert (C : strict_eq_str kind "complexType" || strict_eq_str kind "element" = false).
  { destruct kind; try reflexivity.
    simpl in S1. apply String.eqb_eq in S1. subst. reflexivity. }
  rewrite C. cbn [negb andb].
  destruct (truthy (get_prop sub "restriction")).
  - intros [= <-].
    destruct (restriction_lengths_returns false (get_prop sub "restriction") lengths)
      as [l' ->].
    exists l'. reflexivity.
  - destruct (truthy (get_prop sub "list")); [|discriminate].
    intros [= <-]. exists lengths. reflexivity.
Qed.

Lemma resolve_through_simple_types n : forall remaining type t lengths result0,
  after_simple_types typeLookupMap elementNamespaces n type = Some t ->
  exists lengths',
    resolve (n + remaining) type lengths result0 = resolve remaining t lengths' result0.
Proof.
  induction n as [|n IH]; intros remaining type t lengths result0.
  - intros [= ->]. exists lengths. reflexivity.
  - cbn [after_simple_types]. fold (target type).
    destruct (target type) as [t1|] eqn:H1; [|discriminate].
    intros H.
    destruct (resolve_through_simple_type (n + remaining) _ _ lengths result0 H1) as [l1 E1].
    destruct (IH remaining t1 t l1 result0 H) as [l2 E2].
    exists l2. change (S n + remaining)%nat with (S (n + remaining)).
    now rewrite E1, E2.
Qed.

Lemma resolve_primitive remaining type p lengths result0 :
  primitive_target elementNamespaces type = Some p ->
  resolve (S remaining) type lengths result0
  = Return (mkResolved (set_prop (nameKey ++ "$type") (VStr p) result0) VUndef lengths).
Proof.
  unfold primitive_target, resolve. cbn [resolve_type].
  destruct (_namespaceLookup type elementNamespaces) as [[name ns]|e]; [|discriminate].
  cbn [bind]. destruct (strict_eq_str ns XMLSchema); [|discriminate].
  now intros [= ->].
Qed.

Lemma resolve_complex remaining type kind decl lengths result0 :
  complex_target typeLookupMap elementNamespaces type = Some (kind, decl) ->
  resolve (S remaining) type lengths result0
  = (subResult <- recurse kind decl elementNamespaces ;;
     Return (mkResolved result0 subResult lengths))%js.
Proof.
  unfold complex_target, resolve. cbn [resolve_type].
  remember (get typeLookupMap ("#xmlns:" ++ to_string type)) as sub.
  remember (get typeLookupMap ("#xmlns:" ++ to_string type ++ "$xsdType")) as k.
  destruct (_namespaceLookup type elementNamespaces) as [[name ns]|e]; [|discriminate].
  cbn [bind]. destruct (strict_eq_str ns XMLSchema); [discriminate|].
  destruct (truthy sub); [|discriminate].
  destruct (strict_eq_str k "complexType" || strict_eq_str k "element"); [|discriminate].
  now intros [= <- <-].
Qed.

(** The loop over the type references of an element: what it does with a
    chain of references, by the number [n] of simple types on it. *)
Lemma resolve_chain type lengths result0 :
  (forall t, after_simple_types typeLookupMap elementNamespaces 3 type = Some t ->
     resolve 3 type lengths result0
     = Throw (Error "Type reference nested more than 3 levels"))
  /\ (forall n t p, (n <= 2)%nat ->
        after_simple_types typeLookupMap elementNamespaces n type = Some t ->
        primitive_target elementNamespaces t = Some p ->
        exists lengths',
          resolve 3 type lengths result0
          = Return (mkResolved (set_prop (nameKey ++ "$type") (VStr p) result0) VUndef lengths'))
  /\ (forall n t kind decl, (n <= 2)%nat ->
        after_simple_types typeLookupMap elementNamespaces n type = Some t ->
        complex_target typeLookupMap elementNamespaces t = Some (kind, decl) ->
        exists lengths',
          resolve 3 type lengths result0
          = (subResult <- recurse kind decl elementNamespaces ;;
             Return (mkResolved result0 subResult lengths'))%js).
Proof.
  refine (conj _ (conj _ _)).
  - intros t H.
    destruct (resolve_through_simple_types 3 0 type t lengths result0 H) as [l E].
    change (3 + 0)%nat with 3%nat in E. rewrite E. reflexivity.
  - intros n t p Hn H P.
    destruct (resolve_through_simple_types n (S (2 - n)) type t lengths result0 H) as [l E].
    replace (n + S (2 - n))%nat with 3%nat in E by lia.
    exists l. rewrite E. now apply resolve_primitive.
  - intros n t kind decl Hn H C.
    destruct (resolve_through_simple_types n (S (2 - n)) type t lengths result0 H) as [l E].
    replace (n + S (2 - n))%nat with 3%nat in E by lia.
    exists l. rewrite E. now apply resolve_complex.
Qed.

End Chains.

(** C7 (counterexample): the chain [e -> T0 -> T1 -> T2 -> xs:int] goes
    through three simple type declarations and ends at a primitive type of
    XML Schema, and the element is not compiled. *)
Lemma three_simple_types_raise :
  after_simple_types (lookup_map [("T0", "tns:T1"); ("T1", "tns:T2"); ("T2", "xs:int")])
    chain_aliases 3 (VStr "tns:T0") = Some (VStr "xs:int")
  /\ primitive_target chain_aliases (VStr "xs:int") = Some "int"
  /\ _elementToDefinition 2 "element" chain_element (VStr "urn:t") false false
       (lookup_map [("T0", "tns:T1"); ("T1", "tns:T2"); ("T2", "xs:int")]) chain_aliases
     = Throw (Error "Type reference nested more than 3 levels").
Proof. repeat split; vm_compute; reflexivity. Qed.

(** C7 (amended): the resolution of the type of an element starts with the
    reference of its [type] attribute, or with the base of the simple type
    it declares inline, and follows the references through the simple types
    of the lookup table, two of them at most.  When the chain crosses three
    simple types of the table the compilation of the element raises "Type
    reference nested more than 3 levels", also when the third one names a
    primitive type.  When it crosses at most two and then names a primitive
    type of XML Schema, the loop ends with that primitive as the type of the
    element; when it then names a complex type (or an element) of the lookup
    table, the loop ends by compiling that declaration. *)
Theorem type_reference_depth (fuel : nat) (element targetNamespace : value)
    (elementFormQualified attributeFormQualified : bool)
    (typeLookupMap namespaces elementNamespaces : obj) (type : value) :
  starting_reference element = Some type ->
  in_strings type ["object"; "any"; "empty"] = false ->
  _extractAndAddNamespaces element namespaces = Return elementNamespaces ->
  let compile :=
    _elementToDefinition (S fuel) "element" element targetNamespace
      elementFormQualified attributeFormQualified typeLookupMap namespaces in
  let recurse := fun xsdType' element' namespaces' =>
    _elementToDefinition fuel xsdType' element' targetNamespace
      elementFormQualified attributeFormQualified typeLookupMap namespaces' in
  let nameKey := to_string (get_prop element "$name") in
  let finish := finish_element element targetNamespace elementFormQualified elementNamespaces in
  (forall t, after_simple_types typeLookupMap elementNamespaces 3 type = Some t ->
     compile = Throw (Error "Type reference nested more than 3 levels"))
  /\ (forall n t p, (n <= 2)%nat ->
        after_simple_types typeLookupMap elementNamespaces n type = Some t ->
        primitive_target elementNamespaces t = Some p ->
        exists lengths,
          compile = finish (mkResolved [(nameKey ++ "$type", VStr p)] VUndef lengths))
  /\ (forall n t kind decl, (n <= 2)%nat ->
        after_simple_types typeLookupMap elementNamespaces n type = Some t ->
        complex_target typeLookupMap elementNamespaces t = Some (kind, decl) ->
        exists lengths,
          compile = (subResult <- recurse kind decl elementNamespaces ;;
                     finish (mkResolved [] subResult lengths))%js).
Proof.
  intros Hs Hobj Hns compile recurse nameKey finish.
  assert (E : exists lengths0,
             compile
             = (r1 <- resolve_type recurse typeLookupMap elementNamespaces nameKey 3 type
                        lengths0 [] ;;
                finish r1)%js).
  { unfold compile. cbn [_elementToDefinition]. rewrite Hns. cbn [bind].
    change (String.eqb "element" "element") with true. cbv iota.
    unfold starting_reference in Hs.
    destruct (truthy (get_prop element "$type")) eqn:T1.
    - injection Hs as <-. cbn [bind]. rewrite Hobj. eexists. reflexivity.
    - destruct (truthy (get_prop element "simpleType")) eqn:T2; [|discriminate Hs].
      destruct (truthy (get_prop (get_prop element "simpleType") "restriction")) eqn:T3.
      + injection Hs as <-.
        destruct (restriction_lengths_returns true
                    (get_prop (get_prop element "simpleType") "restriction")
                    (NInt 0, NInt 0)) as [l Hl].
        rewrite Hl. cbn [bind]. rewrite Hobj. exists l. reflexivity.
      + destruct (truthy (get_prop (get_prop element "simpleType") "list")) eqn:T4;
          [|discriminate Hs].
        injection Hs as <-. cbn [bind]. rewrite Hobj. eexists. reflexivity. }
  destruct E as [lengths0 E].
  destruct (resolve_chain recurse typeLookupMap elementNamespaces nameKey type
              lengths0 []) as (Deep & Prim & Cplx).
  refine (conj _ (conj _ _)).
  - intros t H. rewrite E, (Deep t H). reflexivity.
  - intros n t p Hn H P. destruct (Prim n t p Hn H P) as [l R].
    exists l. rewrite E, R. reflexivity.
  - intros n t kind decl Hn H C. destruct (Cplx n t kind decl Hn H C) as [l R].
    exists l. rewrite E, R.
    destruct (recurse kind decl elementNamespaces); reflexivity.
Qed.
Lemma type_reference_depth_witness :
  _elementToDefinition 2 "element" chain_element (VStr "urn:t") false false
    (lookup_map [("T0", "tns:T1"); ("T1", "tns:T2"); ("T2", "xs:int")]) chain_aliases
  = Throw (Error "Type reference nested more than 3 levels")
  /\ (exists lengths,
        _elementToDefinition 2 "element" chain_element (VStr "urn:t") false false
          (lookup_map [("T0", "tns:T1"); ("T1", "xs:int")]) chain_aliases
        = finish_element chain_element (VStr "urn:t") false chain_aliases
            (mkResolved [("e$type", VStr "int")] VUndef lengths))
  /\ _elementToDefinition 2 "element" chain_element (VStr "urn:t") false false
       (lookup_map [("T0", "tns:T1"); ("T1", "xs:int")]) chain_aliases
     = Return (VObj [("e$type", VStr "int")])
  /\ _elementToDefinition 2 "element" (inline_element "e" "tns:T0") (VStr "urn:t") false false
       (lookup_map [("T0", "tns:T1"); ("T1", "tns:T2"); ("T2", "xs:int")]) chain_aliases
     = Throw (Error "Type reference nested more than 3 levels")
  /\ _elementToDefinition 2 "element" (inline_element "e" "tns:T0") (VStr "urn:t") false false
       (lookup_map [("T0", "tns:T1"); ("T1", "xs:int")]) chain_aliases
     = Return (VObj [("e$type", VStr "int")]).
Proof.
  refine (conj _ (conj _ (conj eq_refl (conj _ eq_refl)))).
  - destruct (type_reference_depth 1 chain_element (VStr "urn:t") false false
                (lookup_map [("T0", "tns:T1"); ("T1", "tns:T2"); ("T2", "xs:int")])
                chain_aliases chain_aliases (VStr "tns:T0")
                eq_refl eq_refl eq_refl) as (Deep & _ & _).
    exact (Deep (VStr "xs:int") eq_refl).
  - destruct (type_reference_depth 1 chain_element (VStr "urn:t") false false
                (lookup_map [("T0", "tns:T1"); ("T1", "xs:int")])
                chain_aliases chain_aliases (VStr "tns:T0")
                eq_refl eq_refl eq_refl) as (_ & Prim & _).
    exact (Prim 2%nat (VStr "xs:int") "int" (le_n 2) eq_refl eq_refl).
  - destruct (type_reference_depth 1 (inline_element "e" "tns:T0") (VStr "urn:t") false false
                (lookup_map [("T0", "tns:T1"); ("T1", "tns:T2"); ("T2", "xs:int")])
                chain_aliases chain_aliases (VStr "tns:T0")
                eq_refl eq_refl eq_refl) as (Deep & _ & _).
    exact (Deep (VStr "xs:int") eq_refl).
Defined.

(** The same chains through the whole compiler, from the text of the
    schema: three type references compile, four do not. *)
Example chain_of_four_fails :
  generateDefinition 5 (SourceXml chain3) "xsd" chain_namespaces false
  = Return (VObj [("e$type", VStr "int"); ("e$type$namespace", VStr "tns")], None)
  /\ generateDefinition 5 (SourceXml chain4) "xsd" chain_namespaces false
     = Throw (Error "Type reference nested more than 3 levels").
Proof. split; vm_compute; reflexivity. Qed.

(** ** Sample generation *)

Lemma lookup_forallb (p : string * value -> bool) k v (o : obj) :
  forallb p o = true -> lookup k o = Some v -> exists k', p (k', v) = true /\ k = k'.
Proof.
  induction o as [|[k0 v0] o IH]; simpl; [discriminate|].
  intros H. apply andb_true_iff in H. destruct H as [H1 H2].
  destruct (String.eqb k k0) eqn:E.
  - intros [= ->]. apply String.eqb_eq in E. subst. eauto.
  - auto.
Qed.

(** C10 (counterexample): [generateSample] returns [{root: {}}] when the
    definition holds a string or a number under the root name: the value
    under the root name need not be an object. *)
Lemma generateSample_scalar_root :
  is_object (VStr "abc") = false
  /\ generateSample "root" (VObj [("root", VStr "abc")]) = Return (VObj [("root", VObj [])])
  /\ generateSample "root" (VObj [("root", VNum (NInt 5))]) = Return (VObj [("root", VObj [])]).
Proof. repeat split. Qed.

(** C10 (amended): for a root name that no object inherits,
    [generateSample(rootName, definition)] raises when [rootName] is not a
    key of the definition, instead of returning [{rootName: {}}]; when it
    returns, [definition[rootName]] is there and is neither [undefined] nor
    [null]; it need not be an object, for a string, a number and a boolean
    the call returns [{rootName: {}}]. *)
Theorem generateSample_needs_root (rootName : string) (definition : obj) :
  inherited rootName = false ->
  (lookup rootName definition = None ->
     generateSample rootName (VObj definition)
     = Throw (TypeError "Cannot convert undefined or null to object"))
  /\ (forall v, generateSample rootName (VObj definition) = Return v ->
        exists sub, lookup rootName definition = Some sub /\ is_nullish sub = false)
  /\ (forall sub, lookup rootName definition = Some sub ->
        is_nullish sub = false -> typeof_object sub = false ->
        generateSample rootName (VObj definition) = Return (VObj [(rootName, VObj [])])).
Proof.
  intros _. unfold generateSample, read, get_prop, get. refine (conj _ (conj _ _)).
  - intros ->. reflexivity.
  - intros v. destruct (lookup rootName definition) as [sub|] eqn:L.
    + cbn [bind]. intros H. exists sub. split; [reflexivity|].
      destruct sub; try reflexivity; discriminate.
    + discriminate.
  - intros sub -> N O. destruct sub; try discriminate; reflexivity.
Qed.

Lemma generateSample_needs_root_witness :
  generateSample "nobody" (VObj person_definition)
  = Throw (TypeError "Cannot convert undefined or null to object")
  /\ generateSample "person" (VObj person_definition)
     = Return (VObj [("person", VObj [("name", VStr " "); ("age", VNum (NInt 0))])])
  /\ (exists sub, lookup "person" person_definition = Some sub /\ is_nullish sub = false)
  /\ generateSample "flag" (VObj [("flag", VBool true)]) = Return (VObj [("flag", VObj [])]).
Proof.
  destruct (generateSample_needs_root "nobody" person_definition eq_refl) as (Absent & _ & _).
  destruct (generateSample_needs_root "person" person_definition eq_refl) as (_ & Present & _).
  destruct (generateSample_needs_root "flag" [("flag", VBool true)] eq_refl) as (_ & _ & Scalar).
  exact (conj (Absent eq_refl)
           (conj eq_refl (conj (Present _ eq_refl) (Scalar _ eq_refl eq_refl eq_refl)))).
Defined.

(** ** Definition inference *)

Section ValueInduction.

Variable P : value -> Prop.
Hypothesis HUndef : P VUndef.
Hypothesis HNull : P VNull.
Hypothesis HBool : forall b, P (VBool b).
Hypothesis HNum : forall n, P (VNum n).
Hypothesis HStr : forall s, P (VStr s).
Hypothesis HBuf : forall e s, P (VBuf e s).
Hypothesis HArr : forall xs, Forall P xs -> P (VArr xs).
Hypothesis HObj : forall kvs, Forall (fun kv => P (snd kv)) kvs -> P (VObj kvs).

(** Induction on a value, with the elements of an array and the properties
    of an object as smaller values. *)
Lemma value_ind_nested : forall v, P v.
Proof.
  fix IH 1. intros [ | | b | n | s | e s | xs | kvs ].
  - exact HUndef.
  - exact HNull.
  - exact (HBool b).
  - exact (HNum n).
  - exact (HStr s).
  - exact (HBuf e s).
  - apply HArr.
    refine ((fix all (l : list value) : Forall P l :=
               match l with
               | [] => Forall_nil _
               | x :: l' => Forall_cons _ (IH x) (all l')
               end) xs).
  - apply HObj.
    refine ((fix all (l : list (string * value)) : Forall (fun kv => P (snd kv)) l :=
               match l with
               | [] => Forall_nil _
               | kv :: l' =>
                   @Forall_cons _ (fun kv => P (snd kv)) kv l' (IH (snd kv)) (all l')
               end) kvs).
Qed.

End ValueInduction.

Lemma decorated_spec key :
  decorated key = match index_of_char dollar key with Some (S _) => true | _ => false end.
Proof. reflexivity. Qed.

(** On a tree of strings the callback returns, and leaves of the property
    what [remaining_value] says. *)
Lemma infer_key_remaining guess : forall v key d,
  decorated key = false -> string_tree v = true ->
  exists d', infer_key guess key v d = Return (d', remaining_value v).
Proof.
  induction v as [ | | b | n | s | e s | xs IH | kvs IH ] using value_ind_nested;
    intros key d Hk Hs; try discriminate.
  - exists d. unfold decorated in Hk. simpl.
    destruct (index_of_char dollar key) as [[|m]|]; try discriminate; reflexivity.
  - unfold decorated in Hk. simpl.
    destruct (index_of_char dollar key) as [[|m]|]; try discriminate;
      destruct (String.eqb s EmptyString); eauto.
  - destruct xs as [|e0 rest].
    + unfold decorated in Hk. simpl.
      destruct (index_of_char dollar key) as [[|m]|]; try discriminate; eauto.
    + inversion IH as [|? ? IH0 _]; subst.
      destruct (IH0 key [] Hk Hs) as [sub E].
      unfold decorated in Hk. cbn [infer_key remaining_value].
      destruct (index_of_char dollar key) as [[|m]|] eqn:I; try discriminate;
        rewrite E; cbn [bind]; destruct (remaining_value e0); eauto.
  - assert (Each : forall l, Forall (fun kv => forall key d, decorated key = false ->
                                       string_tree (snd kv) = true ->
                                       exists d', infer_key guess key (snd kv) d
                                                  = Return (d', remaining_value (snd kv))) l ->
                   string_properties l = true ->
                   forall d0, exists d1,
                     (fix each (l : list (string * value)) (d : obj) : result (obj * obj) :=
                        match l with
                        | [] => Return (d, [])
                        | (k, x) :: l' =>
                            (' (d', x') <- infer_key guess k x d ;;
                             ' (d'', l'') <- each l' d' ;;
                             Return (d'', match x' with Some y => (k, y) :: l'' | None => l'' end))%js
                        end) l d0 = Return (d1, remaining_properties l)).
    { induction l as [|[k x] l IHl]; intros F S d0.
      - exists d0. reflexivity.
      - inversion F as [|? ? F0 F1]; subst. cbn [snd] in F0.
        cbn [string_properties] in S. apply andb_true_iff in S. destruct S as [S0 S1].
        cbn [remaining_properties].
        destruct (decorated k) eqn:D.
        + assert (E : infer_key guess k x d0 = Return (set_prop k x d0, Some x)).
          { unfold decorated in D. destruct x; simpl;
              destruct (index_of_char dollar k) as [[|m]|]; try discriminate; reflexivity. }
          rewrite E. cbn [bind].
          destruct (IHl F1 S1 (set_prop k x d0)) as [d1 E1]. rewrite E1. cbn [bind]. eauto.
        + simpl in S0. destruct (F0 k d0 D S0) as [d' E]. rewrite E. cbn [bind].
          destruct (IHl F1 S1 d') as [d1 E1]. rewrite E1. cbn [bind].
          destruct (remaining_value x); eauto. }
    assert (Same : forall l, (fix each (l : list (string * value)) : list (string * value) :=
                      match l with
                      | [] => []
                      | (k, x) :: l' =>
                          if decorated k then (k, x) :: each l'
                          else match remaining_value x with
                               | Some y => (k, y) :: each l'
                               | None => each l'
                               end
                      end) l = remaining_properties l).
    { induction l as [|[k x] l IHl]; simpl; [reflexivity|]. now rewrite IHl. }
    assert (Tree : string_properties kvs = true).
    { clear - Hs. cbn [string_tree] in Hs. induction kvs as [|[k x] l IHl]; auto. }
    destruct (Each kvs IH Tree []) as [d1 E1].
    unfold decorated in Hk. cbn [infer_key remaining_value]. rewrite Same.
    destruct (index_of_char dollar key) as [[|m]|]; try discriminate;
      rewrite E1; cbn [bind]; eauto.
Qed.

Lemma infer_keys_remaining guess : forall o d,
  string_properties o = true ->
  exists d', infer_keys guess o d = Return (d', remaining_properties o).
Proof.
  induction o as [|[k x] o IH]; intros d S.
  - exists d. reflexivity.
  - cbn [string_properties] in S. apply andb_true_iff in S. destruct S as [S0 S1].
    cbn [infer_keys remaining_properties].
    destruct (decorated k) eqn:D.
    + assert (E : infer_key guess k x d = Return (set_prop k x d, Some x)).
      { unfold decorated in D. destruct x; simpl;
          destruct (index_of_char dollar k) as [[|m]|]; try discriminate; reflexivity. }
      rewrite E. cbn [bind]. destruct (IH (set_prop k x d) S1) as [d1 E1].
      rewrite E1. cbn [bind]. eauto.
    + simpl in S0. destruct (infer_key_remaining guess x k d D S0) as [d' E].
      rewrite E. cbn [bind]. destruct (IH d' S1) as [d1 E1]. rewrite E1. cbn [bind].
      destruct (remaining_value x); eauto.
Qed.

(** C9 (counterexample): on the object
    [{a: '', b$c: 'x', d: '12', e: [{f: '1'}, {g: '2'}], h: ['q']}] the call
    returns, and it has deleted [a], bound to the empty string, which the
    claim keeps; it has kept [b$c] and, in the second element of [e], [g],
    both bound to non-empty strings, which the claim deletes. *)
Lemma generateDefinition_leaves :
  exists d o',
    generateDefinition 0 (SourceObject (VObj sample_object)) "xml" [] false
    = Return (d, Some (VObj o'))
    /\ lookup "a" sample_object = Some (VStr EmptyString) /\ lookup "a" o' = None
    /\ lookup "b$c" o' = Some (VStr "x")
    /\ lookup "d" o' = None
    /\ lookup "e" o' = Some (VArr [VObj []; VObj [("g", VStr "2")]]).
Proof. do 2 eexists. repeat split. Qed.

(** C9 (amended): [generateDefinition] in "xml" mode mutates the object it
    infers from.  For an object passed directly, made of strings, objects
    and arrays, the call returns and leaves the object as
    [remaining_properties] describes: every key without a [$] after its
    first character that is bound to a string, empty or not, is deleted, in
    the object itself, in the objects under such keys and in the first
    element of the arrays under them; the keys with such a [$] keep their
    values, and the keys bound to objects and arrays stay. *)
Theorem generateDefinition_xml_mutates (fuel : nat) (o : obj) (namespaces : obj)
    (guessBase64Binary : bool) :
  string_properties o = true ->
  exists d,
    generateDefinition fuel (SourceObject (VObj o)) "xml" namespaces guessBase64Binary
    = Return (d, Some (VObj (remaining_properties o))).
Proof.
  intros S. unfold generateDefinition, _generateDefinitionXml.
  change (String.eqb "xml" "xml") with true. cbv iota.
  destruct (infer_keys_remaining guessBase64Binary o [] S) as [d E].
  rewrite E. cbn [bind]. eauto.
Qed.

Lemma generateDefinition_xml_mutates_witness :
  exists d,
    generateDefinition 0 (SourceObject (VObj sample_object)) "xml" [] false
    = Return (d, Some (VObj [("b$c", VStr "x");
                             ("e", VArr [VObj []; VObj [("g", VStr "2")]]);
                             ("h", VArr [VStr "q"])])).
Proof.
  exact (generateDefinition_xml_mutates 0 sample_object [] false eq_refl).
Defined.

(** ** The parser, one callback at a time *)

Lemma bind_returns {A B} (r : result A) (k : A -> result B) b :
  bind r k = Return b -> exists a, r = Return a /\ k a = Return b.
Proof. destruct r as [a|e]; simpl; [eauto | discriminate]. Qed.

Lemma read_returns v k x : read v k = Return x -> x = get_prop v k.
Proof. destruct v; simpl; congruence. Qed.

Lemma run_app inline conv es1 es2 s :
  run inline conv (es1 ++ es2)%list s
  = bind (run inline conv es1 s) (run inline conv es2).
Proof.
  revert s. induction es1 as [|e es1 IH]; intros s; simpl; [reflexivity|].
  destruct (step inline conv e s); simpl; auto.
Qed.

(** What a [startElement] that returns has built. *)
Lemma startElement_returns inline name attrs s s' :
  startElement inline name attrs s = Return s' ->
  let local := fst (split_name name) in
  let nsAlias := snd (split_name name) in
  let definition := top (definitions s) in
  let definitionAttributes := or_else (get_prop definition (local ++ "$attributes")) (VObj []) in
  let type := get_prop definition (local ++ "$type") in
  let maps := extract_definition_namespaces definitionAttributes (own_keys definitionAttributes)
                (definitionNamespaces s, definitionNamespaceUrls s) in
  let wire := extract_namespaces attrs (namespaces s) in
  let foreign :=
    foreign_namespace nsAlias (get wire (key_of_alias nsAlias))
      (get (fst maps) (to_string (get_prop definition (local ++ "$namespace")))) in
  exists kept,
    filter_attributes definitionAttributes wire (snd maps) attrs = Return kept
    /\ s' = {|
         definitions := or_else (get_prop definition local) (VObj []) :: definitions s;
         currentValue := EmptyString;
         currentObject := next_object inline nsAlias foreign kept;
         currentType := type;
         objects := enclosing_object inline (currentObject s) local nsAlias foreign type kept
                      (next_object inline nsAlias foreign kept) :: objects s;
         names := local :: names s;
         orders := save_order (orders s) (names s)
                     (enclosing_object inline (currentObject s) local nsAlias foreign type kept
                        (next_object inline nsAlias foreign kept)) local;
         namespaces := wire;
         definitionNamespaces := fst maps;
         definitionNamespaceUrls := snd maps
       |}.
Proof.
  unfold startElement. destruct (split_name name) as [local nsAlias]. cbn [fst snd].
  intros H.
  apply bind_returns in H. destruct H as (a & Ha & H). apply read_returns in Ha. subst a.
  apply bind_returns in H. destruct H as (t & Ht & H). apply read_returns in Ht. subst t.
  apply bind_returns in H. destruct H as (kept & Hk & H).
  exists kept. split; [exact Hk|]. now injection H as <-.
Qed.

(** What an [endElement] that returns has built, with an enclosing object
    on the stack. *)
Lemma endElement_returns conv name s s' parent rest :
  objects s = parent :: rest ->
  endElement conv name s = Return s' ->
  let local := fst (split_name name) in
  let back := write_back parent local (currentObject s) in
  let had_children := (List.length (names s) <? List.length (orders s))%nat in
  exists o1 o2,
    (if had_children then
       match orders s with
       | order :: _ => attach_order (tl (definitions s)) back local order
       | [] => Return back
       end
     else Return back) = Return o1
    /\ assign_value conv o1 local (currentType s) (currentValue s) = Return o2
    /\ s' = {|
         definitions := tl (definitions s);
         currentValue := EmptyString;
         currentObject := o2;
         currentType := currentType s;
         objects := rest;
         names := tl (names s);
         orders := if had_children then tl (orders s) else orders s;
         namespaces := namespaces s;
         definitionNamespaces := definitionNamespaces s;
         definitionNamespaceUrls := definitionNamespaceUrls s
       |}.
Proof.
  unfold endElement. intros -> H.
  apply bind_returns in H. destruct H as ([ords o1] & H1 & H).
  apply bind_returns in H. destruct H as (o2 & H2 & H).
  exists o1, o2.
  destruct (List.length (names s) <? List.length (orders s))%nat.
  - destruct (orders s) as [|order orders'].
    + injection H1 as <- <-. repeat split; auto. now injection H as <-.
    + apply bind_returns in H1. destruct H1 as (o & Ho & H1). injection H1 as <- <-.
      repeat split; auto. now injection H as <-.
  - injection H1 as <- <-. repeat split; auto. now injection H as <-.
Qed.

(** ** The order stacks *)

Lemma push_at_last n name (l : list (list string)) o :
  List.length l = n -> push_at n name (l ++ [o])%list = (l ++ [o ++ [name]])%list.
Proof.
  revert n. induction l as [|x l IH]; intros n H.
  - simpl in H. subst n. reflexivity.
  - destruct n as [|n]; [discriminate|]. simpl in H. injection H as H.
    simpl. f_equal. now apply IH.
Qed.

(** The first child of an element opens the entry of its depth. *)
Lemma save_order_first orders names parent name :
  List.length orders = List.length names ->
  save_order orders names parent name = [name] :: orders.
Proof.
  intros H. unfold save_order. rewrite H, Nat.leb_refl. reflexivity.
Qed.

(** A later child is appended to it, unless its property is an array. *)
Lemma save_order_next o orders names parent name :
  List.length orders = List.length names ->
  save_order (o :: orders) names parent name
  = (if negb (isArray (get parent name)) then (o ++ [name])%list else o) :: orders.
Proof.
  intros H. unfold save_order. cbn [List.length]. rewrite H.
  destruct (S (List.length names) <=? List.length names)%nat eqn:E.
  - apply Nat.leb_le in E. lia.
  - destruct (negb (isArray (get parent name))); [|reflexivity].
    cbn [rev]. rewrite push_at_last by (rewrite length_rev; exact H).
    rewrite rev_app_distr, rev_involutive. reflexivity.
Qed.

Lemma save_order_length orders names parent name :
  (List.length names <= List.length orders <= S (List.length names))%nat ->
  List.length (save_order orders names parent name) = S (List.length names)
  /\ skipn 1 (save_order orders names parent name)
     = skipn (List.length orders - List.length names) orders.
Proof.
  intros [H1 H2].
  destruct (Nat.eq_dec (List.length orders) (List.length names)) as [E|E].
  - rewrite save_order_first by exact E. cbn [List.length skipn].
    rewrite E, Nat.sub_diag. split; [lia | reflexivity].
  - destruct orders as [|o orders]; [simpl in *; lia|].
    assert (L : List.length orders = List.length names) by (simpl in *; lia).
    rewrite save_order_next by exact L. cbn [List.length skipn].
    rewrite L. replace (S (List.length names) - List.length names)%nat with 1%nat by lia.
    split; [lia | reflexivity].
Qed.

(** The content of an element leaves the stacks as it found them: the
    names, the definitions and the enclosing objects, and the entries of
    [orders] below its own. *)
Lemma run_balanced inline conv es :
  balanced es -> forall s s',
  orders_fit s -> run inline conv es s = Return s' ->
  names s' = names s /\ definitions s' = definitions s /\ objects s' = objects s
  /\ orders_fit s' /\ open_orders s' = open_orders s.
Proof.
  induction 1 as [|data es B IH|name attrs body es Bb IHb Be IHe]; intros s s' F R.
  - injection R as <-. auto.
  - cbn [run step bind] in R. apply IH in R; [exact R | exact F].
  - cbn [run step] in R. apply bind_returns in R. destruct R as (s1 & R1 & R).
    rewrite run_app in R. apply bind_returns in R. destruct R as (s2 & R2 & R).
    cbn [run step] in R. apply bind_returns in R. destruct R as (s3 & R3 & R).
    destruct (startElement_returns _ _ _ _ _ R1) as (kept & _ & E1).
    set (parent := enclosing_object _ _ _ _ _ _ _ _) in E1.
    destruct (save_order_length (orders s) (names s) parent (fst (split_name name)) F)
      as [L1 K1].
    assert (F1 : orders_fit s1).
    { unfold orders_fit. rewrite E1. cbn [names orders List.length]. lia. }
    destruct (IHb s1 s2 F1 R2) as (N2 & D2 & O2 & F2 & P2).
    assert (O2' : objects s2 = parent :: objects s) by (rewrite O2, E1; reflexivity).
    destruct (endElement_returns _ _ _ _ _ _ O2' R3) as (o1 & o2 & _ & _ & E3).
    assert (N3 : names s3 = names s) by (rewrite E3, N2, E1; reflexivity).
    assert (Ord3 : orders s3 = orders s1).
    { unfold open_orders in P2. unfold orders_fit in F2. rewrite N2 in P2, F2.
      rewrite E3. cbn [orders]. rewrite N2.
      assert (L : List.length (orders s1) = List.length (names s1)).
      { rewrite E1. cbn [names orders List.length]. lia. }
      rewrite L, Nat.sub_diag in P2. cbn [skipn] in P2.
      destruct (List.length (names s1) <? List.length (orders s2))%nat eqn:C.
      - apply Nat.ltb_lt in C.
        replace (List.length (orders s2) - List.length (names s1))%nat with 1%nat in P2 by lia.
        destruct (orders s2); [discriminate P2 || (simpl in *; lia) | exact P2].
      - apply Nat.ltb_ge in C.
        replace (List.length (orders s2) - List.length (names s1))%nat with 0%nat in P2 by lia.
        exact P2. }
    assert (F3 : orders_fit s3).
    { unfold orders_fit. rewrite N3, Ord3, E1. cbn [orders]. lia. }
    destruct (IHe s3 s' F3 R) as (N & D & O & F' & P).
    repeat split; try exact F'.
    + now rewrite N.
    + rewrite D, E3. cbn [definitions]. rewrite D2, E1. reflexivity.
    + rewrite O, E3. reflexivity.
    + destruct F' as [A _]; exact A.
    + destruct F' as [_ A]; exact A.
    + rewrite P. unfold open_orders. rewrite N3, Ord3, E1. cbn [orders].
      rewrite L1. replace (S (List.length (names s)) - List.length (names s))%nat with 1%nat by lia.
      exact K1.
Qed.

(** ** Documents and their events *)

Lemma events_of_element name attributes children :
  events_of (Element name attributes children)
  = StartElement name attributes :: (children_events children ++ [EndElement name])%list.
Proof.
  cbn [events_of]. f_equal.
  induction children as [|c l IH]; [reflexivity|].
  cbn [children_events]. rewrite <- app_assoc. now rewrite <- IH.
Qed.

Lemma children_events_app l1 l2 :
  children_events (l1 ++ l2) = (children_events l1 ++ children_events l2)%list.
Proof.
  induction l1 as [|c l1 IH]; [reflexivity|].
  cbn [app children_events]. now rewrite IH, app_assoc.
Qed.

Lemma children_events_texts ts : children_events (map Text ts) = map TextData ts.
Proof. induction ts as [|t ts IH]; [reflexivity|]. cbn. now rewrite IH. Qed.

Lemma balanced_app es1 es2 : balanced es1 -> balanced es2 -> balanced (es1 ++ es2).
Proof.
  induction 1 as [|data es B IH|name attrs body es Bb IHb Be IHe]; intros B2.
  - exact B2.
  - cbn [app]. constructor. auto.
  - cbn [app]. rewrite <- app_assoc. cbn [app]. constructor; auto.
Qed.

Lemma balanced_texts ts : balanced (map TextData ts).
Proof. induction ts; cbn; constructor; auto. Qed.

(** The events of a node, and of a list of nodes, are balanced. *)
Lemma balanced_events_of : forall n, balanced (events_of n).
Proof.
  fix IH 1. intros [data|name attributes children].
  - repeat constructor.
  - rewrite events_of_element.
    change (StartElement name attributes :: children_events children ++ [EndElement name])%list
      with (StartElement name attributes :: children_events children ++ EndElement name :: [])%list.
    constructor; [|constructor].
    refine ((fix all (l : list node) : balanced (children_events l) :=
               match l with
               | [] => balanced_nil
               | c :: l' => balanced_app _ _ (IH c) (all l')
               end) children).
Qed.

Lemma balanced_children l : balanced (children_events l).
Proof.
  induction l as [|c l IH]; [constructor|].
  cbn [children_events]. apply balanced_app; [apply balanced_events_of | exact IH].
Qed.

(** ** Strings as keys *)

Lemma append_empty_r (s : string) : s ++ EmptyString = s.
Proof. induction s as [|c s IH]; simpl; congruence. Qed.

Lemma append_inj_l (s t u : string) : s ++ t = s ++ u -> t = u.
Proof. induction s as [|c s IH]; simpl; [auto|]. intros [= H]. auto. Qed.

Lemma append_neq_self (s t : string) : t <> EmptyString -> s ++ t <> s.
Proof.
  intros Ht H. rewrite <- (append_empty_r s) in H at 2.
  apply append_inj_l in H. contradiction.
Qed.

(** ** The enclosing object *)

Lemma lookup_attach_other o key type v k :
  k <> key -> lookup k (attach o key type v) = lookup k o.
Proof.
  intros H. unfold attach.
  destruct (hasOwnProperty o key).
  - destruct (get o key); now rewrite lookup_set_other.
  - destruct (isArray type); now rewrite lookup_set_other.
Qed.

Lemma get_attach_new o key type v :
  hasOwnProperty o key = false ->
  get (attach o key type v) key = if isArray type then VArr [v] else v.
Proof.
  intros H. unfold attach. rewrite H.
  destruct (isArray type); now rewrite get_set_same.
Qed.

Lemma get_attach_again o key type v :
  hasOwnProperty o key = true ->
  get (attach o key type v) key
  = match get o key with
    | VArr xs => VArr (xs ++ [v])
    | old => VArr [old; v]
    end.
Proof.
  intros H. unfold attach. rewrite H.
  destruct (get o key); now rewrite get_set_same.
Qed.

Lemma hasOwnProperty_attach_other o key type v k :
  k <> key -> hasOwnProperty (attach o key type v) k = hasOwnProperty o k.
Proof. intros H. unfold hasOwnProperty. now rewrite lookup_attach_other. Qed.

Section Enclosing.

Variable inline : bool.
Variables (o : obj) (name : string) (nsAlias : option string) (foreign : bool).
Variables (type : value) (kept next : obj).

Let marked : obj :=
  if foreign && negb inline
  then set_prop (name ++ "$namespace") (VStr (key_of_alias nsAlias)) o else o.

Let with_attributes : obj :=
  match kept with
  | [] => marked
  | _ => if inline then marked
         else attach marked (name ++ "$attributes") type (VObj kept)
  end.

Lemma enclosing_object_unfold :
  enclosing_object inline o name nsAlias foreign type kept next
  = attach with_attributes name type (VObj next).
Proof. reflexivity. Qed.

Lemma lookup_with_attributes_other k :
  k <> name ++ "$namespace" -> k <> name ++ "$attributes" ->
  lookup k with_attributes = lookup k o.
Proof.
  intros H1 H2. unfold with_attributes, marked.
  assert (M : lookup k (if foreign && negb inline
                        then set_prop (name ++ "$namespace") (VStr (key_of_alias nsAlias)) o
                        else o) = lookup k o).
  { destruct (foreign && negb inline); [now rewrite lookup_set_other | reflexivity]. }
  destruct kept; [exact M|].
  destruct inline; [exact M|]. now rewrite lookup_attach_other.
Qed.

(** [startElement] touches the enclosing object at the name of the element
    and at its three decorated keys only. *)
Lemma lookup_enclosing_other k :
  k <> name -> k <> name ++ "$namespace" -> k <> name ++ "$attributes" ->
  lookup k (enclosing_object inline o name nsAlias foreign type kept next) = lookup k o.
Proof.
  intros H0 H1 H2. rewrite enclosing_object_unfold, lookup_attach_other by exact H0.
  now apply lookup_with_attributes_other.
Qed.

Lemma hasOwnProperty_with_attributes :
  hasOwnProperty with_attributes name = hasOwnProperty o name.
Proof.
  unfold hasOwnProperty. rewrite lookup_with_attributes_other; [reflexivity| |];
    intros E; symmetry in E; revert E; apply append_neq_self; discriminate.
Qed.

Lemma get_with_attributes : get with_attributes name = get o name.
Proof.
  unfold get. rewrite lookup_with_attributes_other; [reflexivity| |];
    intros E; symmetry in E; revert E; apply append_neq_self; discriminate.
Qed.

(** A first occurrence is stored as it is, or in a one-element array when
    the definition types the element as an array. *)
Lemma get_enclosing_new :
  hasOwnProperty o name = false ->
  get (enclosing_object inline o name nsAlias foreign type kept next) name
  = if isArray type then VArr [VObj next] else VObj next.
Proof.
  intros H. rewrite enclosing_object_unfold.
  apply get_attach_new. now rewrite hasOwnProperty_with_attributes.
Qed.

(** A later occurrence is pushed on the array, made of the earlier value
    when that was not an array. *)
Lemma get_enclosing_again :
  hasOwnProperty o name = true ->
  get (enclosing_object inline o name nsAlias foreign type kept next) name
  = match get o name with
    | VArr xs => VArr (xs ++ [VObj next])
    | old => VArr [old; VObj next]
    end.
Proof.
  intros H. rewrite enclosing_object_unfold.
  rewrite get_attach_again by (now rewrite hasOwnProperty_with_attributes).
  now rewrite get_with_attributes.
Qed.

End Enclosing.

Lemma lookup_write_back_other parent name child k :
  k <> name -> lookup k (write_back parent name child) = lookup k parent.
Proof.
  intros H. unfold write_back.
  destruct (lookup name parent) as [[ | | | | | |xs| ]|]; try now rewrite lookup_set_other.
  - destruct xs; [reflexivity | now rewrite lookup_set_other].
  - reflexivity.
Qed.

Lemma lookup_attach_order_other definitions o name order o' k :
  attach_order definitions o name order = Return o' ->
  k <> name ++ "$order" -> lookup k o' = lookup k o.
Proof.
  unfold attach_order. intros H Hk.
  destruct (1 <? List.length order)%nat; [|now injection H as <-].
  apply bind_returns in H. destruct H as (d & _ & H).
  destruct (negb (_compareArray d (VArr (map VStr order)))); injection H as <-;
    [now rewrite lookup_set_other | reflexivity].
Qed.

Lemma lookup_assign_value_other conv o name type text o' k :
  assign_value conv o name type text = Return o' ->
  k <> name -> lookup k o' = lookup k o.
Proof.
  unfold assign_value. intros H Hk.
  destruct (get o name) as [ | | b | n | s | e s | xs | kvs ] eqn:G; cbn [typeof_object] in H;
    try (injection H as <-; reflexivity).
  - apply bind_returns in H. destruct H as (c & C & H). discriminate C.
  - apply bind_returns in H. destruct H as (c & _ & H).
    destruct c as [|c].
    + apply bind_returns in H. destruct H as (cv & _ & H). injection H as <-.
      now rewrite lookup_set_other.
    + destruct (negb (all_whitespace text)); [|now injection H as <-].
      apply bind_returns in H. destruct H as (cv & _ & H).
      apply bind_returns in H. destruct H as (v' & _ & H). injection H as <-.
      now rewrite lookup_set_other.
  - apply bind_returns in H. destruct H as (cv & _ & H).
    apply bind_returns in H. destruct H as (c & _ & H).
    destruct c as [|c].
    + injection H as <-. now rewrite lookup_set_other.
    + apply bind_returns in H. destruct H as (l & _ & H). injection H as <-.
      now rewrite lookup_set_other.
  - apply bind_returns in H. destruct H as (c & _ & H).
    destruct c as [|c].
    + apply bind_returns in H. destruct H as (cv & _ & H). injection H as <-.
      now rewrite lookup_set_other.
    + destruct (negb (all_whitespace text)); [|now injection H as <-].
      apply bind_returns in H. destruct H as (cv & _ & H).
      apply bind_returns in H. destruct H as (v' & _ & H). injection H as <-.
      now rewrite lookup_set_other.
Qed.

(** ** One element, from its start to its end *)

(** The states on the way through an element whose content is balanced. *)
Lemma run_element inline conv name attrs body rest s s' :
  balanced body -> orders_fit s ->
  run inline conv (StartElement name attrs :: body ++ EndElement name :: rest)%list s
  = Return s' ->
  exists s1 s2 s3,
    startElement inline name attrs s = Return s1
    /\ run inline conv body s1 = Return s2
    /\ endElement conv name s2 = Return s3
    /\ run inline conv rest s3 = Return s'
    /\ names s2 = names s1 /\ definitions s2 = definitions s1 /\ objects s2 = objects s1
    /\ names s3 = names s /\ definitions s3 = definitions s /\ objects s3 = objects s
    /\ orders s3 = orders s1 /\ orders_fit s3.
Proof.
  intros Bb F R.
  cbn [run step] in R. apply bind_returns in R. destruct R as (s1 & R1 & R).
  rewrite run_app in R. apply bind_returns in R. destruct R as (s2 & R2 & R).
  cbn [run step] in R. apply bind_returns in R. destruct R as (s3 & R3 & R).
  exists s1, s2, s3.
  destruct (startElement_returns _ _ _ _ _ R1) as (kept & _ & E1).
  set (parent := enclosing_object _ _ _ _ _ _ _ _) in E1.
  destruct (save_order_length (orders s) (names s) parent (fst (split_name name)) F)
    as [L1 K1].
  assert (F1 : orders_fit s1).
  { unfold orders_fit. rewrite E1. cbn [names orders List.length]. lia. }
  destruct (run_balanced inline conv body Bb s1 s2 F1 R2) as (N2 & D2 & O2 & F2 & P2).
  assert (O2' : objects s2 = parent :: objects s) by (rewrite O2, E1; reflexivity).
  destruct (endElement_returns _ _ _ _ _ _ O2' R3) as (o1 & o2 & _ & _ & E3).
  assert (N3 : names s3 = names s) by (rewrite E3, N2, E1; reflexivity).
  assert (Ord3 : orders s3 = orders s1).
  { unfold open_orders in P2. unfold orders_fit in F2. rewrite N2 in P2, F2.
    rewrite E3. cbn [orders]. rewrite N2.
    assert (L : List.length (orders s1) = List.length (names s1)).
    { rewrite E1. cbn [names orders List.length]. lia. }
    rewrite L, Nat.sub_diag in P2. cbn [skipn] in P2.
    destruct (List.length (names s1) <? List.length (orders s2))%nat eqn:C.
    - apply Nat.ltb_lt in C.
      replace (List.length (orders s2) - List.length (names s1))%nat with 1%nat in P2 by lia.
      destruct (orders s2); [discriminate P2 || (simpl in *; lia) | exact P2].
    - apply Nat.ltb_ge in C.
      replace (List.length (orders s2) - List.length (names s1))%nat with 0%nat in P2 by lia.
      exact P2. }
  repeat split; auto.
  - rewrite E3. cbn [definitions]. rewrite D2, E1. reflexivity.
  - rewrite E3. reflexivity.
  - rewrite N3, Ord3, E1. cbn [orders]. lia.
  - rewrite N3, Ord3, E1. cbn [orders]. lia.
Qed.

(** An element leaves the other properties of the enclosing object alone:
    it writes at its name and at its four decorated keys only. *)
Lemma element_keeps_other_keys inline conv name attrs body s s' k :
  balanced body -> orders_fit s ->
  run inline conv (StartElement name attrs :: body ++ [EndElement name])%list s = Return s' ->
  let local := fst (split_name name) in
  k <> local -> k <> local ++ "$namespace" -> k <> local ++ "$attributes" ->
  k <> local ++ "$order" ->
  lookup k (currentObject s') = lookup k (currentObject s).
Proof.
  intros Bb F R local K0 K1 K2 K3.
  destruct (run_element _ _ _ _ _ _ _ _ Bb F R)
    as (s1 & s2 & s3 & R1 & R2 & R3 & R4 & N2 & D2 & O2 & _).
  injection R4 as <-.
  destruct (startElement_returns _ _ _ _ _ R1) as (kept & _ & E1).
  set (parent := enclosing_object _ _ _ _ _ _ _ _) in E1.
  assert (O2' : objects s2 = parent :: objects s) by (rewrite O2, E1; reflexivity).
  destruct (endElement_returns _ _ _ _ _ _ O2' R3) as (o1 & o2 & A & V & E3).
  rewrite E3. cbn [currentObject].
  rewrite (lookup_assign_value_other _ _ _ _ _ _ k V K0).
  assert (B : lookup k o1 = lookup k (write_back parent local (currentObject s2))).
  { fold local in A.
    destruct (List.length (names s2) <? List.length (orders s2))%nat.
    - destruct (orders s2) as [|order ords].
      + now injection A as <-.
      + exact (lookup_attach_order_other _ _ _ _ _ k A K3).
    - now injection A as <-. }
  rewrite B, lookup_write_back_other by exact K0.
  apply lookup_enclosing_other; assumption.
Qed.

(** ** Plain names *)

Lemma plain_name_cons c s :
  plain_name (String c s) = true ->
  Ascii.eqb c colon = false /\ Ascii.eqb c dollar = false /\ plain_name s = true.
Proof.
  unfold plain_name. cbn [string_forall]. intros H.
  apply andb_true_iff in H. destruct H as [H1 H2].
  apply andb_true_iff in H1. destruct H1 as [H0 H1].
  apply negb_true_iff in H0, H1. auto.
Qed.

Lemma split_at_plain name : plain_name name = true -> split_at colon name = [name].
Proof.
  induction name as [|c s IH]; [reflexivity|].
  intros H. apply plain_name_cons in H. destruct H as (H0 & _ & H).
  cbn [split_at]. rewrite H0, (IH H). reflexivity.
Qed.

Lemma split_name_plain name : plain_name name = true -> split_name name = (name, None).
Proof. intros H. unfold split_name. now rewrite split_at_plain. Qed.

Lemma plain_name_no_dollar name : plain_name name = true -> no_dollar name = true.
Proof.
  unfold no_dollar. induction name as [|c s IH]; [reflexivity|].
  intros H. apply plain_name_cons in H. destruct H as (_ & H1 & H).
  cbn [index_of_char]. rewrite Ascii.eqb_sym, H1.
  specialize (IH H). destruct (index_of_char dollar s); [discriminate | reflexivity].
Qed.

Lemma no_dollar_append s t : no_dollar (s ++ String dollar t) = false.
Proof.
  unfold no_dollar. induction s as [|c s IH]; cbn [append index_of_char].
  - now rewrite Ascii.eqb_refl.
  - destruct (Ascii.eqb dollar c); [reflexivity|].
    destruct (index_of_char dollar (s ++ String dollar t)); [reflexivity | discriminate].
Qed.

(** A plain name is none of the decorated keys of any name. *)
Lemma plain_name_not_decorated k name suffix :
  plain_name k = true -> k <> name ++ String dollar suffix.
Proof.
  intros H E. apply plain_name_no_dollar in H. rewrite E, no_dollar_append in H. discriminate.
Qed.

Lemma lookup_inline_attributes_plain k kept o :
  no_dollar k = true -> lookup k (inline_attributes kept o) = lookup k o.
Proof.
  intros H. revert o. induction kept as [|[key v] kept IH]; intros o; [reflexivity|].
  cbn [inline_attributes]. rewrite IH, lookup_set_other; [reflexivity|].
  intros E. rewrite E in H. change ("$" ++ key) with (EmptyString ++ String dollar key) in H.
  rewrite no_dollar_append in H. discriminate.
Qed.

(** The object of an element that starts has no property of a plain name:
    it holds the namespace marker and the inline attributes only. *)
Lemma lookup_next_object_plain inline nsAlias foreign kept k :
  no_dollar k = true -> lookup k (next_object inline nsAlias foreign kept) = None.
Proof.
  intros H. unfold next_object.
  assert (M : lookup k (if foreign && inline
                        then [("namespace$", VStr (key_of_alias nsAlias))] else []) = None).
  { destruct (foreign && inline); [|reflexivity].
    cbn [lookup]. destruct (String.eqb k "namespace$") eqn:E; [|reflexivity].
    apply String.eqb_eq in E. subst k. discriminate H. }
  destruct kept; [exact M|]. destruct inline; [|exact M].
  now rewrite lookup_inline_attributes_plain.
Qed.

(** ** Text *)

Lemma run_texts inline conv ts : forall s s',
  run inline conv (map TextData ts) s = Return s' ->
  names s' = names s /\ definitions s' = definitions s /\ objects s' = objects s
  /\ orders s' = orders s /\ currentObject s' = currentObject s
  /\ currentType s' = currentType s
  /\ currentValue s' = currentValue s ++ fold_right append EmptyString ts.
Proof.
  induction ts as [|t ts IH]; intros s s' R.
  - injection R as <-. cbn [fold_right]. rewrite append_empty_r. auto 10.
  - cbn [map run step bind] in R. apply IH in R.
    destruct R as (N & D & O & Or & C & T & V).
    cbn [text names definitions objects orders currentObject currentType currentValue] in *.
    rewrite V. cbn [fold_right]. rewrite append_assoc_string. auto 10.
Qed.

(** ** One child element, as the enclosing element sees it *)

Lemma element_summary inline conv name attrs children s s' :
  orders_fit s -> plain_name name = true ->
  run inline conv (events_of (Element name attrs children)) s = Return s' ->
  names s' = names s /\ definitions s' = definitions s /\ objects s' = objects s
  /\ orders_fit s'
  /\ (exists parent,
        orders s' = save_order (orders s) (names s) parent name
        /\ isArray (get parent name)
           = hasOwnProperty (currentObject s) name
             || isArray (get_prop (top (definitions s)) (name ++ "$type")))
  /\ (forall k, plain_name k = true -> k <> name ->
        lookup k (currentObject s') = lookup k (currentObject s)).
Proof.
  intros F P R. rewrite events_of_element in R.
  pose proof (balanced_children children) as Bb.
  destruct (run_element _ _ _ _ _ [] _ _ Bb F R)
    as (s1 & s2 & s3 & R1 & R2 & R3 & R4 & N2 & D2 & O2 & N3 & D3 & O3 & Or3 & F3).
  injection R4 as <-.
  destruct (startElement_returns _ _ _ _ _ R1) as (kept & _ & E1).
  rewrite (split_name_plain _ P) in E1. cbn [fst snd] in E1.
  repeat split; try assumption; try (destruct F3; assumption).
  - eexists. split.
    + rewrite Or3, E1. cbn [orders]. reflexivity.
    + destruct (hasOwnProperty (currentObject s) name) eqn:H.
      * rewrite get_enclosing_again by exact H.
        destruct (get (currentObject s) name); reflexivity.
      * rewrite get_enclosing_new by exact H.
        cbn [orb]. destruct (isArray (get_prop (top (definitions s)) (name ++ "$type")));
          reflexivity.
  - intros k Pk Kn.
    pose proof (element_keeps_other_keys _ _ _ _ _ _ _ k Bb F R) as K.
    rewrite (split_name_plain _ P) in K. cbn [fst] in K.
    apply K; [exact Kn | | | ]; now apply plain_name_not_decorated.
Qed.

(** ** Comparing orders *)

Lemma index_map_VStr l i : index (VArr (map VStr l)) i = nth i (map VStr l) VUndef.
Proof. reflexivity. Qed.

Lemma forallb_ext_in {A} (f g : A -> bool) (l : list A) :
  (forall x, In x l -> f x = g x) -> forallb f l = forallb g l.
Proof.
  induction l as [|a l IH]; intros H; [reflexivity|].
  cbn [forallb]. rewrite (H a (or_introl eq_refl)), IH; [reflexivity|].
  intros x Hx. apply H. now right.
Qed.

Lemma forallb_seq_strings (l1 l2 : list string) : forall n,
  List.length l1 = List.length l2 ->
  forallb (fun i => strict_eq (nth (i - n) (map VStr l1) VUndef)
                              (nth (i - n) (map VStr l2) VUndef))
          (seq n (List.length l1)) = true <-> l1 = l2.
Proof.
  revert l2. induction l1 as [|a l1 IH]; intros [|b l2] n L; try discriminate.
  - cbn. tauto.
  - cbn [List.length seq forallb]. injection L as L.
    rewrite andb_true_iff.
    assert (T : forallb (fun i => strict_eq (nth (i - n) (map VStr (a :: l1)) VUndef)
                                            (nth (i - n) (map VStr (b :: l2)) VUndef))
                        (seq (S n) (List.length l1))
                = forallb (fun i => strict_eq (nth (i - S n) (map VStr l1) VUndef)
                                              (nth (i - S n) (map VStr l2) VUndef))
                          (seq (S n) (List.length l1))).
    { apply forallb_ext_in. intros i Hi. apply in_seq in Hi.
      replace (i - n)%nat with (S (i - S n)) by lia. reflexivity. }
    rewrite T, (IH l2 (S n) L), Nat.sub_diag. cbn [map nth strict_eq].
    rewrite String.eqb_eq.
    split; [intros [-> ->]; reflexivity | intros [= -> ->]; auto].
Qed.

(** Two arrays of names compare equal exactly when they hold the same
    names in the same order. *)
Lemma compareArray_strings (l1 l2 : list string) :
  l1 <> [] -> l2 <> [] ->
  _compareArray (VArr (map VStr l1)) (VArr (map VStr l2)) = true <-> l1 = l2.
Proof.
  intros _ _. unfold _compareArray. cbn [truthy negb orb get_prop].
  change (String.eqb "length" "length") with true. cbv iota.
  unfold loose_eq. cbn [is_nullish orb number_eqb]. rewrite !length_map.
  destruct (Z.eqb (Z.of_nat (List.length l1)) (Z.of_nat (List.length l2))) eqn:E.
  - apply Z.eqb_eq in E. apply Nat2Z.inj in E. cbn [negb].
    unfold loop_bound. cbn [to_number]. rewrite Nat2Z.id.
    pose proof (forallb_seq_strings l1 l2 0 E) as H.
    erewrite forallb_ext_in in H; [exact H|].
    intros i _. cbn beta. now rewrite Nat.sub_0_r.
  - cbn [negb]. split; [discriminate|].
    intros ->. rewrite Z.eqb_refl in E. discriminate.
Qed.

(** ** The order of two children *)

Lemma children_events_two t0 first t1 second t2 :
  children_events (two_children t0 first t1 second t2)
  = (map TextData t0 ++ events_of first ++ map TextData t1
       ++ events_of second ++ map TextData t2)%list.
Proof.
  unfold two_children.
  rewrite children_events_app, children_events_texts. f_equal.
  cbn [children_events]. f_equal.
  rewrite children_events_app, children_events_texts. f_equal.
  cbn [children_events]. f_equal. apply children_events_texts.
Qed.

Lemma orders_fit_initial definition : orders_fit (initial_state definition).
Proof. unfold orders_fit. cbn. lia. Qed.

Lemma run_start inline conv name attrs es s :
  run inline conv (StartElement name attrs :: es) s
  = bind (startElement inline name attrs s) (run inline conv es).
Proof. reflexivity. Qed.

Lemma run_end inline conv name s :
  run inline conv [EndElement name] s = endElement conv name s.
Proof. cbn [run step]. destruct (endElement conv name s); reflexivity. Qed.

(** An element [ename] with the children [x] then [y], met in any state of
    the parse: the order that the parser observes, and what becomes of
    [ename$order] on the enclosing object. *)
Lemma two_children_order inline conv ename eattrs x xattrs xbody
    y yattrs ybody t0 t1 t2 s s' :
  orders_fit s ->
  plain_name ename = true -> plain_name x = true -> plain_name y = true -> x <> y ->
  run inline conv
    (events_of (Element ename eattrs
                  (two_children t0 (Element x xattrs xbody) t1 (Element y yattrs ybody) t2)))
    s = Return s' ->
  let definition := top (definitions s) in
  let observed :=
    if isArray (get_prop (or_else (get_prop definition ename) (VObj [])) (y ++ "$type"))
    then [x] else [x; y] in
  lookup (ename ++ "$order") (currentObject s')
  = if (1 <? List.length observed)%nat
       && negb (_compareArray (get_prop definition (ename ++ "$order"))
                              (VArr (map VStr observed)))
    then Some (VArr (map VStr observed))
    else lookup (ename ++ "$order") (currentObject s).
Proof.
  intros F Pe Px Py Dxy R definition observed.
  rewrite events_of_element, children_events_two in R.
  rewrite run_start in R. apply bind_returns in R. destruct R as (s1 & R1 & R).
  rewrite run_app in R. apply bind_returns in R. destruct R as (se & R & Rend).
  rewrite run_app in R. apply bind_returns in R. destruct R as (sa & Ra & R).
  rewrite run_app in R. apply bind_returns in R. destruct R as (sb & Rb & R).
  rewrite run_app in R. apply bind_returns in R. destruct R as (sc & Rc & R).
  rewrite run_app in R. apply bind_returns in R. destruct R as (sd & Rd & Re).
  rewrite run_end in Rend.
  (* the element starts *)
  destruct (startElement_returns _ _ _ _ _ R1) as (kept & _ & E1).
  rewrite (split_name_plain _ Pe) in E1. cbn [fst snd] in E1. fold definition in E1.
  set (dE := or_else (get_prop definition ename) (VObj [])) in *.
  set (X0 := enclosing_object inline (currentObject s) ename None _ _ kept _) in E1.
  set (nextE := next_object inline None _ kept) in E1.
  destruct (save_order_length (orders s) (names s) X0 ename F) as [L1 _].
  assert (N1 : names s1 = ename :: names s) by (rewrite E1; reflexivity).
  assert (O1 : List.length (orders s1) = List.length (names s1)).
  { rewrite E1. cbn [orders names List.length]. exact L1. }
  assert (D1 : definitions s1 = dE :: definitions s) by (rewrite E1; reflexivity).
  assert (B1 : objects s1 = X0 :: objects s) by (rewrite E1; reflexivity).
  assert (C1 : currentObject s1 = nextE) by (rewrite E1; reflexivity).
  (* text, then the first child *)
  destruct (run_texts _ _ _ _ _ Ra) as (Na & Da & Ba & Oa & Ca & _).
  assert (Fa : orders_fit sa).
  { unfold orders_fit. rewrite Na, Oa, O1. lia. }
  destruct (element_summary _ _ _ _ _ _ _ Fa Px Rb)
    as (Nb & Db & Bb & Fb & (px & Ob & _) & Kb).
  rewrite save_order_first in Ob by (rewrite Oa, Na; exact O1).
  (* text, then the second child *)
  destruct (run_texts _ _ _ _ _ Rc) as (Nc & Dc & Bc & Oc & Cc & _).
  assert (Fc : orders_fit sc).
  { unfold orders_fit. rewrite Nc, Oc. exact Fb. }
  destruct (element_summary _ _ _ _ _ _ _ Fc Py Rd)
    as (Nd & Dd & Bd & Fd & (py & Od & Ay) & Kd).
  rewrite Oc, Ob, save_order_next in Od by (rewrite Oa, Nc, Nb, Na; exact O1).
  assert (Hy : hasOwnProperty (currentObject sc) y = false).
  { unfold hasOwnProperty. rewrite Cc, (Kb y Py (not_eq_sym Dxy)), Ca, C1.
    unfold nextE. now rewrite lookup_next_object_plain by now apply plain_name_no_dollar. }
  rewrite Hy, Dc, Db, Da, D1 in Ay. cbn [orb top] in Ay. rewrite Ay in Od.
  assert (Oobs : orders sd = observed :: orders s1).
  { rewrite Od, Oa. unfold observed.
    destruct (isArray (get_prop dE (y ++ "$type"))); reflexivity. }
  (* text, then the element ends *)
  destruct (run_texts _ _ _ _ _ Re) as (Ne & De & Be & Oe & Ce & _).
  assert (Bse : objects se = X0 :: objects s).
  { rewrite Be, Bd, Bc, Bb, Ba, B1. reflexivity. }
  destruct (endElement_returns _ _ _ _ _ _ Bse Rend) as (o1 & o2 & A & V & Ef).
  rewrite (split_name_plain _ Pe) in A, V. cbn [fst] in A, V.
  assert (Had : (List.length (names se) <? List.length (orders se))%nat = true).
  { apply Nat.ltb_lt. rewrite Ne, Nd, Nc, Nb, Na, Oe, Oobs. cbn [List.length]. lia. }
  rewrite Had, Oe, Oobs in A.
  rewrite De, Dd, Dc, Db, Da, D1 in A. cbn [tl] in A.
  rewrite Ef. cbn [currentObject].
  rewrite (lookup_assign_value_other _ _ _ _ _ _ (ename ++ "$order") V)
    by (apply append_neq_self; discriminate).
  assert (Same : lookup (ename ++ "$order") (write_back X0 ename (currentObject se))
                 = lookup (ename ++ "$order") (currentObject s)).
  { rewrite lookup_write_back_other by (apply append_neq_self; discriminate).
    unfold X0. rewrite lookup_enclosing_other; [reflexivity | | |].
    - apply append_neq_self; discriminate.
    - intros E. apply append_inj_l in E. discriminate.
    - intros E. apply append_inj_l in E. discriminate. }
  unfold attach_order in A.
  destruct (1 <? List.length observed)%nat; cbn [andb].
  - apply bind_returns in A. destruct A as (dd & Hdd & A).
    apply read_returns in Hdd. subst dd. fold definition in A.
    destruct (negb (_compareArray (get_prop definition (ename ++ "$order"))
                                  (VArr (map VStr observed))));
      injection A as <-; [apply lookup_set_same | exact Same].
  - injection A as <-. exact Same.
Qed.

(** C4 (counterexample): with [E$order = ["a","b"]] declared and [a] typed
    as an array under [E], the input [<E><b>1</b><a>2</a></E>] presents [b]
    then [a], and the result carries no [E$order]: [a] goes into its array
    and is left out of the observed order, which has one entry. *)
Lemma order_not_attached_for_array_child :
  fromXml b_then_a (VObj order_definition_array) true true
  = Return (VObj [("E", VObj [("b", VStr "1"); ("a", VArr [VStr "2"])])])
  /\ lookup "E$order" [("E", VObj [("b", VStr "1"); ("a", VArr [VStr "2"])])] = None.
Proof. split; reflexivity. Qed.

(** C4 (amended): wherever the parse meets an element [E] that holds the
    children [a] and [b], with any attributes and content and with text
    around them, under a definition that declares [E$order = ["a","b"]]:
    when the input presents [a] then [b], the element leaves the [E$order]
    key of the enclosing object as it was, so that a result whose root is
    [E] carries no such key; when the input presents [b] then [a], and the
    definition does not type [a] as an array under [E], the enclosing
    object carries [E$order == ["b","a"]].  In general, when an element
    ends, the observed order of its children is attached under
    [name$order] on the enclosing object if and only if the element had
    children, the order has more than one entry and [_compareArray] finds
    it different from the declared order (which it does when none is
    declared); two arrays of names compare equal exactly when they are the
    same list.  The names of the document are ordinary, and the enclosing
    object has no property that shadows [hasOwnProperty]. *)
Theorem order_suppression (inline conv : bool) :
  (forall s s' eattrs aattrs abody battrs bbody t0 t1 t2,
     orders_fit s ->
     ordinary_object (currentObject s) = true ->
     ordinary_tree (Element "E" eattrs
        (two_children t0 (Element "a" aattrs abody) t1 (Element "b" battrs bbody) t2)) = true ->
     get_prop (top (definitions s)) "E$order" = VArr [VStr "a"; VStr "b"] ->
     run inline conv
       (events_of (Element "E" eattrs
          (two_children t0 (Element "a" aattrs abody) t1 (Element "b" battrs bbody) t2)))
       s = Return s' ->
     lookup "E$order" (currentObject s') = lookup "E$order" (currentObject s))
  /\ (forall s s' eattrs aattrs abody battrs bbody t0 t1 t2,
        orders_fit s ->
        ordinary_object (currentObject s) = true ->
        ordinary_tree (Element "E" eattrs
           (two_children t0 (Element "b" battrs bbody) t1 (Element "a" aattrs abody) t2))
        = true ->
        get_prop (top (definitions s)) "E$order" = VArr [VStr "a"; VStr "b"] ->
        isArray (get_prop (or_else (get_prop (top (definitions s)) "E") (VObj [])) "a$type")
        = false ->
        run inline conv
          (events_of (Element "E" eattrs
             (two_children t0 (Element "b" battrs bbody) t1 (Element "a" aattrs abody) t2)))
          s = Return s' ->
        lookup "E$order" (currentObject s') = Some (VArr [VStr "b"; VStr "a"]))
  /\ (forall d eattrs aattrs abody battrs bbody t0 t1 t2 r,
        ordinary_tree (Element "E" eattrs
           (two_children t0 (Element "a" aattrs abody) t1 (Element "b" battrs bbody) t2))
        = true ->
        lookup "E$order" d = Some (VArr [VStr "a"; VStr "b"]) ->
        fromXml (Element "E" eattrs
                   (two_children t0 (Element "a" aattrs abody) t1 (Element "b" battrs bbody) t2))
                (VObj d) inline conv = Return r ->
        exists o, r = VObj o /\ lookup "E$order" o = None)
  /\ (forall d eattrs aattrs abody battrs bbody t0 t1 t2 r,
        ordinary_tree (Element "E" eattrs
           (two_children t0 (Element "b" battrs bbody) t1 (Element "a" aattrs abody) t2))
        = true ->
        lookup "E$order" d = Some (VArr [VStr "a"; VStr "b"]) ->
        isArray (get_prop (or_else (get d "E") (VObj [])) "a$type") = false ->
        fromXml (Element "E" eattrs
                   (two_children t0 (Element "b" battrs bbody) t1 (Element "a" aattrs abody) t2))
                (VObj d) inline conv = Return r ->
        exists o, r = VObj o /\ lookup "E$order" o = Some (VArr [VStr "b"; VStr "a"]))
  /\ (forall name s s' parent rest,
        forallb ordinary_key (split_at colon name) = true ->
        objects s = parent :: rest ->
        endElement conv name s = Return s' ->
        let local := fst (split_name name) in
        let observed := hd [] (orders s) in
        let declared := get_prop (top (tl (definitions s))) (local ++ "$order") in
        lookup (local ++ "$order") (currentObject s')
        = if (List.length (names s) <? List.length (orders s))%nat
             && (1 <? List.length observed)%nat
             && negb (_compareArray declared (VArr (map VStr observed)))
          then Some (VArr (map VStr observed))
          else lookup (local ++ "$order") parent)
  /\ (forall l1 l2, l1 <> [] -> l2 <> [] ->
        (_compareArray (VArr (map VStr l1)) (VArr (map VStr l2)) = true <-> l1 = l2))
  /\ (forall l, _compareArray VUndef (VArr (map VStr l)) = false).
Proof.
  assert (AB : forall s s' eattrs aattrs abody battrs bbody t0 t1 t2,
     orders_fit s ->
     get_prop (top (definitions s)) "E$order" = VArr [VStr "a"; VStr "b"] ->
     run inline conv
       (events_of (Element "E" eattrs
          (two_children t0 (Element "a" aattrs abody) t1 (Element "b" battrs bbody) t2)))
       s = Return s' ->
     lookup "E$order" (currentObject s') = lookup "E$order" (currentObject s)).
  { intros s s' eattrs aattrs abody battrs bbody t0 t1 t2 F Hd R.
    pose proof (two_children_order _ _ "E" _ "a" _ _ "b" _ _ _ _ _ _ _ F
                  eq_refl eq_refl eq_refl ltac:(discriminate) R) as L.
    change ("E" ++ "$order") with "E$order" in L. rewrite L, Hd.
    destruct (isArray _); reflexivity. }
  assert (BA : forall s s' eattrs aattrs abody battrs bbody t0 t1 t2,
     orders_fit s ->
     get_prop (top (definitions s)) "E$order" = VArr [VStr "a"; VStr "b"] ->
     isArray (get_prop (or_else (get_prop (top (definitions s)) "E") (VObj [])) "a$type")
     = false ->
     run inline conv
       (events_of (Element "E" eattrs
          (two_children t0 (Element "b" battrs bbody) t1 (Element "a" aattrs abody) t2)))
       s = Return s' ->
     lookup "E$order" (currentObject s') = Some (VArr [VStr "b"; VStr "a"])).
  { intros s s' eattrs aattrs abody battrs bbody t0 t1 t2 F Hd Ha R.
    pose proof (two_children_order _ _ "E" _ "b" _ _ "a" _ _ _ _ _ _ _ F
                  eq_refl eq_refl eq_refl ltac:(discriminate) R) as L.
    change ("E" ++ "$order") with "E$order" in L.
    change ("a" ++ "$type") with "a$type" in L.
    rewrite L, Hd, Ha. reflexivity. }
  assert (Top : forall d, lookup "E$order" d = Some (VArr [VStr "a"; VStr "b"]) ->
                get_prop (top (definitions (initial_state (VObj d)))) "E$order"
                = VArr [VStr "a"; VStr "b"]).
  { intros d Hd. cbn [initial_state definitions top or_else truthy get_prop]. unfold get.
    now rewrite Hd. }
  refine (conj _ (conj _ (conj _ (conj _ (conj _ (conj _ _)))))).
  - intros s s' eattrs aattrs abody battrs bbody t0 t1 t2 F _ _. now apply AB.
  - intros s s' eattrs aattrs abody battrs bbody t0 t1 t2 F _ _. now apply BA.
  - intros d eattrs aattrs abody battrs bbody t0 t1 t2 r _ Hd R.
    unfold fromXml, _fromXml in R. cbv iota in R.
    apply bind_returns in R. destruct R as (sf & R & Rr). injection Rr as <-.
    exists (currentObject sf). split; [reflexivity|].
    rewrite (AB _ _ _ _ _ _ _ _ _ _ (orders_fit_initial _) (Top d Hd) R).
    reflexivity.
  - intros d eattrs aattrs abody battrs bbody t0 t1 t2 r _ Hd Ha R.
    unfold fromXml, _fromXml in R. cbv iota in R.
    apply bind_returns in R. destruct R as (sf & R & Rr). injection Rr as <-.
    exists (currentObject sf). split; [reflexivity|].
    refine (BA _ _ _ _ _ _ _ _ _ _ (orders_fit_initial _) (Top d Hd) _ R).
    cbn [initial_state definitions top or_else truthy get_prop]. exact Ha.
  - intros name s s' parent rest _ O R local observed declared.
    destruct (endElement_returns _ _ _ _ _ _ O R) as (o1 & o2 & A & V & E).
    fold local in A, V. rewrite E. cbn [currentObject].
    rewrite (lookup_assign_value_other _ _ _ _ _ _ (local ++ "$order") V)
      by (apply append_neq_self; discriminate).
    assert (B : lookup (local ++ "$order") (write_back parent local (currentObject s))
                = lookup (local ++ "$order") parent).
    { apply lookup_write_back_other. apply append_neq_self; discriminate. }
    destruct (List.length (names s) <? List.length (orders s))%nat; cbn [andb].
    + unfold observed. destruct (orders s) as [|order ords]; cbn [hd List.length].
      * injection A as <-. exact B.
      * unfold attach_order in A.
        destruct (1 <? List.length order)%nat; cbn [andb].
        -- apply bind_returns in A. destruct A as (dd & Hdd & A).
           apply read_returns in Hdd. subst dd. fold declared in A.
           destruct (negb (_compareArray declared (VArr (map VStr order))));
             injection A as <-; [apply lookup_set_same | exact B].
        -- injection A as <-. exact B.
    + injection A as <-. exact B.
  - exact compareArray_strings.
  - reflexivity.
Qed.

Lemma order_suppression_witness :
  (exists o, fromXml a_then_b (VObj order_definition) true true = Return (VObj o)
             /\ lookup "E$order" o = None)
  /\ (exists o, fromXml b_then_a (VObj order_definition) true true = Return (VObj o)
                /\ lookup "E$order" o = Some (VArr [VStr "b"; VStr "a"]))
  /\ (exists s', run true true (events_of b_then_a) (initial_state (VObj order_definition))
                 = Return s'
                 /\ lookup "E$order" (currentObject s') = Some (VArr [VStr "b"; VStr "a"])).
Proof.
  destruct (order_suppression true true) as (_ & BA & Root & RootBA & _).
  refine (conj _ (conj _ _)).
  - destruct (fromXml a_then_b (VObj order_definition) true true) as [r|e] eqn:R;
      [|vm_compute in R; discriminate R].
    destruct (Root order_definition [] [] [Text "1"] [] [Text "2"] [] [] [] r eq_refl eq_refl R)
      as (o & -> & L).
    exists o. split; [reflexivity | exact L].
  - destruct (fromXml b_then_a (VObj order_definition) true true) as [r|e] eqn:R;
      [|vm_compute in R; discriminate R].
    destruct (RootBA order_definition [] [] [Text "2"] [] [Text "1"] [] [] [] r
                eq_refl eq_refl eq_refl R) as (o & -> & L).
    exists o. split; [reflexivity | exact L].
  - destruct (run true true (events_of b_then_a) (initial_state (VObj order_definition)))
      as [s'|e] eqn:R; [|vm_compute in R; discriminate R].
    exists s'. split; [reflexivity|].
    exact (BA (initial_state (VObj order_definition)) s' [] [] [Text "2"] [] [Text "1"]
              [] [] [] (orders_fit_initial _) eq_refl eq_refl eq_refl eq_refl R).
Defined.

(** ** Elements with text only *)

Lemma read_defined v k : is_nullish v = false -> read v k = Return (get_prop v k).
Proof. destruct v; simpl; intros; congruence. Qed.

Lemma startElement_defined inline name attrs s s' :
  startElement inline name attrs s = Return s' -> is_nullish (top (definitions s)) = false.
Proof.
  unfold startElement. destruct (split_name name) as [local nsAlias].
  intros H. apply bind_returns in H. destruct H as (a & Ha & _).
  destruct (top (definitions s)); try reflexivity; discriminate Ha.
Qed.

Lemma text_text a b s : text b (text a s) = text (a ++ b) s.
Proof. unfold text. cbn. now rewrite append_assoc_string. Qed.

Lemma run_texts_forward inline conv ts s :
  run inline conv (map TextData ts) s = Return (text (fold_right append EmptyString ts) s).
Proof.
  revert s. induction ts as [|t ts IH]; intros s.
  - cbn. unfold text. rewrite append_empty_r. now destruct s.
  - cbn [map run step bind fold_right]. now rewrite IH, text_text.
Qed.

Lemma converted_value_not_array conv type text v :
  converted_value conv type text = Return v -> isArray v = false.
Proof.
  unfold converted_value, _convertFromXsdType, convert_dispatch.
  destruct conv; [|now intros [= <-]].
  repeat match goal with
         | |- context [if ?c then _ else _] => destruct c
         | |- context [match ?t with _ => _ end] => destruct t
         end; intros [= <-]; reflexivity.
Qed.

Lemma write_back_direct parent name child old :
  lookup name parent = Some old -> isArray old = false ->
  write_back parent name child = set_prop name (VObj child) parent.
Proof. unfold write_back. intros -> H. destruct old; try reflexivity. discriminate. Qed.

Lemma write_back_array parent name child pre slot :
  lookup name parent = Some (VArr (pre ++ [slot])) ->
  write_back parent name child = set_prop name (VArr (pre ++ [VObj child])) parent.
Proof.
  unfold write_back. intros ->. rewrite removelast_last.
  destruct pre; reflexivity.
Qed.


Lemma lookup_attach o key type v :
  lookup key (attach o key type v)
  = Some (if hasOwnProperty o key then
            match get o key with
            | VArr xs => VArr (xs ++ [v])
            | old => VArr [old; v]
            end
          else if isArray type then VArr [v] else v).
Proof.
  unfold attach. destruct (hasOwnProperty o key).
  - destruct (get o key); now rewrite lookup_set_same.
  - destruct (isArray type); now rewrite lookup_set_same.
Qed.


(** ** The value an element leaves under its name *)

Lemma get_lookup o k v : get o k = v -> v <> VUndef -> lookup k o = Some v.
Proof. unfold get. destruct (lookup k o); intros; congruence. Qed.

Lemma hasOwnProperty_get o k : get o k <> VUndef -> hasOwnProperty o k = true.
Proof. unfold get, hasOwnProperty. destruct (lookup k o); [reflexivity | congruence]. Qed.

Lemma assign_value_direct conv o x type text o' child :
  get o x = VObj child -> assign_value conv o x type text = Return o' ->
  hasOwnProperty o' x = true /\ isArray (get o' x) = false.
Proof.
  intros G H. unfold assign_value in H. rewrite G in H.
  cbn [typeof_object own_property_count bind] in H.
  destruct (List.length child).
  - apply bind_returns in H. destruct H as (cv & V & H). injection H as <-.
    rewrite hasOwnProperty_set_same, get_set_same. split; [reflexivity|].
    exact (converted_value_not_array _ _ _ _ V).
  - destruct (negb (all_whitespace text)).
    + apply bind_returns in H. destruct H as (cv & V & H).
      cbn [assign_text bind] in H. injection H as <-.
      now rewrite hasOwnProperty_set_same, get_set_same.
    + injection H as <-. rewrite G. split; [|reflexivity].
      apply hasOwnProperty_get. rewrite G. discriminate.
Qed.

Lemma assign_value_single conv o x type text o' child :
  get o x = VArr [VObj child] -> assign_value conv o x type text = Return o' ->
  exists v, get o' x = VArr [v].
Proof.
  intros G H. unfold assign_value in H. rewrite G in H.
  apply bind_returns in H. destruct H as (cv & V & H).
  cbn [last own_property_count bind removelast] in H.
  destruct (List.length child).
  - injection H as <-. rewrite get_set_same. now eexists.
  - cbn [assign_text bind] in H. injection H as <-. rewrite get_set_same. now eexists.
Qed.

(** An element whose name the enclosing object does not hold yet leaves a
    value under its name: a one-element array when the definition types it
    as an array, and a value that is no array otherwise. *)
Lemma element_value inline conv x attrs body s s1 :
  orders_fit s -> plain_name x = true ->
  hasOwnProperty (currentObject s) x = false ->
  run inline conv (events_of (Element x attrs body)) s = Return s1 ->
  hasOwnProperty (currentObject s1) x = true
  /\ (if isArray (get_prop (top (definitions s)) (x ++ "$type"))
      then exists v, get (currentObject s1) x = VArr [v]
      else isArray (get (currentObject s1) x) = false).
Proof.
  intros F P N R. rewrite events_of_element in R.
  pose proof (balanced_children body) as Bb.
  destruct (run_element _ _ _ _ _ [] _ _ Bb F R)
    as (s' & s2 & s3 & R1 & R2 & R3 & R4 & N2 & D2 & O2 & _).
  injection R4 as <-.
  destruct (startElement_returns _ _ _ _ _ R1) as (kept & _ & E1).
  rewrite (split_name_plain _ P) in E1. cbn [fst snd] in E1.
  set (type := get_prop (top (definitions s)) (x ++ "$type")) in *.
  set (parent := enclosing_object _ _ _ _ _ _ _ _) in E1.
  assert (G : get parent x = if isArray type then VArr [VObj (currentObject s')]
                             else VObj (currentObject s')).
  { unfold parent. rewrite get_enclosing_new by exact N. rewrite E1. reflexivity. }
  assert (O2' : objects s2 = parent :: objects s) by (rewrite O2, E1; reflexivity).
  destruct (endElement_returns _ _ _ _ _ _ O2' R3) as (o1 & o2 & A & V & E3).
  rewrite (split_name_plain _ P) in A, V. cbn [fst] in A, V.
  assert (B : get o1 x = get (write_back parent x (currentObject s2)) x).
  { unfold get.
    assert (K : x <> x ++ "$order") by now apply plain_name_not_decorated.
    destruct (List.length (names s2) <? List.length (orders s2))%nat.
    - destruct (orders s2) as [|order ords].
      + now injection A as <-.
      + now rewrite (lookup_attach_order_other _ _ _ _ _ x A K).
    - now injection A as <-. }
  rewrite E3. cbn [currentObject].
  destruct (isArray type).
  - assert (W : get o1 x = VArr [VObj (currentObject s2)]).
    { rewrite B. apply get_lookup in G; [|discriminate].
      rewrite (write_back_array _ _ _ [] _ G). now rewrite get_set_same. }
    destruct (assign_value_single _ _ _ _ _ _ _ W V) as [v Gv].
    split; [|now exists v].
    apply hasOwnProperty_get. rewrite Gv. discriminate.
  - assert (W : get o1 x = VObj (currentObject s2)).
    { rewrite B. apply get_lookup in G; [|discriminate].
      rewrite (write_back_direct _ _ _ _ G eq_refl). now rewrite get_set_same. }
    exact (assign_value_direct _ _ _ _ _ _ _ W V).
Qed.

(** ** The enclosing objects do not steer the parse *)

(** [startElement] reads the definitions, the namespace tables and the
    current object; from a state that agrees on the first two it returns
    too, with the same object for the element. *)
Lemma startElement_both inline name attrs s s1 s' :
  startElement inline name attrs s = Return s1 ->
  definitions s' = definitions s -> namespaces s' = namespaces s ->
  definitionNamespaces s' = definitionNamespaces s ->
  definitionNamespaceUrls s' = definitionNamespaceUrls s ->
  exists nsAlias foreign kept,
    let local := fst (split_name name) in
    let next := next_object inline nsAlias foreign kept in
    let enclose o :=
      enclosing_object inline o local nsAlias foreign (currentType s1) kept next in
    currentObject s1 = next
    /\ (attrs = [] -> snd (split_name name) = None -> next = [])
    /\ currentValue s1 = EmptyString
    /\ currentType s1 = get_prop (top (definitions s)) (local ++ "$type")
    /\ objects s1 = enclose (currentObject s) :: objects s
    /\ names s1 = local :: names s
    /\ orders s1 = save_order (orders s) (names s) (enclose (currentObject s)) local
    /\ startElement inline name attrs s'
       = Return {|
           definitions := definitions s1;
           currentValue := EmptyString;
           currentObject := next;
           currentType := currentType s1;
           objects := enclose (currentObject s') :: objects s';
           names := local :: names s';
           orders := save_order (orders s') (names s') (enclose (currentObject s')) local;
           namespaces := namespaces s1;
           definitionNamespaces := definitionNamespaces s1;
           definitionNamespaceUrls := definitionNamespaceUrls s1
         |}.
Proof.
  intros H D N DN DU. unfold startElement in *. rewrite D, N, DN, DU.
  destruct (split_name name) as [local nsAlias]. cbn [fst snd].
  destruct (read (top (definitions s)) (local ++ "$attributes")) as [a|] eqn:Ra;
    [|discriminate]. cbn [bind] in *.
  destruct (read (top (definitions s)) (local ++ "$type")) as [t|] eqn:Rt;
    [|discriminate]. cbn [bind] in *.
  destruct (filter_attributes _ _ _ attrs) as [kept|] eqn:K; [|discriminate].
  cbn [bind] in *. injection H as <-.
  cbn [currentObject currentValue currentType objects names orders definitions namespaces
       definitionNamespaces definitionNamespaceUrls].
  do 3 eexists. split; [reflexivity|]. split.
  - intros -> ->. cbn [filter_attributes] in K. injection K as <-. reflexivity.
  - split; [reflexivity|]. split; [now apply read_returns in Rt|].
    repeat split; reflexivity.
Qed.

Lemma startElement_with_objects inline name attrs s s1 enclosing :
  startElement inline name attrs s = Return s1 ->
  startElement inline name attrs (with_objects enclosing s)
  = Return (with_objects (hd [] (objects s1) :: enclosing) s1).
Proof.
  intros H.
  destruct (startElement_both _ _ _ _ _ (with_objects enclosing s) H
              eq_refl eq_refl eq_refl eq_refl)
    as (nsAlias & foreign & kept & C & _ & V & T & O & Nm & Or & R).
  rewrite R. unfold with_objects. cbn [currentObject names orders objects].
  rewrite O, Nm, Or, <- C, V. reflexivity.
Qed.

Lemma endElement_value conv name s s' :
  endElement conv name s = Return s' -> currentValue s' = EmptyString.
Proof.
  unfold endElement. destruct (objects s) as [|parent rest].
  - now intros [= <-].
  - intros H. apply bind_returns in H. destruct H as ([ords o] & _ & H).
    apply bind_returns in H. destruct H as (o' & _ & H). now injection H as <-.
Qed.

(** The converse of [endElement_returns]. *)
Lemma endElement_forward conv name s parent rest o1 o2 :
  objects s = parent :: rest ->
  let local := fst (split_name name) in
  let back := write_back parent local (currentObject s) in
  let had_children := (List.length (names s) <? List.length (orders s))%nat in
  (if had_children then
     match orders s with
     | order :: _ => attach_order (tl (definitions s)) back local order
     | [] => Return back
     end
   else Return back) = Return o1 ->
  assign_value conv o1 local (currentType s) (currentValue s) = Return o2 ->
  endElement conv name s
  = Return {|
      definitions := tl (definitions s);
      currentValue := EmptyString;
      currentObject := o2;
      currentType := currentType s;
      objects := rest;
      names := tl (names s);
      orders := if had_children then tl (orders s) else orders s;
      namespaces := namespaces s;
      definitionNamespaces := definitionNamespaces s;
      definitionNamespaceUrls := definitionNamespaceUrls s
    |}.
Proof.
  intros O local back had A V. unfold endElement. rewrite O.
  fold local. fold back. fold had. destruct had.
  - destruct (orders s) as [|order ords].
    + injection A as <-. cbn [bind]. rewrite V. reflexivity.
    + rewrite A. cbn [bind]. rewrite V. reflexivity.
  - injection A as <-. cbn [bind]. rewrite V. reflexivity.
Qed.

Lemma endElement_with_objects conv name s s' parent rest enclosing :
  objects s = parent :: rest ->
  endElement conv name s = Return s' ->
  endElement conv name (with_objects (parent :: enclosing) s)
  = Return (with_objects enclosing s').
Proof.
  intros O H.
  destruct (endElement_returns _ _ _ _ _ _ O H) as (o1 & o2 & A & V & ->).
  now rewrite (endElement_forward conv name (with_objects (parent :: enclosing) s)
                 parent enclosing o1 o2 eq_refl A V).
Qed.

(** The content of an element runs the same way whatever the enclosing
    objects are. *)
Lemma run_rebase inline conv es :
  balanced es -> forall s s' enclosing,
  orders_fit s -> run inline conv es s = Return s' ->
  run inline conv es (with_objects enclosing s) = Return (with_objects enclosing s').
Proof.
  induction 1 as [|data es B IH|name attrs body es Bb IHb Be IHe]; intros s s' O F R.
  - now injection R as <-.
  - cbn [run step bind] in *.
    change (text data (with_objects O s)) with (with_objects O (text data s)).
    exact (IH (text data s) s' O F R).
  - destruct (run_element _ _ _ _ _ _ _ _ Bb F R)
      as (s1 & s2 & s3 & R1 & R2 & R3 & R4 & N2 & D2 & O2 & N3 & D3 & O3 & Or3 & F3).
    destruct (startElement_returns _ _ _ _ _ R1) as (kept & _ & E1).
    set (parent := enclosing_object _ _ _ _ _ _ _ _) in E1.
    destruct (save_order_length (orders s) (names s) parent (fst (split_name name)) F)
      as [L1 _].
    assert (F1 : orders_fit s1).
    { unfold orders_fit. rewrite E1. cbn [names orders List.length]. lia. }
    assert (O1 : objects s1 = parent :: objects s) by (rewrite E1; reflexivity).
    rewrite run_start, (startElement_with_objects _ _ _ _ _ O R1). cbn [bind].
    rewrite run_app, O1. cbn [hd].
    pose proof (IHb _ _ (parent :: O) F1 R2) as Hb. unfold obj in Hb |- *.
    rewrite Hb. cbn [bind run step].
    rewrite O1 in O2.
    pose proof (endElement_with_objects _ _ _ _ _ _ O O2 R3) as He.
    unfold obj in He |- *. rewrite He. cbn [bind].
    exact (IHe _ _ O F3 R4).
Qed.

(** ** The text an element closes with *)

Lemma run_children_text inline conv content : forall s s',
  orders_fit s -> run inline conv (children_events content) s = Return s' ->
  currentValue s' = text_after (currentValue s) content.
Proof.
  induction content as [|c content IH]; intros s s' F R.
  - now injection R as <-.
  - cbn [children_events] in R. rewrite run_app in R.
    apply bind_returns in R. destruct R as (s1 & R1 & R).
    destruct c as [data|name attrs body].
    + cbn [events_of run step bind] in R1. injection R1 as <-.
      exact (IH (text data s) s' F R).
    + rewrite events_of_element in R1.
      destruct (run_element _ _ _ _ _ [] _ _ (balanced_children body) F R1)
        as (sa & sb & sc & _ & _ & R3 & R4 & _ & _ & _ & _ & _ & _ & _ & F3).
      injection R4 as <-. apply endElement_value in R3.
      rewrite (IH _ _ F3 R). cbn [text_after fold_left]. now rewrite R3.
Qed.

(** ** Coercion of number text *)

Lemma convert_integer T text :
  In T integer_types ->
  _convertFromXsdType (VStr T) text = Return (VNum (parseInt_string text)).
Proof. intros H. each_type H. Qed.

Lemma convert_float T text :
  In T float_types ->
  _convertFromXsdType (VStr T) text = Return (VNum (parseFloat text)).
Proof. intros H. each_type H. Qed.

Lemma skip_spaces_app ws s :
  all_whitespace ws = true -> skip_spaces (ws ++ s) = skip_spaces s.
Proof.
  induction ws as [|c ws IH]; [reflexivity|].
  unfold all_whitespace. cbn [string_forall append skip_spaces].
  intros H. apply andb_true_iff in H. destruct H as [H1 H2].
  rewrite H1. now apply IH.
Qed.

Lemma skip_spaces_blank ws : all_whitespace ws = true -> skip_spaces ws = EmptyString.
Proof.
  intros H. rewrite <- (append_empty_r ws). now rewrite skip_spaces_app.
Qed.

Lemma span_digits_app ds rest :
  string_forall is_digit ds = true -> starts_with_digit rest = false ->
  span_digits (ds ++ rest) = (ds, rest).
Proof.
  intros D R. induction ds as [|c ds IH].
  - cbn [append]. destruct rest as [|c r]; [reflexivity|].
    cbn [starts_with_digit] in R. cbn [span_digits]. now rewrite R.
  - cbn [string_forall] in D. apply andb_true_iff in D. destruct D as [D1 D2].
    cbn [append span_digits]. now rewrite D1, (IH D2).
Qed.

(** What [parseInt] reads: white space, a sign, digits; whatever follows
    the digits is not looked at. *)
Lemma parseInt_string_prefix ws sign ds rest :
  all_whitespace ws = true -> sign_text sign = true ->
  string_forall is_digit ds = true -> ds <> EmptyString ->
  starts_with_digit rest = false ->
  parseInt_string (ws ++ sign ++ ds ++ rest)
  = NInt (if String.eqb sign "-" then - digits_value 0 ds else digits_value 0 ds).
Proof.
  intros W S D N R. unfold parseInt_string. rewrite (skip_spaces_app _ _ W).
  destruct ds as [|c ds]; [congruence|].
  pose proof D as D'. cbn [string_forall] in D'. apply andb_true_iff in D'.
  destruct D' as [Dc _].
  unfold sign_text in S. apply orb_true_iff in S. destruct S as [S | S];
    [apply orb_true_iff in S; destruct S as [S | S]|]; apply String.eqb_eq in S; subst sign.
  - cbn [append skip_spaces]. rewrite (digit_not_space _ Dc).
    rewrite (read_sign_digit c (ds ++ rest) Dc). cbv beta iota.
    change (String c (ds ++ rest)) with (String c ds ++ rest).
    now rewrite (span_digits_app _ _ D R).
  - change (skip_spaces ("+" ++ String c ds ++ rest)) with ("+" ++ String c ds ++ rest).
    change (read_sign ("+" ++ String c ds ++ rest)) with (false, String c ds ++ rest).
    cbv beta iota. now rewrite (span_digits_app _ _ D R).
  - change (skip_spaces ("-" ++ String c ds ++ rest)) with ("-" ++ String c ds ++ rest).
    change (read_sign ("-" ++ String c ds ++ rest)) with (true, String c ds ++ rest).
    cbv beta iota. now rewrite (span_digits_app _ _ D R).
Qed.

(** Under every type of the integer family the coercion reads the longest
    integer that starts the text, after white space and a sign, and drops
    what follows it: a fraction, a unit, anything that is no digit.  The
    integer is one that a number holds exactly. *)
Theorem integer_coercion_reads_prefix (T ws sign ds rest : string) :
  In T integer_types ->
  all_whitespace ws = true -> sign_text sign = true ->
  string_forall is_digit ds = true -> ds <> EmptyString ->
  (digits_value 0 ds <= 2 ^ 53)%Z ->
  starts_with_digit rest = false ->
  _convertFromXsdType (VStr T) (ws ++ sign ++ ds ++ rest)
  = Return (VNum (NInt (if String.eqb sign "-" then - digits_value 0 ds
                        else digits_value 0 ds))).
Proof.
  intros H W S D N _ R. rewrite (convert_integer _ _ H).
  now rewrite (parseInt_string_prefix _ _ _ _ W S D N R).
Qed.

Lemma integer_coercion_reads_prefix_witness :
  _convertFromXsdType (VStr "short") " -12.75kg" = Return (VNum (NInt (-12))).
Proof.
  exact (integer_coercion_reads_prefix "short" " " "-" "12" ".75kg"
           ltac:(simpl; tauto) eq_refl eq_refl eq_refl ltac:(discriminate)
           ltac:(vm_compute; discriminate) eq_refl).
Defined.

(** Text that is empty or white space only: not a number under the number
    types, [false] under [boolean], and [null] under every type that ends
    with the nullable mark; the coercion does not raise on it. *)
Theorem blank_text_coercion (T text : string) :
  all_whitespace text = true ->
  (In T integer_types \/ In T float_types ->
     _convertFromXsdType (VStr T) text = Return (VNum NNaN))
  /\ _convertFromXsdType (VStr "boolean") text = Return (VBool false)
  /\ (ends_with "?" T = true -> _convertFromXsdType (VStr T) text = Return VNull).
Proof.
  intros W. split; [|split].
  - intros [H | H].
    + rewrite (convert_integer _ _ H). unfold parseInt_string.
      now rewrite (skip_spaces_blank _ W).
    + rewrite (convert_float _ _ H). unfold parseFloat.
      now rewrite (skip_spaces_blank _ W).
  - unfold _convertFromXsdType, convert_dispatch. cbn.
    destruct (String.eqb text "true") eqn:E; [|reflexivity].
    apply String.eqb_eq in E. subst text. discriminate W.
  - intros E. unfold _convertFromXsdType.
    destruct T as [|c T]; [discriminate E|].
    cbn [truthy String.eqb negb]. now rewrite E, W.
Qed.

Lemma blank_text_coercion_witness :
  _convertFromXsdType (VStr "int") "  " = Return (VNum NNaN)
  /\ _convertFromXsdType (VStr "boolean") "  " = Return (VBool false)
  /\ _convertFromXsdType (VStr "int?") "  " = Return VNull.
Proof.
  destruct (blank_text_coercion "int" "  " eq_refl) as (N & B & _).
  destruct (blank_text_coercion "int?" "  " eq_refl) as (_ & _ & Q).
  refine (conj (N _) (conj B (Q eq_refl))). left. simpl. tauto.
Defined.

(** ** The two type tables *)

Lemma unknown_type_tables t :
  in_strings (VStr t) known_types = false ->
  forall length,
    _xsdTypeLookup (VStr t) = Throw (Error ("Unknown XSD type '" ++ t ++ "'"))
    /\ _generateXsdTypeSample (VStr t) length
       = Throw (Error ("Unknown XSD type '" ++ t ++ "'")).
Proof.
  intros H length. unfold in_strings, known_types in H. simpl in H. split_orb H.
  unfold _xsdTypeLookup, _generateXsdTypeSample, in_strings, string_kinds, number_kinds,
    blank_types, zero_types, strict_eq_str.
  simpl existsb.
  repeat match goal with
         | E : String.eqb t ?l = false |- context [String.eqb t ?l] => rewrite E
         end.
  split; reflexivity.
Qed.

(** The kind table and the sample table know the same type names.  For a
    name of the table the sample is a value of the kind the table gives (the
    empty string for [empty], the empty object for [any]); for anything else
    both raise the same error. *)
Theorem type_tables_agree (type : value) (n : Z) :
  (0 <= n < 2 ^ 28)%Z ->
  match _xsdTypeLookup type with
  | Return kind =>
      exists v, _generateXsdTypeSample type (VNum (NInt n)) = Return v
                /\ (if String.eqb kind "empty" then v = VStr EmptyString
                    else if String.eqb kind "any" then v = VObj []
                    else typeof v = kind)
  | Throw e => _generateXsdTypeSample type (VNum (NInt n)) = Throw e
  end.
Proof.
  intros Hn.
  assert (Hneg : (n <? 0)%Z = false) by (apply Z.ltb_ge; lia).
  destruct type as [ | | b | m | t | e t | xs | kvs ]; try reflexivity.
  destruct (in_strings (VStr t) known_types) eqn:K.
  - unfold in_strings in K. apply existsb_exists in K. destruct K as (k & Hk & E).
    cbn [strict_eq_str] in E. apply String.eqb_eq in E. subst k.
    each_type Hk;
      try (eexists; split; reflexivity);
      (unfold _generateXsdTypeSample; cbn; unfold repeat_space; cbn [to_number];
       rewrite Hneg; eexists; split; reflexivity).
  - destruct (unknown_type_tables t K (VNum (NInt n))) as [-> ->]. reflexivity.
Qed.

Lemma type_tables_agree_witness :
  exists v, _generateXsdTypeSample (VStr "token") (VNum (NInt 3)) = Return v
            /\ typeof v = "string".
Proof.
  exact (type_tables_agree (VStr "token") 3 ltac:(lia)).
Defined.

(** ** The types that inference writes *)

(** Every type that inference gives to a leaf is a name of the type table,
    and without the option [guessBase64Binary] it is never one of the two
    binary types. *)
Theorem guess_type_known (guessBase64Binary : bool) (s : string) :
  returns (_xsdTypeLookup (VStr (guess_type guessBase64Binary s))) = true
  /\ (guessBase64Binary = false ->
      In (guess_type guessBase64Binary s) ["boolean"; "int"; "float"; "string"]).
Proof.
  unfold guess_type.
  destruct (String.eqb s "true" || String.eqb s "false");
    [split; [reflexivity | intros _; simpl; tauto]|].
  destruct (all_digits s); [split; [reflexivity | intros _; simpl; tauto]|].
  destruct (digits_dot_digits s); [split; [reflexivity | intros _; simpl; tauto]|].
  destruct guessBase64Binary; cbn [andb].
  - destruct (looks_hex s); [split; [reflexivity | discriminate]|].
    destruct (looks_base64 s); split; try reflexivity; discriminate.
  - split; [reflexivity | intros _; simpl; tauto].
Qed.

Lemma guess_type_known_witness :
  In (guess_type false "deadbeef") ["boolean"; "int"; "float"; "string"].
Proof.
  exact (proj2 (guess_type_known false "deadbeef") eq_refl).
Defined.

Lemma digits_dot_digits_shape s :
  digits_dot_digits s = true ->
  exists a c b, s = String c a ++ String "."%char b /\ is_digit c = true
                /\ string_forall is_digit a = true.
Proof.
  unfold digits_dot_digits.
  assert (G : forall s, exists r, span_digits s = (fst (span_digits s), r)
                                  /\ s = fst (span_digits s) ++ r
                                  /\ string_forall is_digit (fst (span_digits s)) = true).
  { clear. induction s as [|c s IH]; [exists EmptyString; repeat split|].
    cbn [span_digits]. destruct (is_digit c) eqn:D.
    - destruct IH as (r & E & S & F). rewrite E. cbn [fst].
      exists r. cbn [append string_forall]. rewrite D, F, <- S. repeat split.
    - exists (String c s). repeat split. }
  destruct (G s) as (r & E & S & F). rewrite E.
  destruct r as [|d b]; [discriminate|].
  destruct d as [[] [] [] [] [] [] [] []]; try discriminate.
  intros H. apply andb_true_iff in H. destruct H as [H _].
  destruct (fst (span_digits s)) as [|c a]; [discriminate H|].
  cbn [string_forall] in F. apply andb_true_iff in F. destruct F as [Fc Fa].
  exists a, c, b. repeat split; assumption.
Qed.

(** The type that inference gives to a leaf reads the leaf's own text: as
    its boolean, as the integer its digits write (when a number holds it
    exactly), as the number that [parseFloat] reads from its decimal
    literal, and as the text itself. *)
Theorem inferred_type_reads_value (s : string) :
  s <> EmptyString ->
  (all_digits s = true -> (digits_value 0 s <= 2 ^ 53)%Z) ->
  _convertFromXsdType (VStr (guess_type false s)) s
  = Return (if String.eqb s "true" || String.eqb s "false" then VBool (String.eqb s "true")
            else if all_digits s then VNum (NInt (digits_value 0 s))
            else if digits_dot_digits s then VNum (NFloatOf s)
            else VStr s).
Proof.
  intros N _. unfold guess_type.
  destruct (String.eqb s "true" || String.eqb s "false"); [reflexivity|].
  destruct (all_digits s) eqn:A.
  - unfold all_digits in A. apply andb_true_iff in A. destruct A as [_ A].
    rewrite (convert_integer "int" s) by (simpl; tauto).
    pose proof (parseInt_string_prefix EmptyString EmptyString s EmptyString
                  eq_refl eq_refl A N eq_refl) as P.
    cbn [append] in P. rewrite append_empty_r in P. rewrite P. reflexivity.
  - destruct (digits_dot_digits s) eqn:F; [|reflexivity].
    rewrite (convert_float "float" s) by (simpl; tauto).
    destruct (digits_dot_digits_shape s F) as (a & c & b & -> & Dc & Da).
    unfold parseFloat. cbn [append skip_spaces]. rewrite (digit_not_space _ Dc).
    rewrite (read_sign_digit c _ Dc). cbv beta iota.
    change (String c (a ++ String "." b)) with (String c a ++ String "." b).
    rewrite (span_digits_app (String c a) (String "." b)); [reflexivity| |reflexivity].
    cbn [string_forall]. now rewrite Dc, Da.
Qed.

Lemma inferred_type_reads_value_witness :
  _convertFromXsdType (VStr (guess_type false "0042")) "0042" = Return (VNum (NInt 42)).
Proof.
  exact (inferred_type_reads_value "0042" ltac:(discriminate)
           (fun _ => ltac:(vm_compute; discriminate))).
Defined.

(** ** Namespace declarations of a schema *)

Lemma lookup_in_keys k (o : obj) : lookup k o = None <-> ~ In k (keys o).
Proof.
  induction o as [|[k' v] o IH]; [simpl; tauto|].
  cbn [lookup keys map fst]. destruct (String.eqb k k') eqn:E.
  - apply String.eqb_eq in E. subst. split; [discriminate | intros H; exfalso; apply H; now left].
  - apply String.eqb_neq in E. rewrite IH. fold (keys o). split.
    + intros H [H1 | H1]; [congruence | contradiction].
    + intros H H1. apply H. now right.
Qed.

Lemma match_dollar_xmlns_inv key k : match_dollar_xmlns key = Some k -> key = "$" ++ k.
Proof.
  unfold match_dollar_xmlns. destruct key as [|c rest]; [discriminate|].
  destruct c as [[] [] [] [] [] [] [] []]; try discriminate.
  destruct (match_xmlns rest); [|discriminate]. now intros [= <-].
Qed.

(** The loop of [_extractAndAddNamespaces] at one alias: a declaration of
    the element wins over what the table held. *)
Lemma extract_lookup (element : obj) alias : forall ks acc,
  NoDup ks -> match_xmlns ("xmlns:" ++ alias) = Some alias ->
  lookup ("xmlns:" ++ alias)
    (fold_left (fun namespaces key =>
                  match match_dollar_xmlns key with
                  | Some k => set_prop k (get_prop (VObj element) key) namespaces
                  | None => namespaces
                  end) ks acc)
  = if in_dec string_dec ("$xmlns:" ++ alias) ks
    then Some (get element ("$xmlns:" ++ alias))
    else lookup ("xmlns:" ++ alias) acc.
Proof.
  intros ks. induction ks as [|key ks IH]; intros acc N M; [reflexivity|].
  inversion N as [|? ? Hnot N']; subst. cbn [fold_left].
  rewrite (IH _ N' M).
  destruct (in_dec string_dec ("$xmlns:" ++ alias) ks) as [I | I].
  - destruct (in_dec string_dec ("$xmlns:" ++ alias) (key :: ks)) as [_ | J];
      [reflexivity | exfalso; apply J; now right].
  - destruct (in_dec string_dec ("$xmlns:" ++ alias) (key :: ks)) as [[J | J] | J].
    + subst key. change ("$xmlns:" ++ alias) with (String "$" ("xmlns:" ++ alias)).
      unfold match_dollar_xmlns. rewrite M. now rewrite lookup_set_same.
    + contradiction.
    + destruct (match_dollar_xmlns key) as [k|] eqn:K; [|reflexivity].
      apply match_dollar_xmlns_inv in K. rewrite lookup_set_other; [reflexivity|].
      intros E. apply J. left. rewrite K, <- E. reflexivity.
Qed.

Lemma split_at_colon_free s :
  index_of_char colon s = None -> split_at colon s = [s].
Proof.
  induction s as [|c s IH]; [reflexivity|].
  cbn [index_of_char split_at]. rewrite Ascii.eqb_sym.
  destruct (Ascii.eqb c colon); [discriminate|].
  destruct (index_of_char colon s); [discriminate|]. intros _. now rewrite IH.
Qed.

Lemma split_at_qualified a local :
  index_of_char colon a = None ->
  split_at colon (a ++ ":" ++ local) = a :: split_at colon local.
Proof.
  induction a as [|c a IH]; [reflexivity|].
  cbn [index_of_char append split_at]. rewrite Ascii.eqb_sym.
  destruct (Ascii.eqb c colon); [discriminate|].
  destruct (index_of_char colon a); [discriminate|]. intros _.
  cbn [append] in IH. now rewrite IH.
Qed.

(** A qualified name [alias:local] is resolved with the namespace table
    that [_extractAndAddNamespaces] builds for an element: to the namespace
    the element declares for the alias, else to the one the table it starts
    from holds, and when neither has the alias the lookup raises its error.
    A name without an alias is in no namespace. *)
Theorem namespace_lookup_after_extract (element original : obj) (alias local : string) :
  NoDup (keys element) -> lookup "hasOwnProperty" original = None ->
  index_of_char colon alias = None -> index_of_char colon local = None ->
  match_xmlns ("xmlns:" ++ alias) = Some alias ->
  exists namespaces,
    _extractAndAddNamespaces (VObj element) original = Return namespaces
    /\ _namespaceLookup (VStr (alias ++ ":" ++ local)) namespaces
       = match lookup ("$xmlns:" ++ alias) element, lookup ("xmlns:" ++ alias) original with
         | Some url, _ => Return (local, url)
         | None, Some url => Return (local, url)
         | None, None =>
             Throw (Error ("Could not find namespace alias '" ++ (alias ++ ":" ++ local)
                           ++ "'"))
         end
    /\ _namespaceLookup (VStr local) namespaces = Return (local, VStr EmptyString).
Proof.
  intros N _ A L M. eexists. split; [reflexivity|]. split.
  - unfold _namespaceLookup. rewrite (split_at_qualified _ _ A), (split_at_colon_free _ L).
    unfold hasOwnProperty, get. cbn [own_keys]. rewrite (extract_lookup _ _ _ _ N M).
    destruct (in_dec string_dec ("$xmlns:" ++ alias) (keys element)) as [I | I].
    + destruct (lookup ("$xmlns:" ++ alias) element) as [url|] eqn:E.
      * unfold get. now rewrite E.
      * apply lookup_in_keys in E. contradiction.
    + apply lookup_in_keys in I. rewrite I.
      destruct (lookup ("xmlns:" ++ alias) original); reflexivity.
  - unfold _namespaceLookup. now rewrite (split_at_colon_free _ L).
Qed.

Lemma namespace_lookup_after_extract_witness :
  exists namespaces,
    _extractAndAddNamespaces
      (VObj [("$name", VStr "age"); ("$xmlns:t", VStr "urn:t")]) [("xmlns:xs", VStr XMLSchema)]
    = Return namespaces
    /\ _namespaceLookup (VStr "t:Age") namespaces = Return ("Age", VStr "urn:t")
    /\ _namespaceLookup (VStr "Age") namespaces = Return ("Age", VStr EmptyString).
Proof.
  refine (namespace_lookup_after_extract
            [("$name", VStr "age"); ("$xmlns:t", VStr "urn:t")] [("xmlns:xs", VStr XMLSchema)]
            "t" "Age" _ eq_refl eq_refl eq_refl eq_refl).
  repeat constructor; simpl; intuition discriminate.
Defined.

(** ** The target namespace of a schema *)

Lemma reverse_lookup_none t : forall (table : obj) (init : obj),
  Forall (fun kv => exists u, snd kv = VStr u /\ u <> t) table ->
  lookup t (fold_left (fun m kv => set_prop (to_string (snd kv)) (VStr (fst kv)) m)
                      table init)
  = lookup t init.
Proof.
  induction table as [|[k v] l IH]; intros init F; [reflexivity|].
  inversion F as [|? ? (u & E & Hu) F']; subst. cbn [fold_left fst snd] in *. subst v.
  rewrite (IH _ F'). cbn [to_string]. now rewrite lookup_set_other.
Qed.

(** A schema whose target namespace no alias of the [namespaces] argument
    stands for cannot be compiled: [_generateDefinitionXsd] raises before it
    looks at any declaration. *)
Theorem target_namespace_needs_alias (fuel : nat) (schema namespaces : obj) (t : string) :
  get schema "$targetNamespace" = VStr t ->
  t <> EmptyString -> t <> XMLSchema -> ordinary_key t = true ->
  Forall (fun kv => exists u, snd kv = VStr u /\ u <> t) namespaces ->
  _generateDefinitionXsd fuel (VObj schema) namespaces
  = Throw (Error ("Unable to find alias for target namespace: '" ++ t ++ "'")).
Proof.
  intros G N X _ F. unfold _generateDefinitionXsd.
  cbn [read get_prop bind]. rewrite G.
  assert (T : truthy (VStr t) = true).
  { cbn [truthy]. apply negb_true_iff. now apply String.eqb_neq. }
  rewrite T. cbn [to_string]. unfold get at 1.
  rewrite (reverse_lookup_none t namespaces _ F).
  cbn [lookup]. apply String.eqb_neq in X. rewrite X. reflexivity.
Qed.

Lemma target_namespace_needs_alias_witness :
  _generateDefinitionXsd 5 (VObj [("$targetNamespace", VStr "urn:t"); ("element", VArr [])])
    [("xmlns:o", VStr "urn:other")]
  = Throw (Error "Unable to find alias for target namespace: 'urn:t'").
Proof.
  refine (target_namespace_needs_alias 5
            [("$targetNamespace", VStr "urn:t"); ("element", VArr [])]
            [("xmlns:o", VStr "urn:other")] "urn:t" eq_refl _ _ eq_refl _);
    try discriminate.
  repeat constructor. exists "urn:other". split; [reflexivity | discriminate].
Defined.

(** ** Elements of a primitive type *)

Lemma Z_to_string_first z :
  exists c s, Z_to_string z = String c s
              /\ (is_digit c = true \/ c = "-"%char).
Proof.
  destruct (Z_to_string_spec z) as (ds & D & N & _ & E). rewrite E.
  destruct (z <? 0)%Z.
  - exists "-"%char, ds. auto.
  - destruct ds as [|c s]; [congruence|]. exists c, s. split; [reflexivity|].
    left. cbn [string_forall] in D. now apply andb_true_iff in D.
Qed.

Lemma Z_to_string_truthy z : truthy (VStr (Z_to_string z)) = true.
Proof. destruct (Z_to_string_first z) as (c & s & -> & _). reflexivity. Qed.

Lemma Z_to_string_not_unbounded z : String.eqb (Z_to_string z) "unbounded" = false.
Proof.
  destruct (Z_to_string_first z) as (c & s & -> & [D | ->]); [|reflexivity].
  cbn [String.eqb]. destruct (Ascii.eqb c "u") eqn:E; [|reflexivity].
  apply Ascii.eqb_eq in E. subst c. discriminate D.
Qed.

Lemma typed_element_reads name type minOccurs maxOccurs :
  let element := typed_element name type minOccurs maxOccurs in
  get_prop element "$name" = VStr name
  /\ get_prop element "$type" = VStr type
  /\ maxOccurs_of element = NInt (match maxOccurs with Some m => m | None => 0 end)
  /\ minOccurs_of element = NInt (match minOccurs with Some k => k | None => 0 end)
  /\ forall table, _extractAndAddNamespaces element table = Return table.
Proof.
  unfold maxOccurs_of, minOccurs_of.
  destruct minOccurs as [k|], maxOccurs as [m|]; cbn [typed_element occurs_attribute app];
    (split; [reflexivity|]); (split; [reflexivity|]).
  - change (get_prop _ "$maxOccurs") with (VStr (Z_to_string m)).
    change (get_prop _ "$minOccurs") with (VStr (Z_to_string k)).
    cbn [strict_eq_str]. rewrite Z_to_string_not_unbounded.
    unfold or_else. rewrite !Z_to_string_truthy. unfold parseInt. cbn [to_string].
    rewrite !parseInt_string_Z_to_string. repeat split; reflexivity.
  - change (get_prop _ "$maxOccurs") with VUndef.
    change (get_prop _ "$minOccurs") with (VStr (Z_to_string k)).
    unfold or_else. rewrite Z_to_string_truthy. unfold parseInt. cbn [to_string].
    rewrite parseInt_string_Z_to_string. repeat split; reflexivity.
  - change (get_prop _ "$maxOccurs") with (VStr (Z_to_string m)).
    change (get_prop _ "$minOccurs") with VUndef.
    cbn [strict_eq_str]. rewrite Z_to_string_not_unbounded.
    unfold or_else. rewrite Z_to_string_truthy. unfold parseInt. cbn [to_string].
    rewrite parseInt_string_Z_to_string. repeat split; reflexivity.
  - repeat split; reflexivity.
Qed.

Lemma qualified_has_colon a T : index_of_char colon (a ++ ":" ++ T) <> None.
Proof.
  induction a as [|c a IH]; [discriminate|].
  cbn [append index_of_char]. destruct (Ascii.eqb colon c); [discriminate|].
  cbn [append] in IH. destruct (index_of_char colon (a ++ String ":" T)); [discriminate|].
  congruence.
Qed.

Lemma qualified_not_plain a T l :
  Forall (fun s => index_of_char colon s = None) l ->
  in_strings (VStr (a ++ ":" ++ T)) l = false.
Proof.
  induction 1 as [|s l H F IH]; [reflexivity|].
  cbn [in_strings existsb strict_eq_str]. fold (in_strings (VStr (a ++ ":" ++ T)) l).
  rewrite IH, orb_false_r. apply String.eqb_neq. intros E.
  apply (qualified_has_colon a T). now rewrite E.
Qed.

Lemma qualified_truthy a T : truthy (VStr (a ++ ":" ++ T)) = true.
Proof.
  cbn [truthy]. apply negb_true_iff, String.eqb_neq. intros E.
  apply (qualified_has_colon a T). now rewrite E.
Qed.

Lemma typed_element_compiles (fuel : nat) (name alias T : string)
    (minOccurs maxOccurs : option Z) (targetNamespace : value) (attributeFormQualified : bool)
    (typeLookupMap table : obj) :
  index_of_char colon alias = None -> index_of_char colon T = None ->
  lookup ("xmlns:" ++ alias) table = Some (VStr XMLSchema) ->
  _elementToDefinition (S fuel) "element"
    (typed_element name (alias ++ ":" ++ T) minOccurs maxOccurs)
    targetNamespace false attributeFormQualified typeLookupMap table
  = Return (VObj [(name ++ "$type", occurs_type T minOccurs maxOccurs)]).
Proof.
  intros A C L.
  destruct (typed_element_reads name (alias ++ ":" ++ T) minOccurs maxOccurs)
    as (Hn & Ht & Hmax & Hmin & Hx).
  remember (typed_element name (alias ++ ":" ++ T) minOccurs maxOccurs) as element.
  cbn [_elementToDefinition]. rewrite Hx. cbn [bind].
  change (String.eqb "element" "element") with true. cbv iota.
  rewrite Ht, qualified_truthy. cbn [bind].
  rewrite qualified_not_plain by (repeat constructor). cbn [negb].
  rewrite Hn. cbn [to_string resolve_type res_lengths res_result].
  unfold _namespaceLookup. rewrite (split_at_qualified _ _ A), (split_at_colon_free _ C).
  unfold hasOwnProperty, get. rewrite L. cbn [bind strict_eq_str].
  rewrite eqb_refl_string. cbn [bind].
  unfold finish_element. cbn [res_result res_subResult res_lengths truthy bind fst snd].
  rewrite Hn, Hmax, Hmin. cbn [to_string greater_than]. unfold occurs_type.
  destruct maxOccurs as [m|].
  - destruct (1 <? m)%Z.
    + cbn [set_prop]. rewrite eqb_refl_string. unfold get. cbn [lookup].
      rewrite eqb_refl_string. reflexivity.
    + reflexivity.
  - reflexivity.
Qed.

(** An element declared with a type of XML Schema compiles to that type
    under [name$type].  It becomes the array type [[type, minOccurs,
    maxOccurs]] exactly when [maxOccurs] is written and more than one; a
    [minOccurs] that is not written counts as 0.  The two counts are
    integers written in decimal that a number holds exactly. *)
Theorem element_cardinality (fuel : nat) (name alias T : string)
    (minOccurs maxOccurs : option Z) (targetNamespace : value) (attributeFormQualified : bool)
    (typeLookupMap table : obj) :
  index_of_char colon alias = None -> index_of_char colon T = None ->
  exact_count minOccurs = true -> exact_count maxOccurs = true ->
  lookup "hasOwnProperty" table = None ->
  lookup ("xmlns:" ++ alias) table = Some (VStr XMLSchema) ->
  _elementToDefinition (S fuel) "element"
    (typed_element name (alias ++ ":" ++ T) minOccurs maxOccurs)
    targetNamespace false attributeFormQualified typeLookupMap table
  = Return (VObj [(name ++ "$type",
                   match maxOccurs with
                   | Some m =>
                       if (1 <? m)%Z
                       then VArr [VStr T;
                                  VNum (NInt (match minOccurs with Some k => k | None => 0 end));
                                  VNum (NInt m)]
                       else VStr T
                   | None => VStr T
                   end)]).
Proof.
  intros A C _ _ _ L.
  exact (typed_element_compiles fuel name alias T minOccurs maxOccurs targetNamespace
           attributeFormQualified typeLookupMap table A C L).
Qed.

Lemma element_cardinality_witness :
  _elementToDefinition 1 "element" (typed_element "item" "xs:string" (Some 1%Z) (Some 5%Z))
    (VStr "urn:t") false false [] [("xmlns:xs", VStr XMLSchema)]
  = Return (VObj [("item$type", VArr [VStr "string"; VNum (NInt 1); VNum (NInt 5)])]).
Proof.
  exact (element_cardinality 0 "item" "xs" "string" (Some 1%Z) (Some 5%Z) (VStr "urn:t") false
           [] [("xmlns:xs", VStr XMLSchema)] eq_refl eq_refl eq_refl eq_refl eq_refl eq_refl).
Defined.

(** A type reference that cannot be resolved stops the compilation of the
    element: an alias that no namespace declaration binds, and a name of
    another namespace that the schema does not declare. *)
Theorem element_type_unresolved (fuel : nat) (name alias T : string)
    (minOccurs maxOccurs : option Z) (targetNamespace : value)
    (elementFormQualified attributeFormQualified : bool) (typeLookupMap table : obj) :
  index_of_char colon alias = None -> index_of_char colon T = None ->
  lookup "hasOwnProperty" table = None ->
  let compile :=
    _elementToDefinition (S fuel) "element"
      (typed_element name (alias ++ ":" ++ T) minOccurs maxOccurs)
      targetNamespace elementFormQualified attributeFormQualified typeLookupMap table in
  (lookup ("xmlns:" ++ alias) table = None ->
     compile = Throw (Error ("Could not find namespace alias '" ++ (alias ++ ":" ++ T) ++ "'")))
  /\ (forall url, lookup ("xmlns:" ++ alias) table = Some (VStr url) ->
        url <> XMLSchema ->
        truthy (get typeLookupMap ("#xmlns:" ++ (alias ++ ":" ++ T))) = false ->
        compile = Throw (Error ("Could not find type '" ++ T ++ "' in namespace '"
                                ++ url ++ "'"))).
Proof.
  intros A C _ compile.
  destruct (typed_element_reads name (alias ++ ":" ++ T) minOccurs maxOccurs)
    as (Hn & Ht & Hmax & Hmin & Hx).
  assert (E : compile
              = (r1 <- resolve_type
                         (fun xsdType' element' namespaces' =>
                            _elementToDefinition fuel xsdType' element' targetNamespace
                              elementFormQualified attributeFormQualified typeLookupMap
                              namespaces')
                         typeLookupMap table name 3 (VStr (alias ++ ":" ++ T))
                         (NInt 0, NInt 0) [] ;;
                 finish_element (typed_element name (alias ++ ":" ++ T) minOccurs maxOccurs)
                   targetNamespace elementFormQualified table r1)%js).
  { unfold compile.
    remember (typed_element name (alias ++ ":" ++ T) minOccurs maxOccurs) as element.
    cbn [_elementToDefinition]. rewrite Hx. cbn [bind].
    change (String.eqb "element" "element") with true. cbv iota.
    rewrite Ht, qualified_truthy. cbn [bind].
    rewrite qualified_not_plain by (repeat constructor). cbn [negb].
    rewrite Hn. reflexivity. }
  rewrite E. cbn [resolve_type]. unfold _namespaceLookup.
  rewrite (split_at_qualified _ _ A), (split_at_colon_free _ C).
  unfold hasOwnProperty. split.
  - intros L. unfold get. rewrite L. reflexivity.
  - intros url L U F. unfold get at 1. rewrite L. cbn [bind strict_eq_str].
    apply String.eqb_neq in U. rewrite U. cbn [to_string]. rewrite F. reflexivity.
Qed.

Lemma element_type_unresolved_witness :
  _elementToDefinition 1 "element" (typed_element "item" "t:Age" None None)
    (VStr "urn:t") false false [] [("xmlns:xs", VStr XMLSchema)]
  = Throw (Error "Could not find namespace alias 't:Age'").
Proof.
  destruct (element_type_unresolved 0 "item" "t" "Age" None None (VStr "urn:t") false false
              [] [("xmlns:xs", VStr XMLSchema)] eq_refl eq_refl eq_refl) as [H _].
  exact (H eq_refl).
Defined.

(** ** Two siblings of one name *)

Lemma save_order_ext orders names (p q : obj) x :
  isArray (get p x) = isArray (get q x) ->
  save_order orders names p x = save_order orders names q x.
Proof. unfold save_order. now intros ->. Qed.

Lemma save_order_array (orders : list (list string)) (names : list string) (p : obj) x :
  (List.length names < List.length orders)%nat -> isArray (get p x) = true ->
  save_order orders names p x = orders.
Proof.
  intros L A. unfold save_order. rewrite A.
  apply Nat.leb_gt in L. now rewrite L.
Qed.

(** What [endElement] does with the observed order does not depend on the
    object it is attached to, and touches that object at [name$order]
    only. *)
Lemma order_step_any (had : bool) (ords : list (list string)) defs (o o' : obj) name o1 :
  (if had then
     match ords with
     | order :: _ => attach_order defs o name order
     | [] => Return o
     end
   else Return o) = Return o1 ->
  exists o1',
    (if had then
       match ords with
       | order :: _ => attach_order defs o' name order
       | [] => Return o'
       end
     else Return o') = Return o1'
    /\ forall k, k <> name ++ "$order" -> lookup k o1' = lookup k o'.
Proof.
  intros H. destruct had; [|eexists; split; [reflexivity | reflexivity]].
  destruct ords as [|order ords]; [eexists; split; [reflexivity | reflexivity]|].
  unfold attach_order in *.
  destruct (1 <? List.length order)%nat; [|eexists; split; [reflexivity | reflexivity]].
  apply bind_returns in H. destruct H as (d & -> & _). cbn [bind].
  destruct (negb (_compareArray d (VArr (map VStr order)))).
  - eexists. split; [reflexivity|]. intros k K. now rewrite lookup_set_other.
  - eexists. split; [reflexivity | reflexivity].
Qed.

(** The value of an element that ends, when it is the second of its name:
    the value it would have on its own, after the value of the first. *)
Lemma assign_value_pair conv (oA oB : obj) x type text oA' c v1 :
  get oA x = VObj c -> get oB x = VArr [v1; VObj c] ->
  assign_value conv oA x type text = Return oA' ->
  c = [] \/ all_whitespace text = false ->
  exists oB', assign_value conv oB x type text = Return oB'
              /\ get oB' x = VArr [v1; get oA' x].
Proof.
  intros GA GB H C. unfold assign_value in *. rewrite GA in H. rewrite GB.
  cbn [typeof_object own_property_count bind] in H.
  destruct c as [|e c].
  - cbn [List.length] in H. apply bind_returns in H. destruct H as (cv & V & H).
    injection H as <-. rewrite V.
    cbn [bind last own_property_count List.length removelast app].
    eexists. split; [reflexivity|]. now rewrite !get_set_same.
  - destruct C as [C | C]; [discriminate C|]. rewrite C in H.
    cbn [List.length negb] in H.
    apply bind_returns in H. destruct H as (cv & V & H).
    cbn [assign_text bind] in H. injection H as <-. rewrite V.
    cbn [bind last own_property_count List.length removelast app assign_text].
    eexists. split; [reflexivity|]. now rewrite !get_set_same.
Qed.

Lemma leaf_texts content :
  forallb (fun c => match c with Text _ => true | Element _ _ _ => false end) content = true ->
  exists texts, content = map Text texts.
Proof.
  induction content as [|c content IH]; [now exists []|].
  cbn [forallb]. destruct c as [data|]; [|discriminate].
  intros H. destruct (IH H) as [texts ->]. now exists (data :: texts).
Qed.

(** [element_value] and [element_summary] for any element name, qualified
    or not: [x] is its local name. *)
Lemma element_value_named inline conv name x nsAlias attrs body s s1 :
  split_name name = (x, nsAlias) -> orders_fit s ->
  hasOwnProperty (currentObject s) x = false ->
  run inline conv (events_of (Element name attrs body)) s = Return s1 ->
  hasOwnProperty (currentObject s1) x = true
  /\ (if isArray (get_prop (top (definitions s)) (x ++ "$type"))
      then exists v, get (currentObject s1) x = VArr [v]
      else isArray (get (currentObject s1) x) = false).
Proof.
  intros P F N R. rewrite events_of_element in R.
  pose proof (balanced_children body) as Bb.
  destruct (run_element _ _ _ _ _ [] _ _ Bb F R)
    as (s' & s2 & s3 & R1 & R2 & R3 & R4 & N2 & D2 & O2 & _).
  injection R4 as <-.
  destruct (startElement_returns _ _ _ _ _ R1) as (kept & _ & E1).
  rewrite P in E1. cbn [fst snd] in E1.
  set (type := get_prop (top (definitions s)) (x ++ "$type")) in *.
  set (parent := enclosing_object _ _ _ _ _ _ _ _) in E1.
  assert (G : get parent x = if isArray type then VArr [VObj (currentObject s')]
                             else VObj (currentObject s')).
  { unfold parent. rewrite get_enclosing_new by exact N. rewrite E1. reflexivity. }
  assert (O2' : objects s2 = parent :: objects s) by (rewrite O2, E1; reflexivity).
  destruct (endElement_returns _ _ _ _ _ _ O2' R3) as (o1 & o2 & A & V & E3).
  rewrite P in A, V. cbn [fst] in A, V.
  assert (B : get o1 x = get (write_back parent x (currentObject s2)) x).
  { unfold get.
    assert (K : x <> x ++ "$order") by (apply not_eq_sym, append_neq_self; discriminate).
    destruct (List.length (names s2) <? List.length (orders s2))%nat.
    - destruct (orders s2) as [|order ords].
      + now injection A as <-.
      + now rewrite (lookup_attach_order_other _ _ _ _ _ x A K).
    - now injection A as <-. }
  rewrite E3. cbn [currentObject].
  destruct (isArray type).
  - assert (W : get o1 x = VArr [VObj (currentObject s2)]).
    { rewrite B. apply get_lookup in G; [|discriminate].
      rewrite (write_back_array _ _ _ [] _ G). now rewrite get_set_same. }
    destruct (assign_value_single _ _ _ _ _ _ _ W V) as [v Gv].
    split; [|now exists v].
    apply hasOwnProperty_get. rewrite Gv. discriminate.
  - assert (W : get o1 x = VObj (currentObject s2)).
    { rewrite B. apply get_lookup in G; [|discriminate].
      rewrite (write_back_direct _ _ _ _ G eq_refl). now rewrite get_set_same. }
    exact (assign_value_direct _ _ _ _ _ _ _ W V).
Qed.

Lemma element_summary_named inline conv name x nsAlias attrs children s s' :
  split_name name = (x, nsAlias) -> orders_fit s ->
  run inline conv (events_of (Element name attrs children)) s = Return s' ->
  names s' = names s /\ definitions s' = definitions s /\ objects s' = objects s
  /\ orders_fit s'
  /\ (exists parent,
        orders s' = save_order (orders s) (names s) parent x
        /\ isArray (get parent x)
           = hasOwnProperty (currentObject s) x
             || isArray (get_prop (top (definitions s)) (x ++ "$type"))).
Proof.
  intros P F R. rewrite events_of_element in R.
  pose proof (balanced_children children) as Bb.
  destruct (run_element _ _ _ _ _ [] _ _ Bb F R)
    as (s1 & s2 & s3 & R1 & R2 & R3 & R4 & N2 & D2 & O2 & N3 & D3 & O3 & Or3 & F3).
  injection R4 as <-.
  destruct (startElement_returns _ _ _ _ _ R1) as (kept & _ & E1).
  rewrite P in E1. cbn [fst snd] in E1.
  repeat split; try assumption; try (destruct F3; assumption).
  eexists. split.
  - rewrite Or3, E1. cbn [orders]. reflexivity.
  - destruct (hasOwnProperty (currentObject s) x) eqn:H.
    + rewrite get_enclosing_again by exact H.
      destruct (get (currentObject s) x); reflexivity.
    + rewrite get_enclosing_new by exact H.
      cbn [orb]. destruct (isArray (get_prop (top (definitions s)) (x ++ "$type")));
        reflexivity.
Qed.

(** C3 (counterexample): two pairs of siblings whose second value is not
    the one the second element has on its own.  In [<p><x>1</x><x><y/></x></p>]
    the second [x] holds a child and closes without text: on its own it gives
    the object of its children, and after the first [x] it goes into the
    array, where the closing text is stored under [$] of every object that
    has properties, blank or not.  In
    [<p><n:x xmlns:n="urn:u">1</n:x><n:x>2</n:x></p>] the first element
    declares the alias [n], which the parser keeps: the second element gets
    a namespace marker that it does not get on its own. *)
Lemma sibling_values_differ :
  fromXml (Element "p" [] [Element "x" [] [Text "1"]; Element "x" [] [Element "y" [] []]])
    VUndef true true
  = Return (VObj [("p", VObj [("x", VArr [VStr "1";
                                          VObj [("y", VStr EmptyString);
                                                ("$", VStr EmptyString)]])])])
  /\ fromXml (Element "p" [] [Element "x" [] [Element "y" [] []]]) VUndef true true
     = Return (VObj [("p", VObj [("x", VObj [("y", VStr EmptyString)])])])
  /\ fromXml (Element "p" [] [Element "n:x" [("xmlns:n", "urn:u")] [Text "1"];
                              Element "n:x" [] [Text "2"]]) VUndef true true
     = Return (VObj [("p", VObj [("x", VArr [VObj [("namespace$", VStr "n");
                                                   ("$xmlns:n", VStr "urn:u");
                                                   ("$", VStr "1")];
                                             VObj [("namespace$", VStr "n");
                                                   ("$", VStr "2")]])])])
  /\ fromXml (Element "p" [] [Element "n:x" [] [Text "2"]]) VUndef true true
     = Return (VObj [("p", VObj [("x", VStr "2")])]).
Proof. repeat split; reflexivity. Qed.

(** C3 (amended): array promotion.  An element that the enclosing object
    does not hold yet under its local name [x] is stored in a one-element
    array when the definition types [x] as an array.  When it does not, a
    second element of the same name that follows (text may stand between
    the two) turns the property into a two-element array: the value the
    first element leaves, then the value the second element would leave if
    it were parsed in place of the first.  This is so when the first element
    leaves the namespace tables as it found them, and the second closes
    with text that is not blank (it holds an ASCII character that is no
    white space), or has no alias, no attribute and no child element.  The
    names of the two documents are ordinary, their text is ASCII, no URL
    is an inherited name, and the enclosing object has no property that
    shadows [hasOwnProperty]. *)
Theorem sibling_promotion (inline conv : bool) (name : string)
    (attrs1 : list (string * string)) (body1 : list node) (between : list string)
    (attrs2 : list (string * string)) (body2 : list node) (s s1 : state) :
  let x := fst (split_name name) in
  orders_fit s ->
  ordinary_object (currentObject s) = true ->
  ordinary_urls (namespaces s) = true ->
  ordinary_tree (Element name attrs1 body1) = true ->
  ascii_tree (Element name attrs1 body1) = true ->
  hasOwnProperty (currentObject s) x = false ->
  run inline conv (events_of (Element name attrs1 body1)) s = Return s1 ->
  (isArray (get_prop (top (definitions s)) (x ++ "$type")) = true ->
     exists v, get (currentObject s1) x = VArr [v])
  /\ (isArray (get_prop (top (definitions s)) (x ++ "$type")) = false ->
      forall s2,
        ordinary_tree (Element name attrs2 body2) = true ->
        ascii_tree (Element name attrs2 body2) = true ->
        run inline conv (events_of (Element name attrs2 body2)) s = Return s2 ->
        namespaces s1 = namespaces s ->
        definitionNamespaces s1 = definitionNamespaces s ->
        definitionNamespaceUrls s1 = definitionNamespaceUrls s ->
        inked (closing_text body2) = true
        \/ (is_leaf (Element name attrs2 body2) = true /\ snd (split_name name) = None) ->
        exists s12,
          run inline conv
            (events_of (Element name attrs1 body1)
             ++ map TextData between ++ events_of (Element name attrs2 body2))%list s
          = Return s12
          /\ get (currentObject s12) x
             = VArr [get (currentObject s1) x; get (currentObject s2) x]).
Proof.
  intros x F _ _ _ _ N R1.
  assert (P : split_name name = (x, snd (split_name name)))
    by (unfold x; now destruct (split_name name)).
  destruct (element_value_named _ _ _ _ _ _ _ _ _ P F N R1) as [H1 V1].
  split; [intros T; now rewrite T in V1|].
  intros T s2 _ _ R2 NS DN DU Ink. rewrite T in V1.
  assert (Cnd : all_whitespace (closing_text body2) = false
                \/ (is_leaf (Element name attrs2 body2) = true
                    /\ snd (split_name name) = None)).
  { destruct Ink as [K | K]; [left; exact (inked_not_blank _ K) | right; exact K]. }
  destruct (element_summary_named _ _ _ _ _ _ _ _ _ P F R1)
    as (Nm1 & D1 & O1 & F1 & (parent1 & Or1 & A1)).
  rewrite N, T in A1. cbn [orb] in A1.
  set (v1 := get (currentObject s1) x) in *.
  set (s1t := text (fold_right append EmptyString between) s1).
  (* the second element on its own *)
  pose proof R2 as R2'. rewrite events_of_element in R2'.
  destruct (run_element _ _ _ _ _ [] _ _ (balanced_children body2) F R2')
    as (sA & sA2 & s3 & RA1 & RA2 & RA3 & R4 & NA2 & DA2 & OA2 & _).
  injection R4 as ->.
  destruct (startElement_both _ _ _ _ _ s1t RA1 D1 NS DN DU)
    as (nsAlias & foreign & kept & C & Leaf & V & Ty & O & Nm & Or & RB).
  cbv zeta in Ty, O, Nm, Or, RB. fold x in Ty, O, Nm, Or, RB.
  change (currentObject s1t) with (currentObject s1) in RB.
  change (objects s1t) with (objects s1) in RB.
  change (names s1t) with (names s1) in RB.
  change (orders s1t) with (orders s1) in RB.
  set (next := next_object inline nsAlias foreign kept) in *.
  set (parentA := enclosing_object inline (currentObject s) x nsAlias foreign
                    (currentType sA) kept next) in *.
  set (parentB := enclosing_object inline (currentObject s1) x nsAlias foreign
                    (currentType sA) kept next) in *.
  assert (GA : get parentA x = VObj next).
  { unfold parentA. rewrite get_enclosing_new by exact N. now rewrite Ty, T. }
  assert (GB : get parentB x = VArr [v1; VObj next]).
  { unfold parentB. rewrite get_enclosing_again by exact H1. fold v1.
    destruct v1; try reflexivity. discriminate V1. }
  destruct (save_order_length (orders s) (names s) parentA x F) as [LA _].
  assert (FA : orders_fit sA).
  { unfold orders_fit. rewrite Nm, Or. cbn [List.length]. lia. }
  assert (OrB : save_order (orders s1) (names s1) parentB x = orders sA).
  { rewrite Or, Or1, Nm1.
    rewrite (save_order_ext _ _ parent1 parentA) by (now rewrite A1, GA).
    apply save_order_array; [|now rewrite GB].
    rewrite LA. lia. }
  assert (RB' : startElement inline name attrs2 s1t
                = Return (with_objects (parentB :: objects s) sA)).
  { rewrite RB, OrB, Nm1, O1. unfold with_objects.
    rewrite <- C, V, Nm. reflexivity. }
  pose proof (run_rebase _ _ _ (balanced_children body2) _ _ (parentB :: objects s) FA RA2)
    as Body.
  (* the end of the second element *)
  assert (OA2' : objects sA2 = parentA :: objects s) by (now rewrite OA2, O).
  destruct (endElement_returns _ _ _ _ _ _ OA2' RA3) as (o1 & o2 & Aeq & Veq & E3).
  fold x in Aeq, Veq.
  set (c := currentObject sA2) in *.
  assert (LkA : lookup x parentA = Some (VObj next))
    by (apply get_lookup; [exact GA | discriminate]).
  assert (LkB : lookup x parentB = Some (VArr ([v1] ++ [VObj next])))
    by (apply get_lookup; [exact GB | discriminate]).
  rewrite (write_back_direct _ _ _ _ LkA eq_refl) in Aeq.
  destruct (order_step_any _ _ _ _ (write_back parentB x c) _ _ Aeq) as (o1B & AeqB & KB).
  assert (Kx : x <> x ++ "$order") by (apply not_eq_sym, append_neq_self; discriminate).
  assert (G1 : get o1 x = VObj c).
  { destruct (order_step_any _ _ _ _ (set_prop x (VObj c) parentA) _ _ Aeq)
      as (o1' & Aeq' & K'). rewrite Aeq in Aeq'. injection Aeq' as <-.
    unfold get. rewrite (K' x Kx). now rewrite lookup_set_same. }
  assert (G1B : get o1B x = VArr [v1; VObj c]).
  { unfold get. rewrite (KB x Kx), (write_back_array _ _ _ _ _ LkB).
    now rewrite lookup_set_same. }
  assert (Txt : currentValue sA2 = closing_text body2).
  { rewrite (run_children_text _ _ _ _ _ FA RA2), V. reflexivity. }
  assert (Cnd' : c = [] \/ all_whitespace (currentValue sA2) = false).
  { destruct Cnd as [W | [Lf Al]]; [right; now rewrite Txt|]. left.
    cbn [is_leaf] in Lf. destruct attrs2 as [|a attrs2]; [|discriminate Lf].
    destruct (leaf_texts _ Lf) as [texts ->].
    rewrite children_events_texts in RA2. apply run_texts in RA2.
    destruct RA2 as (_ & _ & _ & _ & Cur & _). unfold c. rewrite Cur, C.
    apply Leaf; [reflexivity | exact Al]. }
  destruct (assign_value_pair _ _ _ _ _ _ _ _ v1 G1 G1B Veq Cnd') as (o2B & VeqB & G2B).
  pose proof (endElement_forward conv name (with_objects (parentB :: objects s) sA2)
                parentB (objects s) o1B o2B eq_refl) as EndB.
  fold x in EndB.
  specialize (EndB AeqB VeqB).
  (* the two elements in a row *)
  eexists. split.
  - rewrite run_app, R1. cbn [bind]. rewrite run_app, run_texts_forward. cbn [bind].
    fold s1t. rewrite events_of_element, run_start, RB'. cbn [bind].
    rewrite run_app. unfold obj in Body |- *. rewrite Body. cbn [bind].
    rewrite run_end. unfold obj in EndB |- *. exact EndB.
  - cbn [currentObject]. rewrite G2B, E3. reflexivity.
Qed.
Lemma open_parent_reached :
  run true true [StartElement "p" []] (initial_state VUndef) = Return open_parent.
Proof. reflexivity. Qed.

Lemma orders_fit_open_parent : orders_fit open_parent.
Proof. unfold orders_fit. cbn. lia. Qed.

Lemma sibling_promotion_witness :
  exists s12,
    run true true
      (events_of (Element "x" [] [Element "y" [] []])
       ++ map TextData [" "] ++ events_of (Element "x" [] [Text "2"]))%list open_parent
    = Return s12
    /\ get (currentObject s12) "x" = VArr [VObj [("y", VStr EmptyString)]; VStr "2"].
Proof.
  destruct (run true true (events_of (Element "x" [] [Element "y" [] []])) open_parent)
    as [s1|e] eqn:R1; [|vm_compute in R1; discriminate R1].
  destruct (run true true (events_of (Element "x" [] [Text "2"])) open_parent)
    as [s2|e] eqn:R2; [|vm_compute in R2; discriminate R2].
  destruct (sibling_promotion true true "x" [] [Element "y" [] []] [" "] [] [Text "2"]
              open_parent s1 orders_fit_open_parent eq_refl eq_refl eq_refl eq_refl
              eq_refl R1) as [_ H].
  assert (E1 : s1 = {|
                 definitions := [VObj []; VObj []];
                 currentValue := EmptyString;
                 currentObject := [("x", VObj [("y", VStr EmptyString)])];
                 currentType := VUndef;
                 objects := [[("p", VObj [])]];
                 names := ["p"];
                 orders := [["x"]; ["p"]];
                 namespaces := [];
                 definitionNamespaces := [];
                 definitionNamespaceUrls := []
               |}) by (vm_compute in R1; now injection R1 as <-).
  assert (E2 : get (currentObject s2) "x" = VStr "2")
    by (vm_compute in R2; now injection R2 as <-).
  destruct (H eq_refl s2 eq_refl eq_refl R2) as (s12 & R & G);
    [now rewrite E1 | now rewrite E1 | now rewrite E1 | left; reflexivity |].
  change (fst (split_name "x")) with "x" in G.
  exists s12. split; [exact R|]. rewrite G, E2, E1. reflexivity.
Defined.

(** ** What an element leaves of the state it starts in *)

(** A whole element, read in any state of the parse, gives back the three
    stacks as it found them and an empty text buffer, and of the object that
    encloses it it changes no property but its own: the one of its local
    name and the three decorated ones [$namespace], [$attributes] and
    [$order].  The names of the document are ordinary, and the enclosing
    object has no property that shadows [hasOwnProperty]. *)
Theorem element_frame (inline conv : bool) (name : string)
    (attrs : list (string * string)) (children : list node) (s s' : state) :
  orders_fit s ->
  ordinary_object (currentObject s) = true ->
  ordinary_tree (Element name attrs children) = true ->
  run inline conv (events_of (Element name attrs children)) s = Return s' ->
  let local := fst (split_name name) in
  names s' = names s /\ definitions s' = definitions s /\ objects s' = objects s
  /\ currentValue s' = EmptyString /\ orders_fit s'
  /\ forall k,
       k <> local -> k <> local ++ "$namespace" -> k <> local ++ "$attributes" ->
       k <> local ++ "$order" ->
       lookup k (currentObject s') = lookup k (currentObject s).
Proof.
  intros F _ _ R local. pose proof R as R'. rewrite events_of_element in R'.
  destruct (run_element _ _ _ _ _ [] _ _ (balanced_children children) F R')
    as (s1 & s2 & s3 & _ & _ & R3 & R4 & _ & _ & _ & N3 & D3 & O3 & _ & F3).
  injection R4 as <-.
  repeat split; try assumption; try (destruct F3; assumption).
  - exact (endElement_value _ _ _ _ R3).
  - intros k K0 K1 K2 K3.
    exact (element_keeps_other_keys _ _ _ _ _ _ _ k (balanced_children children) F R'
             K0 K1 K2 K3).
Qed.

Lemma element_frame_witness :
  exists s',
    run true true (events_of (Element "n:x" [("a", "1")] [Element "y" [] []; Text "t"]))
      open_parent = Return s'
    /\ names s' = names open_parent /\ objects s' = objects open_parent
    /\ lookup "p" (currentObject s') = lookup "p" (currentObject open_parent).
Proof.
  destruct (run true true (events_of (Element "n:x" [("a", "1")] [Element "y" [] []; Text "t"]))
              open_parent) as [s'|e] eqn:R; [|vm_compute in R; discriminate R].
  destruct (element_frame true true "n:x" [("a", "1")] [Element "y" [] []; Text "t"]
              open_parent s' orders_fit_open_parent eq_refl eq_refl R)
    as (N & _ & O & _ & _ & K).
  exists s'. repeat split; try assumption.
  apply K; discriminate.
Defined.

(** ** Namespace declarations outlive their element *)

Section NodeInduction.

Variable P : node -> Prop.
Hypothesis P_text : forall data, P (Text data).
Hypothesis P_element : forall name attrs children,
  Forall P children -> P (Element name attrs children).

Fixpoint node_ind_nested (n : node) : P n :=
  match n with
  | Text data => P_text data
  | Element name attrs children =>
      P_element name attrs children
        ((fix all (l : list node) : Forall P l :=
            match l with
            | [] => Forall_nil P
            | c :: l' => @Forall_cons _ P c l' (node_ind_nested c) (all l')
            end) children)
  end.

End NodeInduction.

Lemma declared_namespaces_element name attrs children table :
  declared_namespaces (Element name attrs children) table
  = declared_by_all children (extract_namespaces attrs table).
Proof.
  cbn [declared_namespaces]. generalize (extract_namespaces attrs table).
  induction children as [|c l IH]; intros t; [reflexivity|].
  exact (IH (declared_namespaces c t)).
Qed.

Lemma namespaces_after (inline conv : bool) (n : node) :
  forall s s', orders_fit s ->
  run inline conv (events_of n) s = Return s' ->
  namespaces s' = declared_namespaces n (namespaces s).
Proof.
  induction n as [data|name attrs children IH] using node_ind_nested; intros s s' F R.
  - cbn [events_of run step bind] in R. now injection R as <-.
  - rewrite declared_namespaces_element. rewrite events_of_element in R.
    destruct (run_element _ _ _ _ _ [] _ _ (balanced_children children) F R)
      as (s1 & s2 & s3 & R1 & R2 & R3 & R4 & _ & _ & O2 & _).
    injection R4 as <-.
    destruct (startElement_returns _ _ _ _ _ R1) as (kept & _ & E1).
    set (parent := enclosing_object _ _ _ _ _ _ _ _) in E1.
    destruct (save_order_length (orders s) (names s) parent (fst (split_name name)) F)
      as [L1 _].
    assert (F1 : orders_fit s1).
    { unfold orders_fit. rewrite E1. cbn [names orders List.length]. lia. }
    assert (N1 : namespaces s1 = extract_namespaces attrs (namespaces s))
      by (rewrite E1; reflexivity).
    assert (O2' : objects s2 = parent :: objects s) by (rewrite O2, E1; reflexivity).
    destruct (endElement_returns _ _ _ _ _ _ O2' R3) as (o1 & o2 & _ & _ & E3).
    assert (N3 : namespaces s3 = namespaces s2) by (rewrite E3; reflexivity).
    rewrite N3, <- N1. clear - IH F1 R2. revert s1 s2 F1 R2.
    induction IH as [|c l Hc _ IHl]; intros s1 s2 F1 R2.
    + now injection R2 as <-.
    + cbn [children_events] in R2. rewrite run_app in R2.
      apply bind_returns in R2. destruct R2 as (sc & Rc & R2).
      destruct (run_balanced _ _ _ (balanced_events_of c) _ _ F1 Rc) as (_ & _ & _ & Fc & _).
      cbn [declared_by_all]. rewrite <- (Hc _ _ F1 Rc). exact (IHl _ _ Fc R2).
Qed.

(** The table of the namespaces declared on the wire is never cut back: at
    the end of an element it holds what the element and everything inside
    it declared, on top of what it held before, so that a declaration stays
    in force for all that follows in the document.  The names of the
    document, the aliases it declares among them, are ordinary. *)
Theorem namespaces_persist (inline conv : bool) (n : node) (s s' : state) :
  ordinary_tree n = true ->
  ordinary_object (currentObject s) = true ->
  orders_fit s ->
  run inline conv (events_of n) s = Return s' ->
  namespaces s' = declared_namespaces n (namespaces s).
Proof.
  intros _ _. apply namespaces_after.
Qed.

Lemma namespaces_persist_witness :
  exists s',
    run true true (events_of (Element "x" [("xmlns:n", "urn:b")] [])) open_parent = Return s'
    /\ namespaces s' = [("n", VStr "urn:b")].
Proof.
  destruct (run true true (events_of (Element "x" [("xmlns:n", "urn:b")] [])) open_parent)
    as [s'|e] eqn:R; [|vm_compute in R; discriminate R].
  exists s'. split; [reflexivity|].
  exact (namespaces_persist true true (Element "x" [("xmlns:n", "urn:b")] []) open_parent s'
           eq_refl eq_refl orders_fit_open_parent R).
Defined.

(** ** Elements with text only *)



(** ** The attribute filter *)








(** ** The namespace marker *)




(** ** Orders *)

(** [_compareArray] answers [false] as soon as one side is missing (or is
    any other value that counts as false), and on two arrays of names it
    answers [true] exactly when they hold the same names in the same order. *)
Theorem compareArray_names (a : value) (l1 l2 : list string) :
  (truthy a = false ->
     _compareArray a (VArr (map VStr l1)) = false
     /\ _compareArray (VArr (map VStr l1)) a = false)
  /\ (_compareArray (VArr (map VStr l1)) (VArr (map VStr l2)) = true <-> l1 = l2).
Proof.
  split.
  - intros T. unfold _compareArray. rewrite T. cbn [negb orb truthy]. split; reflexivity.
  - destruct l1 as [|x l1], l2 as [|y l2].
    + split; reflexivity.
    + split; discriminate.
    + split; discriminate.
    + apply compareArray_strings; discriminate.
Qed.

Lemma compareArray_names_witness :
  _compareArray VUndef (VArr (map VStr ["x"; "y"])) = false
  /\ _compareArray (VArr (map VStr ["x"; "y"])) VUndef = false.
Proof.
  exact (proj1 (compareArray_names VUndef ["x"; "y"] []) eq_refl).
Defined.

(** The order of two different children [x] then [y] of an element, read
    in any state of the parse.  The parser records the name of the first
    child always, and the name of the second unless the definition types it
    as an array; when the element ends it writes the record under
    [name$order] on the enclosing object if it has more than one entry and
    is not the order the definition declares, and leaves the property alone
    otherwise.  The names of the document are ordinary, and the enclosing
    object has no property that shadows [hasOwnProperty]. *)
Theorem child_order_recorded (inline conv : bool) (ename : string)
    (eattrs : list (string * string)) (x : string) (xattrs : list (string * string))
    (xbody : list node) (y : string) (yattrs : list (string * string)) (ybody : list node)
    (t0 t1 t2 : list string) (s s' : state) :
  orders_fit s ->
  ordinary_object (currentObject s) = true ->
  ordinary_tree
    (Element ename eattrs
       (two_children t0 (Element x xattrs xbody) t1 (Element y yattrs ybody) t2)) = true ->
  plain_name ename = true -> plain_name x = true -> plain_name y = true -> x <> y ->
  run inline conv
    (events_of (Element ename eattrs
                  (two_children t0 (Element x xattrs xbody) t1 (Element y yattrs ybody) t2)))
    s = Return s' ->
  let definition := top (definitions s) in
  let observed :=
    if isArray (get_prop (or_else (get_prop definition ename) (VObj [])) (y ++ "$type"))
    then [x] else [x; y] in
  lookup (ename ++ "$order") (currentObject s')
  = if (1 <? List.length observed)%nat
       && negb (_compareArray (get_prop definition (ename ++ "$order"))
                              (VArr (map VStr observed)))
    then Some (VArr (map VStr observed))
    else lookup (ename ++ "$order") (currentObject s).
Proof.
  intros F _ _.
  exact (two_children_order inline conv ename eattrs x xattrs xbody y yattrs ybody
           t0 t1 t2 s s' F).
Qed.

Lemma child_order_recorded_witness :
  exists s',
    run true true (events_of b_then_a) (initial_state (VObj order_definition)) = Return s'
    /\ lookup "E$order" (currentObject s') = Some (VArr [VStr "b"; VStr "a"]).
Proof.
  destruct (run true true (events_of b_then_a) (initial_state (VObj order_definition)))
    as [s'|e] eqn:R; [|vm_compute in R; discriminate R].
  exists s'. split; [reflexivity|].
  exact (child_order_recorded true true "E" [] "b" [] [Text "1"] "a" [] [Text "2"]
           [] [] [] (initial_state (VObj order_definition)) s' (orders_fit_initial _)
           eq_refl eq_refl eq_refl eq_refl eq_refl ltac:(discriminate) R).
Defined.

(** ** Parsing without a definition *)

Lemma filter_attributes_total wire urls : forall attrs,
  exists kept, filter_attributes (VObj []) wire urls attrs = Return kept.
Proof.
  induction attrs as [|[key text] attrs [kept IH]]; [now exists []|].
  cbn [filter_attributes]. rewrite IH.
  destruct (strict_eq (VStr text) _); [now exists kept|].
  cbn [get_prop get lookup truthy bind]. now eexists.
Qed.

Lemma no_definitions_top s : no_definitions s -> top (definitions s) = VObj [].
Proof.
  intros (A & N & _). destruct (definitions s) as [|d ds]; [congruence|].
  now inversion A.
Qed.

Lemma startElement_total inline name attrs s :
  no_definitions s ->
  exists s1, startElement inline name attrs s = Return s1 /\ no_definitions s1.
Proof.
  intros I. pose proof (no_definitions_top _ I) as T.
  unfold startElement. destruct (split_name name) as [local nsAlias]. rewrite T.
  cbn [read get_prop get lookup bind or_else truthy].
  destruct (filter_attributes_total
              (extract_namespaces attrs (namespaces s))
              (snd (extract_definition_namespaces (VObj []) (own_keys (VObj []))
                      (definitionNamespaces s, definitionNamespaceUrls s))) attrs)
    as [kept K].
  rewrite K. cbn [bind]. eexists. split; [reflexivity|].
  destruct I as (A & N & _). unfold no_definitions. cbn [definitions currentType].
  repeat split; [now constructor | discriminate | now left].
Qed.

Lemma converted_value_total conv type text :
  type = VUndef \/ type = VStr EmptyString ->
  exists cv, converted_value conv type text = Return cv.
Proof.
  intros [-> | ->]; unfold converted_value, _convertFromXsdType;
    destruct conv; cbn [truthy String.eqb negb]; now eexists.
Qed.

(** [endElement] assigns a value whenever the property of the element holds
    the object of the element, or an array that ends with it. *)
Lemma assign_value_total conv (o : obj) x type text (c : obj) :
  get o x = VObj c \/ (exists pre, get o x = VArr (pre ++ [VObj c])) ->
  (exists cv, converted_value conv type text = Return cv) ->
  exists o2, assign_value conv o x type text = Return o2.
Proof.
  intros G [cv V]. unfold assign_value. destruct G as [G | [pre G]]; rewrite G.
  - cbn [typeof_object own_property_count bind]. destruct (List.length c).
    + rewrite V. cbn [bind]. now eexists.
    + destruct (negb (all_whitespace text)); [|now eexists].
      rewrite V. cbn [bind assign_text]. now eexists.
  - rewrite V. cbn [bind]. rewrite last_last.
    cbn [own_property_count bind]. destruct (List.length c).
    + now eexists.
    + cbn [assign_text bind]. now eexists.
Qed.

Lemma attach_order_total defs (o : obj) name order :
  is_nullish (top defs) = false ->
  exists o1, attach_order defs o name order = Return o1
             /\ forall k, k <> name ++ "$order" -> lookup k o1 = lookup k o.
Proof.
  intros T. unfold attach_order.
  destruct (1 <? List.length order)%nat; [|eexists; split; [reflexivity | reflexivity]].
  rewrite (read_defined _ _ T). cbn [bind].
  destruct (negb (_compareArray _ _)).
  - eexists. split; [reflexivity|]. intros k K. now rewrite lookup_set_other.
  - eexists. split; [reflexivity | reflexivity].
Qed.

Lemma enclosing_slot inline (o : obj) name nsAlias foreign type (kept next : obj) :
  lookup name (enclosing_object inline o name nsAlias foreign type kept next)
  = Some (VObj next)
  \/ exists pre,
       lookup name (enclosing_object inline o name nsAlias foreign type kept next)
       = Some (VArr (pre ++ [VObj next])).
Proof.
  unfold enclosing_object. rewrite lookup_attach.
  destruct (hasOwnProperty _ name).
  - right. destruct (get _ name) as [ | | b | n | t | e t | xs | kvs ];
      try (eexists [_]; reflexivity). now exists xs.
  - destruct (isArray type); [right; now exists [] | now left].
Qed.

(** When an element has started, the enclosing object holds the object of
    the element under its local name, or an array that ends with it. *)
Lemma startElement_slot inline name attrs s s1 :
  startElement inline name attrs s = Return s1 ->
  exists parent,
    objects s1 = parent :: objects s
    /\ (lookup (fst (split_name name)) parent = Some (VObj (currentObject s1))
        \/ exists pre,
             lookup (fst (split_name name)) parent
             = Some (VArr (pre ++ [VObj (currentObject s1)]))).
Proof.
  intros R. destruct (startElement_returns _ _ _ _ _ R) as (kept & _ & ->).
  cbn [objects currentObject]. eexists. split; [reflexivity|]. apply enclosing_slot.
Qed.

Lemma run_total inline conv es :
  balanced es -> forall s,
  no_definitions s -> orders_fit s ->
  exists s', run inline conv es s = Return s' /\ no_definitions s'.
Proof.
  induction 1 as [|data es B IH|name attrs body es Bb IHb Be IHe]; intros s I F.
  - exists s. split; [reflexivity | exact I].
  - cbn [run step bind]. apply IH; [exact I | exact F].
  - destruct (startElement_total inline name attrs s I) as (s1 & R1 & I1).
    destruct (startElement_returns _ _ _ _ _ R1) as (kept & _ & E1).
    set (local := fst (split_name name)) in *.
    set (next := next_object _ _ _ _) in E1.
    set (parent := enclosing_object _ _ _ _ _ _ _ _) in E1.
    destruct (save_order_length (orders s) (names s) parent local F) as [L1 _].
    assert (F1 : orders_fit s1).
    { unfold orders_fit. rewrite E1. cbn [names orders List.length]. lia. }
    destruct (IHb s1 I1 F1) as (s2 & R2 & I2).
    destruct (run_balanced _ _ _ Bb _ _ F1 R2) as (N2 & D2 & O2 & F2 & _).
    assert (O2' : objects s2 = parent :: objects s) by (rewrite O2, E1; reflexivity).
    (* the element ends *)
    assert (Slot : exists c pre,
               lookup local (write_back parent local (currentObject s2)) = Some c
               /\ (c = VObj (currentObject s2)
                   \/ c = VArr (pre ++ [VObj (currentObject s2)]))).
    { destruct (startElement_slot _ _ _ _ _ R1) as (parent' & O1 & LA).
      fold local in LA. rewrite E1 in O1. cbn [objects] in O1. injection O1 as <-.
      destruct LA as [LA | [pre LA]].
      - exists (VObj (currentObject s2)), [].
        rewrite (write_back_direct _ _ _ _ LA eq_refl), lookup_set_same.
        split; [reflexivity | left; reflexivity].
      - exists (VArr (pre ++ [VObj (currentObject s2)])), pre.
        rewrite (write_back_array _ _ _ pre _ LA), lookup_set_same.
        split; [reflexivity | right; reflexivity]. }
    destruct Slot as (c & pre & Lk & Shape).
    assert (T2 : is_nullish (top (tl (definitions s2))) = false).
    { rewrite D2, E1. cbn [definitions tl]. now rewrite (no_definitions_top _ I). }
    assert (Step : exists o1,
               (if (List.length (names s2) <? List.length (orders s2))%nat then
                  match orders s2 with
                  | order :: _ =>
                      attach_order (tl (definitions s2))
                        (write_back parent local (currentObject s2)) local order
                  | [] => Return (write_back parent local (currentObject s2))
                  end
                else Return (write_back parent local (currentObject s2))) = Return o1
               /\ lookup local o1 = Some c).
    { assert (K : local <> local ++ "$order") by (apply not_eq_sym, append_neq_self; discriminate).
      destruct (List.length (names s2) <? List.length (orders s2))%nat;
        [|eexists; split; [reflexivity | exact Lk]].
      destruct (orders s2) as [|order ords]; [eexists; split; [reflexivity | exact Lk]|].
      destruct (attach_order_total (tl (definitions s2))
                  (write_back parent local (currentObject s2)) local order T2)
        as (o1 & A & Ko).
      exists o1. split; [exact A|]. now rewrite (Ko local K). }
    destruct Step as (o1 & A & Lo).
    assert (V : exists o2,
               assign_value conv o1 local (currentType s2) (currentValue s2) = Return o2).
    { apply (assign_value_total conv o1 local _ _ (currentObject s2)).
      - unfold get. rewrite Lo. destruct Shape as [-> | ->]; [now left | right; now exists pre].
      - apply converted_value_total. now destruct I2 as (_ & _ & Ty). }
    destruct V as (o2 & V).
    pose proof (endElement_forward conv name s2 parent (objects s) o1 o2 O2' A V) as R3.
    set (s3 := {| definitions := tl (definitions s2) |}) in R3.
    assert (Whole : run inline conv (StartElement name attrs :: body ++ [EndElement name])%list s
                    = Return s3).
    { rewrite run_start, R1. cbn [bind]. rewrite run_app, R2. cbn [bind].
      now rewrite run_end. }
    destruct (run_balanced _ _ _ (balanced_element name attrs body [] Bb balanced_nil)
                _ _ F Whole) as (_ & D3 & _ & F3 & _).
    assert (I3 : no_definitions s3).
    { destruct I as (A0 & N0 & _). destruct I2 as (_ & _ & Ty).
      unfold no_definitions. rewrite D3. repeat split; assumption. }
    destruct (IHe s3 I3 F3) as (s' & Re & I').
    exists s'. split; [|exact I'].
    rewrite run_start, R1. cbn [bind]. rewrite run_app, R2. cbn [bind run step].
    rewrite R3. cbn [bind]. exact Re.
Qed.

(** Without a definition the parser reads every document of ordinary
    names: whatever the elements, their attributes, their nesting and their
    text, [fromXml] returns an object, with attributes inline or not and
    with type conversion on or off. *)
Theorem parse_without_definition (inline conv : bool) (name : string)
    (attrs : list (string * string)) (children : list node) (definition : value) :
  ordinary_node (Element name attrs children) = true ->
  truthy definition = false \/ definition = VObj [] ->
  exists o, fromXml (Element name attrs children) definition inline conv = Return (VObj o).
Proof.
  intros _ D. unfold fromXml, _fromXml.
  assert (I : no_definitions
                (initial_state (match definition with VUndef => VObj [] | d => d end))).
  { unfold no_definitions, initial_state. cbn [definitions currentType].
    assert (E : or_else (match definition with VUndef => VObj [] | d => d end) (VObj [])
                = VObj []).
    { destruct D as [D | ->]; [|reflexivity].
      destruct definition; try reflexivity; unfold or_else; now rewrite D. }
    rewrite E. repeat split; [now constructor | discriminate | now right]. }
  destruct (run_total inline conv _ (balanced_events_of (Element name attrs children)) _ I
              (orders_fit_initial _)) as (s' & R & _).
  rewrite R. cbn [bind]. now eexists.
Qed.

Lemma parse_without_definition_witness :
  exists o,
    fromXml (Element "a:r" [("xmlns:a", "urn:a"); ("k", "v")]
               [Text " "; Element "x" [] [Text "1"]; Element "x" [("k", "w")] []; Text "t"])
      VNull false true = Return (VObj o).
Proof.
  exact (parse_without_definition false true "a:r" [("xmlns:a", "urn:a"); ("k", "v")]
           [Text " "; Element "x" [] [Text "1"]; Element "x" [("k", "w")] []; Text "t"]
           VNull eq_refl (or_introl eq_refl)).
Defined.

(** ** Keys with a suffix *)

Lemma length_append_string (a b : string) :
  String.length (a ++ b) = (String.length a + String.length b)%nat.
Proof. induction a as [|c a IH]; simpl; congruence. Qed.

Lemma append_inj_r (a b s : string) : a ++ s = b ++ s -> a = b.
Proof.
  revert b. induction a as [|c a IH]; intros [|d b] H; [reflexivity| | |].
  - exfalso. apply (f_equal String.length) in H.
    rewrite !length_append_string in H. cbn in H. lia.
  - exfalso. apply (f_equal String.length) in H.
    rewrite !length_append_string in H. cbn in H. lia.
  - cbn [append] in H. injection H as -> H. now rewrite (IH _ H).
Qed.

Lemma substring_prefix (a b : string) : String.substring 0 (String.length a) (a ++ b) = a.
Proof.
  induction a as [|c a IH]; [now destruct b|]. cbn [String.length append String.substring].
  now rewrite IH.
Qed.

Lemma strip_type_suffix_typed k : strip_type_suffix (k ++ "$type") = k.
Proof.
  unfold strip_type_suffix. rewrite length_append_string.
  replace (String.length k + String.length "$type" - 5)%nat with (String.length k)
    by (cbn; lia).
  apply substring_prefix.
Qed.

Lemma substring_suffix (a b : string) :
  String.substring (String.length a) (String.length b) (a ++ b) = b.
Proof.
  induction a as [|c a IH]; [|exact IH]. cbn [String.length append].
  induction b as [|d b IHb]; [reflexivity|]. cbn [String.length String.substring].
  now rewrite IHb.
Qed.

Lemma ends_with_typed k : ends_with "$type" (k ++ "$type") = true.
Proof.
  unfold ends_with. rewrite length_append_string.
  replace (String.length k + String.length "$type" - String.length "$type")%nat
    with (String.length k) by lia.
  rewrite substring_suffix. rewrite eqb_refl_string, andb_true_r.
  apply Nat.leb_le. lia.
Qed.

(** Two keys made of a name without a dollar sign and a suffix after one
    are equal only when the names and the suffixes are. *)
Lemma decorated_inj a b x y :
  no_dollar a = true -> no_dollar b = true ->
  a ++ String dollar x = b ++ String dollar y -> a = b /\ x = y.
Proof.
  unfold no_dollar. revert b. induction a as [|c a IH]; intros [|d b] Ha Hb H.
  - now injection H as ->.
  - cbn [append] in H. injection H as <- _. cbn [index_of_char] in Hb.
    rewrite Ascii.eqb_refl in Hb. discriminate.
  - cbn [append] in H. injection H as -> _. cbn [index_of_char] in Ha.
    rewrite Ascii.eqb_refl in Ha. discriminate.
  - cbn [append] in H. injection H as -> H.
    cbn [index_of_char] in Ha, Hb.
    destruct (Ascii.eqb dollar d); [discriminate|].
    destruct (index_of_char dollar a) eqn:Ea; [discriminate|].
    destruct (index_of_char dollar b) eqn:Eb; [discriminate|].
    assert (Q : a = b /\ x = y).
    { apply IH; [reflexivity | now rewrite Eb | exact H]. }
    destruct Q as [-> ->]. auto.
Qed.

Lemma set_prop_new k v (o : obj) : lookup k o = None -> set_prop k v o = (o ++ [(k, v)])%list.
Proof.
  induction o as [|[k' v'] o IH]; [reflexivity|].
  cbn [lookup set_prop app]. destruct (String.eqb k k'); [discriminate|].
  intros H. now rewrite (IH H).
Qed.

Lemma lookup_app k (a b : obj) :
  lookup k (a ++ b)%list = match lookup k a with Some v => Some v | None => lookup k b end.
Proof.
  induction a as [|[k' v'] a IH]; [reflexivity|].
  cbn [app lookup]. destruct (String.eqb k k'); [reflexivity | exact IH].
Qed.

(** ** Inference on a flat record, and the sample of what it infers *)

Lemma flat_strings_cons k v (o : obj) :
  flat_strings ((k, v) :: o) = true ->
  no_dollar k = true /\ (exists s, v = VStr s /\ s <> EmptyString) /\ flat_strings o = true.
Proof.
  unfold flat_strings. cbn [forallb fst snd]. intros H.
  apply andb_true_iff in H. destruct H as [H Ho].
  apply andb_true_iff in H. destruct H as [Hk Hv].
  destruct v as [ | | b | n | s | e s | xs | kvs ]; try discriminate.
  repeat split; try assumption. exists s. split; [reflexivity|].
  intros ->. discriminate.
Qed.

Lemma lookup_inferred_none g k k' (o : obj) suffix :
  flat_strings o = true -> no_dollar k = true -> ~ In k (keys o) \/ suffix <> "type" ->
  k' = k ++ String dollar suffix ->
  lookup k' (inferred_flat g o) = None.
Proof.
  intros F Hk D ->. induction o as [|[k0 v0] o IH]; [reflexivity|].
  apply flat_strings_cons in F. destruct F as (H0 & _ & F).
  cbn [inferred_flat map lookup fst snd].
  destruct (String.eqb (k ++ String dollar suffix) (k0 ++ "$type")) eqn:E.
  - apply String.eqb_eq in E.
    destruct (decorated_inj k k0 suffix "type" Hk H0 E) as [-> ->].
    destruct D as [D | D]; [exfalso; apply D; now left | congruence].
  - apply IH; [exact F|]. destruct D as [D | D]; [left | now right].
    intros I. apply D. now right.
Qed.

Lemma lookup_inferred_length g k (o : obj) :
  flat_strings o = true -> no_dollar k = true ->
  lookup (k ++ "$length") (inferred_flat g o) = None.
Proof.
  intros F Hk.
  assert (D : ~ In k (keys o) \/ "length" <> "type") by (right; discriminate).
  exact (lookup_inferred_none g k (k ++ "$length") o "length" F Hk D eq_refl).
Qed.

Lemma lookup_inferred g k s (o : obj) :
  flat_strings o = true -> NoDup (keys o) -> In (k, VStr s) o ->
  lookup (k ++ "$type") (inferred_flat g o) = Some (VStr (guess_type g s)).
Proof.
  intros F N I. induction o as [|[k0 v0] o IH]; [contradiction|].
  pose proof F as F'. apply flat_strings_cons in F'. destruct F' as (H0 & _ & Fo).
  inversion N as [|? ? Hnot N']; subst.
  cbn [inferred_flat map lookup fst snd]. destruct I as [I | I].
  - injection I as -> ->. now rewrite eqb_refl_string.
  - destruct (String.eqb (k ++ "$type") (k0 ++ "$type")) eqn:E; [|exact (IH Fo N' I)].
    apply String.eqb_eq, append_inj_r in E. subst k0.
    exfalso. apply Hnot. change k with (fst (k, VStr s)). now apply in_map.
Qed.

Lemma infer_keys_flat g : forall (l acc : obj),
  flat_strings l = true -> NoDup (keys l) ->
  (forall k, In k (keys l) -> lookup (k ++ "$type") acc = None) ->
  infer_keys g l acc = Return ((acc ++ inferred_flat g l)%list, []).
Proof.
  induction l as [|[k v] l IH]; intros acc F N D.
  - cbn [infer_keys inferred_flat map]. now rewrite app_nil_r.
  - apply flat_strings_cons in F. destruct F as (Hk & (s & -> & Hs) & F).
    inversion N as [|? ? Hnot N']; subst.
    cbn [infer_keys infer_key]. unfold no_dollar in Hk.
    destruct (index_of_char dollar k); [discriminate|].
    apply String.eqb_neq in Hs. rewrite Hs. cbn [bind].
    rewrite (set_prop_new _ _ _ (D k (or_introl eq_refl))).
    rewrite IH; [| exact F | exact N' |].
    + cbn [bind inferred_flat map fst snd to_string]. now rewrite <- app_assoc.
    + intros k' I. rewrite lookup_app, (D k' (or_intror I)).
      cbn [lookup]. destruct (String.eqb (k' ++ "$type") (k ++ "$type")) eqn:E; [|reflexivity].
      apply String.eqb_eq, append_inj_r in E. subst k'. contradiction.
Qed.

Lemma guess_sample g s :
  exists v, _generateXsdTypeSample (VStr (guess_type g s)) (VNum (NInt 1)) = Return v.
Proof.
  unfold guess_type.
  destruct (String.eqb s "true" || String.eqb s "false"); [now eexists|].
  destruct (all_digits s); [now eexists|].
  destruct (digits_dot_digits s); [now eexists|].
  destruct (g && looks_hex s); [now eexists|].
  destruct (g && looks_base64 s); now eexists.
Qed.

(** The loop of [_generateSample] over the typed keys of such a
    definition. *)
Lemma sample_loop g (o : obj) : forall (l r : obj),
  flat_strings o = true -> NoDup (keys o) ->
  flat_strings l = true -> NoDup (keys l) -> incl l o ->
  (forall k, In k (keys l) -> lookup k r = None) ->
  exists samples,
    (fix each (l : list (string * value)) (result0 : obj) : result value :=
       match l with
       | [] => Return (VObj result0)
       | (key, v) :: l' =>
           if ends_with "$type" key then
             r <- sample_typed (VObj (inferred_flat g o)) key result0 ;; each l' r
           else if no_dollar key && typeof_object v then
             r <- _generateSample v ;; each l' (set_prop key r result0)
           else each l' result0
       end) (inferred_flat g l) r
    = Return (VObj (r ++ samples)%list)
    /\ keys samples = keys l
    /\ forall k s, In (k, VStr s) l ->
         Return (get samples k)
         = _generateXsdTypeSample (VStr (guess_type g s)) (VNum (NInt 1)).
Proof.
  intros l. induction l as [|[k v] l IH]; intros r Fo No F N I D.
  - exists []. rewrite app_nil_r. repeat split. intros k s [].
  - pose proof F as F'. apply flat_strings_cons in F'.
    destruct F' as (Hk & (s & -> & Hs) & Fl).
    inversion N as [|? ? Hnot N']; subst.
    assert (Io : In (k, VStr s) o) by (apply I; now left).
    destruct (guess_sample g s) as [v Hv].
    cbn [inferred_flat map fst snd to_string]. rewrite ends_with_typed.
    unfold sample_typed. rewrite strip_type_suffix_typed. cbn [get_prop]. unfold get.
    rewrite (lookup_inferred_length g k o Fo Hk).
    rewrite (lookup_inferred g k s o Fo No Io).
    cbn [or_else truthy isArray index nth]. rewrite Hv. cbn [bind].
    rewrite (set_prop_new _ _ _ (D k (or_introl eq_refl))).
    destruct (IH (r ++ [(k, v)])%list Fo No Fl N') as (samples & E & K & G).
    + intros kv J. apply I. now right.
    + intros k' J. rewrite lookup_app, (D k' (or_intror J)). cbn [lookup].
      destruct (String.eqb k' k) eqn:E; [|reflexivity].
      apply String.eqb_eq in E. subst k'. contradiction.
    + exists ((k, v) :: samples). split; [|split].
      * rewrite <- app_assoc in E. exact E.
      * cbn [keys map fst]. fold (keys samples). now rewrite K.
      * intros k' s' [J | J].
        -- injection J as -> ->. unfold get. cbn [lookup]. now rewrite eqb_refl_string.
        -- unfold get. cbn [lookup]. destruct (String.eqb k' k) eqn:E'.
           ++ apply String.eqb_eq in E'. subst k'. exfalso. apply Hnot.
              change k with (fst (k, VStr s')). now apply in_map.
           ++ exact (G k' s' J).
Qed.

(** Inference and sample generation, one after the other, on a record
    whose properties are non-empty strings under names without a dollar
    sign.  Inference types every property by the guess for its text and
    leaves the record empty; the sample of the definition it returns has the
    properties of the record, in their order, each with the sample value of
    its type. *)
Theorem sample_of_inferred_definition (guessBase64Binary : bool) (o : obj) :
  flat_strings o = true -> forallb ordinary_key (keys o) = true -> NoDup (keys o) ->
  exists sample,
    _generateDefinitionXml (VObj o) guessBase64Binary
    = Return (VObj (inferred_flat guessBase64Binary o), VObj [])
    /\ _generateSample (VObj (inferred_flat guessBase64Binary o)) = Return (VObj sample)
    /\ keys sample = keys o
    /\ forall k s, In (k, VStr s) o ->
         Return (get sample k)
         = _generateXsdTypeSample (VStr (guess_type guessBase64Binary s)) (VNum (NInt 1)).
Proof.
  intros F _ N.
  destruct (sample_loop guessBase64Binary o o [] F N F N (incl_refl o) (fun _ _ => eq_refl))
    as (samples & E & K & G).
  exists samples. split; [|split; [exact E | split; [exact K | exact G]]].
  unfold _generateDefinitionXml.
  rewrite (infer_keys_flat guessBase64Binary o [] F N (fun _ _ => eq_refl)).
  reflexivity.
Qed.

Lemma sample_of_inferred_definition_witness :
  exists sample,
    _generateDefinitionXml (VObj [("name", VStr "Ann"); ("age", VStr "41")]) false
    = Return (VObj [("name$type", VStr "string"); ("age$type", VStr "int")], VObj [])
    /\ _generateSample (VObj [("name$type", VStr "string"); ("age$type", VStr "int")])
       = Return (VObj sample)
    /\ keys sample = ["name"; "age"].
Proof.
  destruct (sample_of_inferred_definition false [("name", VStr "Ann"); ("age", VStr "41")]
              eq_refl eq_refl) as (sample & D & S & K & _).
  - repeat constructor; simpl; intuition discriminate.
  - exists sample. repeat split; assumption.
Defined.

(** ** Array types without an element type *)

(** A definition that types a name with the empty array has no sample.
    This is the type that inference writes for an array whose first element
    is an object, and that the definition of a schema document uses for its
    repeated declarations; sample generation asks the type table for the
    type [undefined] and raises. *)
Theorem no_sample_for_empty_array_type (definition : obj) (k : string) :
  lookup (k ++ "$type") definition = Some (VArr []) ->
  returns (_generateSample (VObj definition)) = false.
Proof.
  intros L. cbn [_generateSample].
  assert (G : get_prop (VObj definition) (k ++ "$type") = VArr [])
    by (cbn [get_prop]; unfold get; now rewrite L).
  assert (H : exists v, lookup (k ++ "$type") definition = Some v) by eauto.
  revert H. generalize (@nil (string * value)).
  generalize definition at 1 3.
  intros l. induction l as [|[key v] l IH]; intros r [v0 H]; [discriminate H|].
  cbn [lookup] in H. destruct (String.eqb (k ++ "$type") key) eqn:E.
  - apply String.eqb_eq in E. subst key. rewrite ends_with_typed.
    unfold sample_typed. rewrite G. reflexivity.
  - destruct (ends_with "$type" key).
    + destruct (sample_typed (VObj definition) key r) as [r'|e]; [|reflexivity].
      cbn [bind]. apply IH. eauto.
    + destruct (no_dollar key && typeof_object v).
      * destruct (_generateSample v) as [r'|e]; [|reflexivity].
        cbn [bind]. apply IH. eauto.
      * apply IH. eauto.
Qed.

Lemma no_sample_for_empty_array_type_witness :
  returns (_generateSample (VObj [("row$type", VArr []); ("row", VObj [("a$type", VStr "int")])]))
  = false.
Proof.
  exact (no_sample_for_empty_array_type
           [("row$type", VArr []); ("row", VObj [("a$type", VStr "int")])] "row" eq_refl).
Defined.

(** ** Records *)

Lemma set_prop_last k v w (o : obj) :
  lookup k o = None -> set_prop k v (o ++ [(k, w)])%list = (o ++ [(k, v)])%list.
Proof.
  induction o as [|[k' v'] o IH]; cbn [lookup set_prop app].
  - now rewrite eqb_refl_string.
  - destruct (String.eqb k k'); [discriminate|]. intros H. now rewrite (IH H).
Qed.

Lemma lookup_last k v (o : obj) :
  lookup k o = None -> lookup k (o ++ [(k, v)])%list = Some v.
Proof. intros H. rewrite lookup_app, H. cbn [lookup]. now rewrite eqb_refl_string. Qed.

Lemma save_order_record root seen (p : obj) x :
  isArray (get p x) = false ->
  save_order (record_orders root seen) [root] p x = record_orders root (seen ++ [x])%list.
Proof.
  intros H. unfold save_order. rewrite H.
  destruct seen as [|a seen]; reflexivity.
Qed.

Lemma record_orders_length root seen x :
  List.length (record_orders root (seen ++ [x])%list) = 2%nat.
Proof. destruct seen; reflexivity. Qed.

Lemma converted_value_untyped conv text :
  converted_value conv VUndef text = Return (VStr text).
Proof. destruct conv; reflexivity. Qed.

(** One field of a record, read without a definition. *)
Lemma record_field inline conv root x t (current : obj) seen buffer :
  plain_name x = true -> lookup x current = None ->
  run inline conv (events_of (text_element x [t])) (record_state root current seen buffer)
  = Return (record_state root (current ++ [(x, VStr t)])%list (seen ++ [x])%list EmptyString).
Proof.
  intros P L.
  change (events_of (text_element x [t])) with [StartElement x []; TextData t; EndElement x].
  rewrite run_start.
  assert (H : hasOwnProperty current x = false) by (unfold hasOwnProperty; now rewrite L).
  assert (S1 : startElement inline x [] (record_state root current seen buffer)
               = Return {|
                   definitions := [VObj []; VObj []; VObj []];
                   currentValue := EmptyString;
                   currentObject := [];
                   currentType := VUndef;
                   objects := [(current ++ [(x, VObj [])])%list; [(root, VObj [])]];
                   names := [x; root];
                   orders := record_orders root (seen ++ [x])%list;
                   namespaces := [];
                   definitionNamespaces := [];
                   definitionNamespaceUrls := []
                 |}).
  { unfold startElement. rewrite (split_name_plain _ P). unfold record_state.
    cbn [definitions top read get_prop get lookup bind or_else truthy filter_attributes
         extract_namespaces own_keys keys map extract_definition_namespaces fst snd
         foreign_namespace next_object enclosing_object andb currentObject objects names
         orders namespaces definitionNamespaces definitionNamespaceUrls].
    unfold enclosing_object. cbn [andb]. unfold attach. rewrite H. cbn [isArray]. rewrite (set_prop_new _ _ _ L).
    rewrite save_order_record; [reflexivity|].
    unfold get. now rewrite (lookup_last _ _ _ L). }
  rewrite S1. cbn [bind run step]. unfold text, endElement.
  rewrite (split_name_plain _ P).
  cbn [fst objects currentObject names orders definitions tl currentValue currentType
       namespaces definitionNamespaces definitionNamespaceUrls List.length append].
  rewrite record_orders_length. cbn [Nat.ltb Nat.leb bind].
  unfold write_back. rewrite (lookup_last _ _ _ L), (set_prop_last _ _ _ _ L).
  unfold assign_value, get. rewrite (lookup_last _ _ _ L).
  cbn [typeof_object own_property_count List.length bind].
  rewrite converted_value_untyped. cbn [bind].
  rewrite (set_prop_last _ _ _ _ L). reflexivity.
Qed.

Lemma lookup_record_object k fields :
  ~ In k (map fst fields) -> lookup k (record_object fields) = None.
Proof.
  intros H. apply lookup_in_keys. unfold keys, record_object. rewrite map_map.
  exact H.
Qed.

Lemma record_fields inline conv root sep : forall fields (current : obj) seen buffer,
  Forall (fun kv => plain_name (fst kv) = true) fields ->
  NoDup (map fst fields) ->
  (forall k, In k (map fst fields) -> lookup k current = None) ->
  run inline conv
    (children_events (flat_map (fun kv => [Text sep; text_element (fst kv) [snd kv]]) fields))
    (record_state root current seen buffer)
  = Return (record_state root (current ++ record_object fields)%list
              (seen ++ map fst fields)%list
              (match fields with [] => buffer | _ => EmptyString end)).
Proof.
  induction fields as [|[k t] fields IH]; intros current seen buffer P N D.
  - cbn [flat_map children_events run record_object map]. now rewrite !app_nil_r.
  - inversion P as [|? ? Pk P']; subst. inversion N as [|? ? Hnot N']; subst.
    cbn [fst snd] in *. cbn [flat_map app children_events].
    change (events_of (Text sep)) with [TextData sep].
    cbn [app run step bind].
    change (text sep (record_state root current seen buffer))
      with (record_state root current seen (buffer ++ sep)).
    rewrite run_app, (record_field _ _ _ _ _ _ _ _ Pk (D k (or_introl eq_refl))).
    cbn [bind]. rewrite IH; [| exact P' | exact N' |].
    + cbn [record_object map fst snd]. rewrite <- !app_assoc. cbn [app].
      destruct fields; reflexivity.
    + intros k' I. rewrite lookup_app, (D k' (or_intror I)). cbn [lookup].
      destruct (String.eqb k' k) eqn:E; [|reflexivity].
      apply String.eqb_eq in E. subst k'. contradiction.
Qed.

(** A record read without a definition.  An element whose children are
    elements of different names with text only, with white space around
    them, is parsed into the object of its fields, in their order, each text
    as it stands; the order of the fields is written beside it under
    [root$order] when there is more than one, since no definition declares
    an order to compare it with. *)
Theorem record_parse (inline conv : bool) (root sep : string)
    (fields : list (string * string)) (definition : value) :
  truthy definition = false \/ definition = VObj [] ->
  plain_name root = true -> ordinary_key root = true ->
  Forall (fun kv => plain_name (fst kv) = true) fields ->
  Forall (fun kv => ordinary_key (fst kv) = true) fields ->
  NoDup (map fst fields) -> fields <> [] ->
  all_whitespace sep = true ->
  fromXml (record_document root sep fields) definition inline conv
  = Return (VObj ((root, VObj (record_object fields))
                  :: if (1 <? List.length fields)%nat
                     then [(root ++ "$order", VArr (map VStr (map fst fields)))]
                     else [])).
Proof.
  intros D P _ Pf _ N Ne W. unfold fromXml, _fromXml, record_document.
  assert (E : or_else (match definition with VUndef => VObj [] | d => d end) (VObj [])
              = VObj []).
  { destruct D as [D | ->]; [|reflexivity].
    destruct definition; try reflexivity; unfold or_else; now rewrite D. }
  unfold initial_state. rewrite E.
  rewrite events_of_element, run_start.
  assert (S0 : startElement inline root []
                 {| definitions := [VObj []]; currentValue := EmptyString;
                    currentObject := []; currentType := VStr EmptyString; objects := [];
                    names := []; orders := []; namespaces := [];
                    definitionNamespaces := []; definitionNamespaceUrls := [] |}
               = Return (record_state root [] [] EmptyString)).
  { unfold startElement. rewrite (split_name_plain _ P). reflexivity. }
  rewrite S0. cbn [bind]. unfold record_children.
  rewrite children_events_app, <- app_assoc, run_app.
  rewrite (record_fields inline conv root sep fields [] [] EmptyString Pf N
             (fun _ _ => eq_refl)). cbn [bind app].
  change (children_events [Text sep]) with [TextData sep].
  cbn [app run step bind].
  assert (V : text sep (record_state root (record_object fields) (map fst fields)
                          (match fields with [] => EmptyString | _ => EmptyString end))
              = record_state root (record_object fields) (map fst fields) sep)
    by (destruct fields; reflexivity).
  rewrite V. unfold endElement, record_state. rewrite (split_name_plain _ P).
  cbn [fst objects currentObject names orders definitions tl currentValue currentType
       namespaces definitionNamespaces definitionNamespaceUrls].
  destruct fields as [|kv fields]; [congruence|].
  cbn [record_orders map List.length Nat.ltb Nat.leb].
  unfold write_back. cbn [lookup]. rewrite eqb_refl_string. cbn [set_prop].
  rewrite eqb_refl_string. unfold attach_order. cbn [List.length]. rewrite length_map.
  assert (K : String.eqb (root ++ "$order") root = false).
  { apply String.eqb_neq, append_neq_self. discriminate. }
  assert (K' : String.eqb root (root ++ "$order") = false)
    by (now rewrite String.eqb_sym).
  destruct fields as [|kv' fields].
  - cbn [List.length Nat.ltb Nat.leb bind]. unfold assign_value, get. cbn [lookup].
    rewrite eqb_refl_string.
    cbn [typeof_object own_property_count bind record_object map List.length].
    rewrite W. reflexivity.
  - cbn [List.length Nat.ltb Nat.leb top read get_prop get lookup bind].
    change (_compareArray VUndef (VArr (map VStr (fst kv :: map fst (kv' :: fields)))))
      with false.
    cbn [negb bind set_prop]. rewrite K.
    unfold assign_value, get. cbn [lookup]. rewrite K', eqb_refl_string.
    cbn [typeof_object own_property_count bind record_object map List.length].
    rewrite W. reflexivity.
Qed.

Lemma record_parse_witness :
  fromXml (record_document "person" " " [("name", "Ann"); ("age", "41")]) VUndef true true
  = Return (VObj [("person", VObj [("name", VStr "Ann"); ("age", VStr "41")]);
                  ("person$order", VArr [VStr "name"; VStr "age"])]).
Proof.
  refine (record_parse true true "person" " " [("name", "Ann"); ("age", "41")] VUndef
            (or_introl eq_refl) eq_refl eq_refl _ _ _ _ eq_refl).
  - repeat constructor.
  - repeat constructor.
  - repeat constructor; simpl; intuition discriminate.
  - discriminate.
Defined.

(** ** The class [Parser] *)

(** [Parser.generateSample] gives no sample.  It passes the definition of
    the parser where [generateSample] takes the root name and the options
    where it takes the definition, so that the root name it is called with
    plays no part, the options are asked for a property named after the
    text of the definition, and, finding none, the call raises the type
    error of a missing root.  The definition is one that names no element
    [toString] or [valueOf], so that its text is the one of every plain
    object. *)
Theorem parser_generateSample_raises (definition options : obj) (rootName : value) :
  lookup "toString" definition = None -> lookup "valueOf" definition = None ->
  lookup "[object Object]" options = None ->
  Parser_generateSample (new_Parser (VObj definition) (VObj options)) rootName
  = Throw (TypeError "Cannot convert undefined or null to object")
  /\ Parser_generateSample (new_Parser (VObj definition) VUndef) rootName
     = Throw (TypeError "Cannot convert undefined or null to object").
Proof.
  intros _ _ L. unfold Parser_generateSample, new_Parser, generateSample.
  cbn [_definition _options to_string read get_prop bind]. unfold get. rewrite L.
  split; reflexivity.
Qed.

Lemma parser_generateSample_raises_witness :
  Parser_generateSample
    (new_Parser (VObj person_definition) (VObj [("convertTypes", VBool true)]))
    (VStr "person")
  = Throw (TypeError "Cannot convert undefined or null to object")
  /\ generateSample "person" (VObj person_definition)
     = Return (VObj [("person", VObj [("name", VStr " "); ("age", VNum (NInt 0))])]).
Proof.
  split; [|reflexivity].
  exact (proj1 (parser_generateSample_raises person_definition
                  [("convertTypes", VBool true)] (VStr "person")
                  eq_refl eq_refl eq_refl)).
Defined.

(** ** Sequences of typed elements *)

Lemma typed_key_not_order n : n ++ "$type" <> "$order".
Proof.
  intros E. pose proof (ends_with_typed n) as H. rewrite E in H. discriminate H.
Qed.

Lemma typed_key_starts n :
  plain_name n = true -> n <> EmptyString -> starts_with "$" (n ++ "$type") = false.
Proof.
  intros P N. destruct n as [|c n]; [congruence|].
  apply plain_name_cons in P. destruct P as (_ & D & _).
  unfold starts_with. cbn [append String.prefix].
  destruct (ascii_dec "$" c) as [<- | _]; [discriminate D | reflexivity].
Qed.

Lemma lookup_compiled_none k fields :
  ~ In k (map fd_name fields) -> lookup (k ++ "$type") (compiled_fields fields) = None.
Proof.
  intros H. induction fields as [|f fields IH]; [reflexivity|].
  cbn [compiled_fields map lookup].
  destruct (String.eqb (k ++ "$type") (fd_name f ++ "$type")) eqn:E.
  - apply String.eqb_eq, append_inj_r in E. exfalso. apply H. left. now symmetry.
  - apply IH. intros I. apply H. now right.
Qed.

(** The loop of the [complexType] branch over the children of a sequence. *)
Lemma sequence_loop (recurse : string -> value -> obj -> result value) (table : obj) alias :
  forall fields (order : list value) (types : obj),
  (forall f, In f fields ->
     recurse "element" (declared_field alias f) table
     = Return (VObj [(fd_name f ++ "$type",
                      occurs_type (fd_type f) (fd_min f) (fd_max f))])) ->
  NoDup (map fd_name fields) ->
  (forall f, In f fields -> lookup (fd_name f ++ "$type") types = None) ->
  sequence_each recurse table (map (declared_field alias) fields) (("$order", VArr order) :: types)
  = Return (("$order", VArr (order ++ field_names fields)%list)
            :: (types ++ compiled_fields fields)%list).
Proof.
  induction fields as [|f fields IH]; intros order types R N D.
  - cbn [map field_names compiled_fields]. now rewrite !app_nil_r.
  - inversion N as [|? ? Hnot N']; subst. cbn [map sequence_each].
    rewrite (R f (or_introl eq_refl)). cbn [bind own_keys keys map fst fold_left get_prop].
    unfold get at 1. cbn [lookup]. rewrite eqb_refl_string.
    assert (K : String.eqb (fd_name f ++ "$type") "$order" = false)
      by (apply String.eqb_neq, typed_key_not_order).
    cbn [set_prop]. rewrite K.
    rewrite (set_prop_new _ _ _ (D f (or_introl eq_refl))).
    unfold hasOwnProperty, get. cbn [lookup String.eqb Ascii.eqb Bool.eqb].
    cbn [set_prop String.eqb Ascii.eqb Bool.eqb].
    destruct (typed_element_reads (fd_name f) (alias ++ ":" ++ fd_type f) (fd_min f) (fd_max f))
      as (Hn & _).
    change (declared_field alias f)
      with (typed_element (fd_name f) (alias ++ ":" ++ fd_type f) (fd_min f) (fd_max f)).
    rewrite Hn, ?eqb_refl_string, ?(set_prop_new _ _ _ (D f (or_introl eq_refl))).
    rewrite IH; [| | exact N' |].
    + cbn [field_names compiled_fields map]. rewrite <- !app_assoc. reflexivity.
    + intros f' I. apply R. now right.
    + intros f' I. rewrite lookup_app, (D f' (or_intror I)). cbn [lookup].
      destruct (String.eqb (fd_name f' ++ "$type") (fd_name f ++ "$type")) eqn:E;
        [|reflexivity].
      apply String.eqb_eq, append_inj_r in E. exfalso. apply Hnot. rewrite <- E.
      now apply in_map.
Qed.

Lemma copy_typed_fields name order : forall fields (inner : obj),
  Forall well_named fields ->
  NoDup (map fd_name fields) ->
  (forall f, In f fields -> lookup (fd_name f ++ "$type") inner = None) ->
  copy_subResult name (compiled_fields fields)
    [(name, VObj inner); (name ++ "$order", order)]
  = [(name, VObj (inner ++ compiled_fields fields)%list); (name ++ "$order", order)].
Proof.
  induction fields as [|f fields IH]; intros inner W N D.
  - cbn [compiled_fields map copy_subResult]. now rewrite app_nil_r.
  - inversion W as [|? ? (_ & P & Ne & _) W']; subst. inversion N as [|? ? Hnot N']; subst.
    cbn [compiled_fields map copy_subResult]. rewrite (typed_key_starts _ P Ne).
    unfold get. cbn [lookup]. rewrite eqb_refl_string. cbn [set_prop].
    rewrite eqb_refl_string. rewrite (set_prop_new _ _ _ (D f (or_introl eq_refl))).
    fold (compiled_fields fields). rewrite IH; [| exact W' | exact N' |].
    + now rewrite <- app_assoc.
    + intros f' I. rewrite lookup_app, (D f' (or_intror I)). cbn [lookup].
      destruct (String.eqb (fd_name f' ++ "$type") (fd_name f ++ "$type")) eqn:E;
        [|reflexivity].
      apply String.eqb_eq, append_inj_r in E. exfalso. apply Hnot. rewrite <- E.
      now apply in_map.
Qed.

Lemma finish_sequence name alias fields targetNamespace table :
  Forall well_named fields -> NoDup (map fd_name fields) ->
  finish_element (sequence_element name alias fields) targetNamespace false table
    {| res_result := [];
       res_subResult := VObj (("$order", VArr (field_names fields)) :: compiled_fields fields);
       res_lengths := (NInt 0, NInt 0) |}
  = Return (VObj [(name, VObj (compiled_fields fields));
                  (name ++ "$order", VArr (field_names fields))]).
Proof.
  intros W N.
  assert (Hn : get_prop (sequence_element name alias fields) "$name" = VStr name)
    by reflexivity.
  assert (Hmax : maxOccurs_of (sequence_element name alias fields) = NInt 0) by reflexivity.
  assert (T : get (("$order", VArr (field_names fields)) :: compiled_fields fields) "$type"
              = VUndef).
  { unfold get. cbn [lookup]. change (String.eqb "$type" "$order") with false. cbv iota.
    replace (lookup "$type" (compiled_fields fields)) with (@None value); [reflexivity|].
    clear - W. induction W as [|f fields (_ & _ & Ne & _) _ IH]; [reflexivity|].
    cbn [compiled_fields map lookup]. fold (compiled_fields fields).
    destruct (String.eqb "$type" (fd_name f ++ "$type")) eqn:E; [|exact IH].
    apply String.eqb_eq in E. exfalso. apply Ne.
    apply (append_inj_r _ EmptyString "$type"). now symmetry. }
  remember (sequence_element name alias fields) as element.
  unfold finish_element. rewrite Hn, Hmax.
  cbn [res_result res_subResult res_lengths truthy fst snd to_string bind get_prop
       greater_than].
  rewrite T. cbn [truthy copy_subResult set_prop].
  change (0 <? 0)%Z with false. change (1 <? 0)%Z with false.
  change (starts_with "$" "$order") with true. cbv iota.
  assert (K : String.eqb (name ++ "$order") name = false).
  { apply String.eqb_neq, append_neq_self. discriminate. }
  rewrite K.
  rewrite (copy_typed_fields name _ fields [] W N (fun _ _ => eq_refl)).
  reflexivity.
Qed.

(** An element declared with a sequence of children of types of XML Schema
    compiles to an object under its name that holds the type of every
    child, with its cardinality, and to the names of the children, in the
    order of the sequence, under [name$order].  The children have different
    names, not empty and without colon or dollar sign, and counts that a
    number holds exactly. *)
Theorem sequence_element_compiles (fuel : nat) (name alias : string)
    (fields : list field_declaration) (targetNamespace : value)
    (attributeFormQualified : bool) (typeLookupMap table : obj) :
  ordinary_key name = true -> index_of_char colon alias = None ->
  Forall well_named fields -> NoDup (map fd_name fields) ->
  lookup "hasOwnProperty" table = None ->
  lookup ("xmlns:" ++ alias) table = Some (VStr XMLSchema) ->
  _elementToDefinition (S (S (S fuel))) "element" (sequence_element name alias fields)
    targetNamespace false attributeFormQualified typeLookupMap table
  = Return (VObj [(name, VObj (compiled_fields fields));
                  (name ++ "$order", VArr (field_names fields))]).
Proof.
  intros _ A W N _ L.
  remember (S fuel) as fuel1. unfold sequence_element.
  cbn [_elementToDefinition _extractAndAddNamespaces own_keys keys map fst fold_left
       match_dollar_xmlns bind].
  change (String.eqb "element" "element") with true. cbv iota.
  change (String.eqb "complexType" "element") with false.
  change (String.eqb "complexType" "complexType") with true. cbv iota.
  cbn [get_prop get lookup String.eqb Ascii.eqb Bool.eqb truthy andb orb bind
       hasOwnProperty value_elements].
  change (match_xmlns "name") with (@None string). cbv iota.
  cbn [_extractAndAddNamespaces own_keys keys map fst fold_left match_dollar_xmlns bind].
  match goal with
  | |- context [bind (?F (map (declared_field alias) fields) ?r) _] =>
      change (F (map (declared_field alias) fields) r)
        with (sequence_each
                (fun xsdType' element' namespaces' =>
                   _elementToDefinition fuel1 xsdType' element' targetNamespace false
                     attributeFormQualified typeLookupMap namespaces')
                table (map (declared_field alias) fields) r)
  end.
  rewrite (sequence_loop _ table alias fields [] []); [| | exact N | reflexivity].
  - cbn [bind app in_strings existsb strict_eq_str String.eqb Ascii.eqb Bool.eqb orb negb].
    exact (finish_sequence name alias fields targetNamespace table W N).
  - intros f I. rewrite Heqfuel1. unfold declared_field.
    rewrite Forall_forall in W. destruct (W f I) as (C & _).
    exact (typed_element_compiles fuel _ _ _ _ _ _ _ _ _ A C L).
Qed.

Lemma sequence_element_compiles_witness :
  _elementToDefinition 3 "element"
    (sequence_element "person" "xs"
       [mkField "name" "string" None None; mkField "phone" "string" (Some 0%Z) (Some 3%Z)])
    (VStr XMLSchema) false false [] [("xmlns:xs", VStr XMLSchema)]
  = Return (VObj [("person",
                   VObj [("name$type", VStr "string");
                         ("phone$type", VArr [VStr "string"; VNum (NInt 0); VNum (NInt 3)])]);
                  ("person$order", VArr [VStr "name"; VStr "phone"])]).
Proof.
  refine (sequence_element_compiles 0 "person" "xs"
            [mkField "name" "string" None None; mkField "phone" "string" (Some 0%Z) (Some 3%Z)]
            (VStr XMLSchema) false [] [("xmlns:xs", VStr XMLSchema)]
            eq_refl eq_refl _ _ eq_refl eq_refl).
  - repeat constructor; discriminate.
  - repeat constructor; simpl; intuition discriminate.
Defined.

(** ** Namespace transparency *)

Lemma startElement_forward inline name attrs s local nsAlias a type kept :
  split_name name = (local, nsAlias) ->
  read (top (definitions s)) (local ++ "$attributes") = Return a ->
  read (top (definitions s)) (local ++ "$type") = Return type ->
  let declared := or_else a (VObj []) in
  let wire := extract_namespaces attrs (namespaces s) in
  let maps := extract_definition_namespaces declared (own_keys declared)
                (definitionNamespaces s, definitionNamespaceUrls s) in
  filter_attributes declared wire (snd maps) attrs = Return kept ->
  let foreign :=
    foreign_namespace nsAlias (get wire (key_of_alias nsAlias))
      (get (fst maps) (to_string (get_prop (top (definitions s)) (local ++ "$namespace")))) in
  let next := next_object inline nsAlias foreign kept in
  let enclosing := enclosing_object inline (currentObject s) local nsAlias foreign type kept next in
  startElement inline name attrs s
  = Return {|
      definitions := or_else (get_prop (top (definitions s)) local) (VObj []) :: definitions s;
      currentValue := EmptyString;
      currentObject := next;
      currentType := type;
      objects := enclosing :: objects s;
      names := local :: names s;
      orders := save_order (orders s) (names s) enclosing local;
      namespaces := wire;
      definitionNamespaces := fst maps;
      definitionNamespaceUrls := snd maps
    |}.
Proof.
  intros Sp A T declared wire maps K foreign next enclosing.
  unfold startElement. rewrite Sp, A. cbn [bind]. rewrite T. cbn [bind].
  fold declared. fold wire. fold maps. rewrite K. reflexivity.
Qed.

Lemma namespace_document_result (alias url : string) (inline conv : bool) :
  plain_name alias = true -> alias <> EmptyString ->
  match_xmlns ("xmlns:" ++ alias) = Some alias ->
  fromXml namespace_document (namespace_definition alias url) inline conv
  = Return
      (if String.eqb "urn:x" url then VObj [("a", VObj [("b", VStr EmptyString)])]
       else if inline then
         VObj [("a", VObj [("$xmlns:ns", VStr "urn:x");
                           ("b", VObj [("namespace$", VStr "ns")])])]
       else
         VObj [("a$attributes", VObj [("xmlns:ns", VStr "urn:x")]);
               ("a", VObj [("b$namespace", VStr "ns"); ("b", VStr EmptyString)])]).
Proof.
  intros P N M.
  assert (K2 : String.eqb "xmlns:ns$type" ("xmlns:" ++ alias) = false).
  { apply String.eqb_neq. intros E. injection E as E. subst alias. discriminate P. }
  assert (T : truthy (VStr alias) = true).
  { cbn [truthy]. apply negb_true_iff, String.eqb_neq. exact N. }
  remember ("xmlns:" ++ alias) as k eqn:Hk.
  assert (Tb : extract_definition_namespaces (VObj [(k, VStr url)])
                 (own_keys (VObj [(k, VStr url)])) ([], [])
               = ([(alias, VStr url)], [(url, VStr alias)])).
  { cbn [own_keys keys map fst extract_definition_namespaces]. rewrite M.
    cbn [get_prop]. unfold get. cbn [lookup]. rewrite eqb_refl_string. reflexivity. }
  assert (KA : filter_attributes (VObj [(k, VStr url)]) [("ns", VStr "urn:x")]
                 [(url, VStr alias)] [("xmlns:ns", "urn:x")]
               = Return (if String.eqb "urn:x" url then []
                         else [("xmlns:ns", VStr "urn:x")])).
  { cbn [filter_attributes]. unfold definition_value.
    change (split_at colon "xmlns:ns") with ["xmlns"; "ns"]. cbv iota.
    change (String.eqb "xmlns" "xmlns") with true. cbv iota.
    unfold get at 1. cbn [lookup].
    destruct (String.eqb "urn:x" url).
    - rewrite T. reflexivity.
    - cbn [truthy]. change (strict_eq (VStr "urn:x") (VStr EmptyString)) with false.
      cbv iota. cbn [get_prop]. unfold get. cbn [lookup].
      change ("xmlns:ns" ++ "$type") with "xmlns:ns$type". rewrite K2. reflexivity. }
  unfold fromXml, _fromXml, namespace_document, namespace_definition. rewrite <- Hk.
  set (def := VObj [("a$attributes", VObj [(k, VStr url)]);
                    ("a", VObj [("b$namespace", VStr alias)])]).
  cbn [events_of children_events app]. rewrite run_start.
  rewrite (startElement_forward inline "a" [("xmlns:ns", "urn:x")] (initial_state def)
             "a" None (VObj [(k, VStr url)]) VUndef
             (if String.eqb "urn:x" url then [] else [("xmlns:ns", VStr "urn:x")])
             eq_refl eq_refl eq_refl).
  2:{ unfold initial_state.
      cbn [namespaces definitionNamespaces definitionNamespaceUrls].
      change (or_else (VObj [(k, VStr url)]) (VObj [])) with (VObj [(k, VStr url)]).
      unfold obj in Tb |- *. rewrite Tb. exact KA. }
  unfold initial_state.
  cbn [bind namespaces definitionNamespaces definitionNamespaceUrls definitions
       currentObject objects names orders top].
  change (or_else (VObj [(k, VStr url)]) (VObj [])) with (VObj [(k, VStr url)]).
  unfold obj in Tb |- *. rewrite Tb. cbn [fst snd].
  change (or_else def (VObj [])) with def.
  change (get_prop def "a") with (VObj [("b$namespace", VStr alias)]).
  change (or_else (VObj [("b$namespace", VStr alias)]) (VObj []))
    with (VObj [("b$namespace", VStr alias)]).
  change (get_prop def ("a" ++ "$namespace")) with VUndef.
  change (extract_namespaces [("xmlns:ns", "urn:x")] []) with [("ns", VStr "urn:x")].
  cbn [foreign_namespace key_of_alias].
  assert (G4 : get [(alias, VStr url)] alias = VStr url).
  { unfold get. cbn [lookup]. now rewrite eqb_refl_string. }
  rewrite run_start.
  match goal with
  | |- context [startElement inline "ns:b" [] ?s] =>
      rewrite (startElement_forward inline "ns:b" [] s "b" (Some "ns") VUndef VUndef []
                 eq_refl eq_refl eq_refl eq_refl)
  end.
  cbn [bind namespaces definitionNamespaces definitionNamespaceUrls definitions
       currentObject objects names orders top or_else truthy own_keys
       extract_definition_namespaces extract_namespaces fst snd key_of_alias].
  change (get_prop (VObj [("b$namespace", VStr alias)]) ("b" ++ "$namespace"))
    with (VStr alias).
  change (get_prop (VObj [("b$namespace", VStr alias)]) "b") with VUndef.
  cbn [to_string or_else truthy keys map extract_definition_namespaces fst snd].
  unfold obj in G4 |- *. rewrite G4.
  change (get [("ns", VStr "urn:x")] "ns") with (VStr "urn:x").
  change (foreign_namespace (Some "ns") (VStr "urn:x") (VStr url))
    with (negb (String.eqb "urn:x" url)).
  destruct (String.eqb "urn:x" url); destruct inline; destruct conv; reflexivity.
Qed.

(** C6: the document [<a xmlns:ns="urn:x"><ns:b/></a>] against a
    definition that declares [b] in the namespace of an alias which its own
    namespace attributes (those of [a]) bind to a URL.  When the URL is
    [urn:x] the result carries no marker and no namespace declaration (the
    declaration equals the one of the definition and is dropped): it is
    [{a: {b: ''}}].  When it is another URL the marker is the alias of the
    wire, [ns]: the property [namespace$] of the object of [b] with inline
    attributes, the property [b$namespace] of the object of [a], the parent,
    without them; the declaration of the wire is kept.  The option
    [convertTypes] plays no part. *)
Theorem namespace_transparency (alias url : string) (inline conv : bool) :
  plain_name alias = true -> alias <> EmptyString -> ordinary_key alias = true ->
  match_xmlns ("xmlns:" ++ alias) = Some alias ->
  let parsed := fromXml namespace_document (namespace_definition alias url) inline conv in
  (url = "urn:x" -> parsed = Return (VObj [("a", VObj [("b", VStr EmptyString)])]))
  /\ (url <> "urn:x" -> inline = true ->
      parsed = Return (VObj [("a", VObj [("$xmlns:ns", VStr "urn:x");
                                         ("b", VObj [("namespace$", VStr "ns")])])]))
  /\ (url <> "urn:x" -> inline = false ->
      parsed = Return (VObj [("a$attributes", VObj [("xmlns:ns", VStr "urn:x")]);
                             ("a", VObj [("b$namespace", VStr "ns");
                                         ("b", VStr EmptyString)])])).
Proof.
  intros P N _ M parsed. unfold parsed.
  rewrite (namespace_document_result alias url inline conv P N M).
  refine (conj _ (conj _ _)).
  - intros ->. reflexivity.
  - intros U ->. destruct (String.eqb "urn:x" url) eqn:E; [|reflexivity].
    apply String.eqb_eq in E. congruence.
  - intros U ->. destruct (String.eqb "urn:x" url) eqn:E; [|reflexivity].
    apply String.eqb_eq in E. congruence.
Qed.

Lemma namespace_transparency_witness :
  fromXml namespace_document (namespace_definition "d" "urn:x") true true
  = Return (VObj [("a", VObj [("b", VStr EmptyString)])])
  /\ fromXml namespace_document (namespace_definition "d" "urn:other") true true
     = Return (VObj [("a", VObj [("$xmlns:ns", VStr "urn:x");
                                 ("b", VObj [("namespace$", VStr "ns")])])])
  /\ fromXml namespace_document (namespace_definition "d" "urn:other") false true
     = Return (VObj [("a$attributes", VObj [("xmlns:ns", VStr "urn:x")]);
                     ("a", VObj [("b$namespace", VStr "ns"); ("b", VStr EmptyString)])]).
Proof.
  destruct (namespace_transparency "d" "urn:x" true true eq_refl ltac:(discriminate)
              eq_refl eq_refl) as (Same & _ & _).
  destruct (namespace_transparency "d" "urn:other" true true eq_refl ltac:(discriminate)
              eq_refl eq_refl) as (_ & Inline & _).
  destruct (namespace_transparency "d" "urn:other" false true eq_refl ltac:(discriminate)
              eq_refl eq_refl) as (_ & _ & Beside).
  exact (conj (Same eq_refl)
           (conj (Inline ltac:(discriminate) eq_refl) (Beside ltac:(discriminate) eq_refl))).
Defined.
(** ** Attribute default elision *)





